(** * RiskScore (gerald-gateway): scoring, installments and webhook delivery

    A shallow embedding of the decision core of the gateway:

    - [gerald_gateway/utils/date_utils.py]      ([generate_date_range])
    - [gerald_gateway/domain/scoring.py]        ([analyze_transactions],
      [calculate_risk_score], [determine_credit_limit], [make_credit_decision])
    - [gerald_gateway/domain/installments.py]   ([generate_installment_plan])
    - [gerald_gateway/infrastructure/clients/ledger.py]
      ([LedgerClient.send_approval_event])
    - [gerald_gateway/infrastructure/observability/metrics.py]
      ([record_decision])
    - [gerald_gateway/infrastructure/clients/bank.py]
      ([BankClient.get_transactions])
    - [gerald_gateway/api/v1/decision.py]       ([create_decision])

    Data is modelled as Python has it.  An [int] is an unbounded integer
    ([Z]); [//] and [%] are floor division and its remainder ([Z.div],
    [Z.modulo]) and raise [ZeroDivisionError] on a zero divisor.  A [float]
    is an IEEE 754 binary64 number (the primitive type [float], specified
    by [SpecFloat]); [int / int] is the correctly rounded quotient and
    raises [OverflowError] when it leaves the range of a float, as does the
    conversion of an [int] operand of a float operation.  A [datetime.date]
    is its day ordinal, an integer.  Where the code adds a [timedelta] to a
    date that its caller chooses (the installment plan), the bounds of
    [timedelta] and of the calendar (years 1 to 9999) are checked and
    raise [OverflowError] as in Python; the analyzer only moves between
    the dates of its input, where they cannot be exceeded.  Exceptions are
    values of [exn], carried by the [result] monad.  A call into a
    library (the HTTP client, the database session, the metrics, the log)
    is modelled by what it does: it returns or it raises. *)

From Stdlib Require Import ZArith QArith Qpower Lqa Floats Lia Bool.
From stdpp Require Import gmap strings list sorting.

Set Warnings "-inexact-float".
Local Open Scope Z_scope.

(** ** Exceptions and the result monad *)

Inductive exn : Type :=
  | InsufficientDataError   (* domain/exceptions.py *)
  | ZeroDivisionError
  | OverflowError
  | IndexError
  | HTTPStatusError (status_code : Z)   (* httpx: raise_for_status *)
  | RequestError.                       (* httpx: timeouts, connection errors *)

Inductive result (A : Type) : Type :=
  | Ok (a : A)
  | Raise (e : exn).

Arguments Ok {A} a.
Arguments Raise {A} e.

#[global] Instance result_ret : MRet result := fun A a => Ok a.
#[global] Instance result_bind : MBind result := fun A B f r =>
  match r with
  | Ok a => f a
  | Raise e => Raise e
  end.
#[global] Instance result_fmap : FMap result := fun A B f r =>
  match r with
  | Ok a => Ok (f a)
  | Raise e => Raise e
  end.

(** ** The Python builtins the code uses *)

Module Py.

(** [a // b] and [a % b] on [int]. *)
Definition floordiv (a b : Z) : result Z :=
  if b =? 0 then Raise ZeroDivisionError else Ok (a / b).

Definition mod_ (a b : Z) : result Z :=
  if b =? 0 then Raise ZeroDivisionError else Ok (a mod b).

(** An [int] as an exact (unrounded) binary number. *)
Definition Z2SF (n : Z) : spec_float :=
  match n with
  | Z0 => S754_zero false
  | Zpos p => S754_finite false p 0
  | Zneg p => S754_finite true p 0
  end.

(** A correctly rounded result that overflowed raises. *)
Definition checked (x : spec_float) : result float :=
  match x with
  | S754_infinity _ | S754_nan => Raise OverflowError
  | _ => Ok (SF2Prim x)
  end.

(** [float(n)]: the nearest float, ties to even. *)
Definition float_of_int (n : Z) : result float :=
  checked (binary_normalize prec emax n 0 false).

(** [a / b] on [int]: the exact quotient, rounded once. *)
Definition truediv (a b : Z) : result float :=
  if b =? 0 then Raise ZeroDivisionError
  else checked (SFdiv prec emax (Z2SF a) (Z2SF b)).

(** [x * n] for a float [x] and an [int] [n]. *)
Definition mul_float_int (x : float) (n : Z) : result float :=
  f ← float_of_int n; Ok (x * f)%float.

(** [min(a, b)]: the second argument wins only when it is smaller. *)
Definition min (a b : float) : float :=
  if (b <? a)%float then b else a.

(** The integer nearest to [n / d] for [0 < d], ties to the even one. *)
Definition round_half_even_div (n d : Z) : Z :=
  let q := n / d in
  match 2 * (n mod d) ?= d with
  | Lt => q
  | Gt => q + 1
  | Eq => if Z.even q then q else q + 1
  end.

(** The integer nearest to [m * 2^e * 10^3], ties to the even one. *)
Definition scaled_thousandths (m : positive) (e : Z) : Z :=
  match e with
  | Zneg p => round_half_even_div (Zpos m * 1000) (2 ^ Zpos p)
  | _ => Zpos m * 1000 * 2 ^ e
  end.

(** [round(x, 3)]: the exact value of [x] is rounded to a multiple of
    [10^-3] (half to even) and that decimal is converted back to the
    nearest float; infinities and NaN round to themselves, and a result
    of zero keeps the sign of [x]. *)
Definition round3 (x : float) : float :=
  match Prim2SF x with
  | S754_finite s m e =>
      match scaled_thousandths m e with
      | Zpos n =>
          SF2Prim (SFdiv prec emax (S754_finite s n 0) (S754_finite false 1000 0))
      | _ => SF2Prim (S754_zero s)
      end
  | _ => x
  end.

(** [range(n)]. *)
Definition range (n : Z) : list Z := seqZ 0 n.

(** [sum(l)] on [int]. *)
Definition sum (l : list Z) : Z := foldl Z.add 0 l.

(** [len(l)]. *)
Definition len {A} (l : list A) : Z := Z.of_nat (length l).

(** [l[0]] and [l[-1]]. *)
Definition first {A} (l : list A) : result A :=
  match head l with
  | Some a => Ok a
  | None => Raise IndexError
  end.

Definition last_ {A} (l : list A) : result A :=
  match last l with
  | Some a => Ok a
  | None => Raise IndexError
  end.

(** The list that a loop [for x in l: ...; out.append(f(x))] builds: the
    first iteration that raises ends the loop. *)
Fixpoint collect {A B} (f : A -> result B) (l : list A) : result (list B) :=
  match l with
  | [] => Ok []
  | x :: l' => y ← f x; out ← collect f l'; Ok (y :: out)
  end.

End Py.

(** ** domain/models.py *)

(** A [datetime.date], as its day ordinal. *)
Abbreviation Date := Z (only parsing).

Module Transaction.
Record t : Type := mk {
  transaction_id : string;
  date : Date;
  amount_cents : Z;
  type : string;          (* "credit" or "debit" *)
  description : string;
  category : string;
  merchant : string;
  balance_cents : Z;
  nsf : bool
}.
End Transaction.

Module RiskFactors.
Record t : Type := mk {
  avg_daily_balance_cents : Z;
  total_income_cents : Z;
  total_spend_cents : Z;
  income_spend_ratio : float;
  nsf_count : Z;
  transaction_count : Z;
  days_with_transactions : Z
}.
End RiskFactors.

Module CreditDecision.
Record t : Type := mk {
  approved : bool;
  credit_limit_cents : Z;
  score : float;
  score_band : string;
  risk_factors : RiskFactors.t
}.
End CreditDecision.

Module Installment.
Record t : Type := mk {
  due_date : Date;
  amount_cents : Z
}.
End Installment.

(** The arithmetic of [datetime] on day ordinals. *)
Module Datetime.

(** [date.min] is 0001-01-01 and [date.max] is 9999-12-31. *)
Definition min_ordinal : Z := 1.
Definition max_ordinal : Z := 3652059.

(** The largest number of days of a [timedelta]. *)
Definition max_delta_days : Z := 999999999.

(** The ordinals of the dates of the calendar. *)
Definition valid (d : Date) : bool :=
  (min_ordinal <=? d) && (d <=? max_ordinal).

(** [timedelta(days=n)] *)
Definition timedelta (days : Z) : result Z :=
  if Z.abs days <=? max_delta_days then Ok days else Raise OverflowError.

(** [d + delta] for a date [d] and a [timedelta] of [delta] days. *)
Definition add (d : Date) (delta : Z) : result Date :=
  if valid (d + delta) then Ok (d + delta) else Raise OverflowError.

End Datetime.

(** ** utils/date_utils.py *)

(** [(end - start).days + 1] dates, [start + timedelta(days=i)] each. *)
Definition generate_date_range (start end_ : Date) : list Date :=
  let days := (end_ - start) + 1 in
  (fun i => start + i) <$> Py.range days.

(** ** domain/scoring.py *)

(** [sorted(transactions, key=lambda t: t.date)].  The builtin sort is
    stable; a stable insertion sort computes the same list. *)
Fixpoint insert_by_date (t : Transaction.t) (l : list Transaction.t)
  : list Transaction.t :=
  match l with
  | [] => [t]
  | u :: l' =>
      if Transaction.date t <=? Transaction.date u then t :: u :: l'
      else u :: insert_by_date t l'
  end.

Definition sorted_by_date (l : list Transaction.t) : list Transaction.t :=
  foldr insert_by_date [] l.

(** The loop [for txn in sorted_txns: balance_by_date[txn.date] = txn.balance_cents]. *)
Definition build_balance_by_date (sorted_txns : list Transaction.t)
  : gmap Date Z :=
  foldl (fun m txn => <[Transaction.date txn := Transaction.balance_cents txn]> m)
        ∅ sorted_txns.

(** The carry-forward loop; its state is [(last_known_balance, daily_balances)]. *)
Definition carry_step (balance_by_date : gmap Date Z)
    (st : Z * list Z) (day : Date) : Z * list Z :=
  let last_known_balance :=
    match balance_by_date !! day with
    | Some b => b
    | None => st.1
    end in
  (last_known_balance, st.2 ++ [last_known_balance]).

Definition carry_forward (balance_by_date : gmap Date Z) (all_dates : list Date)
  : list Z :=
  (foldl (carry_step balance_by_date) (0, []) all_dates).2.

(** Lines 22-43: the sort, the per-date map, the expanded range and the
    daily balances. *)
Definition daily_balances_of (sorted_txns : list Transaction.t)
    (start_date end_date : Date) : list Z :=
  carry_forward (build_balance_by_date sorted_txns)
                (generate_date_range start_date end_date).

Definition average (daily_balances : list Z) : Z :=
  match daily_balances with
  | [] => 0
  | _ => Py.sum daily_balances / Py.len daily_balances
  end.

Definition is_credit (t : Transaction.t) : bool :=
  String.eqb (Transaction.type t) "credit".

Definition is_debit (t : Transaction.t) : bool :=
  String.eqb (Transaction.type t) "debit".

Definition is_nsf (t : Transaction.t) : bool :=
  Transaction.nsf t || (Transaction.balance_cents t <? 0).

Definition total_income_of (transactions : list Transaction.t) : Z :=
  Py.sum (Transaction.amount_cents <$> List.filter is_credit transactions).

Definition total_spend_of (transactions : list Transaction.t) : Z :=
  Py.sum (Transaction.amount_cents <$> List.filter is_debit transactions).

Definition income_spend_ratio_of (total_income total_spend : Z) : result float :=
  if 0 <? total_spend then Py.truediv total_income total_spend else Ok 0%float.

Definition nsf_count_of (transactions : list Transaction.t) : Z :=
  Py.sum ((fun _ => 1) <$> List.filter is_nsf transactions).

Definition unique_dates_of (transactions : list Transaction.t) : gset Date :=
  list_to_set (Transaction.date <$> transactions).

Definition analyze_transactions (transactions : list Transaction.t)
  : result RiskFactors.t :=
  match transactions with
  | [] => Raise InsufficientDataError
  | _ =>
      let sorted_txns := sorted_by_date transactions in
      first_txn ← Py.first sorted_txns;
      last_txn ← Py.last_ sorted_txns;
      let start_date := Transaction.date first_txn in
      let end_date := Transaction.date last_txn in
      let daily_balances := daily_balances_of sorted_txns start_date end_date in
      let avg_daily_balance := average daily_balances in
      let total_income := total_income_of transactions in
      let total_spend := total_spend_of transactions in
      income_spend_ratio ← income_spend_ratio_of total_income total_spend;
      let nsf_count := nsf_count_of transactions in
      let unique_dates := unique_dates_of transactions in
      Ok (RiskFactors.mk avg_daily_balance total_income total_spend
            income_spend_ratio nsf_count (Py.len transactions)
            (Z.of_nat (size unique_dates)))
  end.

Definition balance_baseline : Z := 100000.

Definition nsf_score_of (nsf_count : Z) : float :=
  if nsf_count =? 0 then 1.0%float else 0.0%float.

Definition calculate_risk_score (risk_factors : RiskFactors.t) : result float :=
  ratio ← Py.truediv (RiskFactors.avg_daily_balance_cents risk_factors)
                     balance_baseline;
  let balance_score := Py.min ratio 1.0 in
  let income_score := Py.min (RiskFactors.income_spend_ratio risk_factors) 1.0 in
  let nsf_score := nsf_score_of (RiskFactors.nsf_count risk_factors) in
  let score := (0.4 * balance_score + 0.4 * income_score + 0.2 * nsf_score)%float in
  Ok (Py.round3 score).

Definition determine_credit_limit (score : float) : bool * Z * string :=
  if (score <? 0.2)%float then (false, 0, "high_risk"%string)
  else if (score <? 0.4)%float then (true, 10000, "moderate_risk"%string)
  else if (score <? 0.7)%float then (true, 40000, "acceptable_risk"%string)
  else (true, 100000, "low_risk"%string).

Definition make_credit_decision (transactions : list Transaction.t)
  : result CreditDecision.t :=
  risk_factors ← analyze_transactions transactions;
  score ← calculate_risk_score risk_factors;
  let '(approved, credit_limit, score_band) := determine_credit_limit score in
  Ok (CreditDecision.mk approved credit_limit score score_band risk_factors).

(** ** domain/installments.py *)

(** [today] is what [date.today()] returns when the call is made. *)
Definition generate_installment_plan (today : Date)
    (amount_cents num_installments interval_days : Z)
    (start_date : option Date) : result (list Installment.t) :=
  if amount_cents <=? 0 then Ok []
  else
    start_date ←
      match start_date with
      | Some d => Ok d
      | None => delta ← Datetime.timedelta interval_days; Datetime.add today delta
      end;
    base_amount ← Py.floordiv amount_cents num_installments;
    remainder ← Py.mod_ amount_cents num_installments;
    Py.collect
      (fun i =>
         delta ← Datetime.timedelta (i * interval_days);
         due_date ← Datetime.add start_date delta;
         let amount :=
           base_amount + (if i =? num_installments - 1 then remainder else 0) in
         Ok (Installment.mk due_date amount))
      (Py.range num_installments).

(** The defaults of the signature: four installments, fourteen days apart. *)
Definition default_num_installments : Z := 4.
Definition default_interval_days : Z := 14.

(** ** infrastructure/clients/ledger.py *)

Module Ledger.

(** What one [client.post(...)] can produce: a response with a status
    code, or one of httpx's transport errors.  [httpx.TimeoutException]
    and [httpx.ConnectError] are both subclasses of [httpx.RequestError]. *)
Inductive post_result : Type :=
  | Response (status_code : Z)
  | TimeoutException
  | ConnectError.

(** httpx: [Response.is_success], the test behind [raise_for_status]. *)
Definition is_success (status_code : Z) : bool :=
  (200 <=? status_code) && (status_code <=? 299).

(** The body of the [try]: the post, then [response.raise_for_status()]. *)
Definition try_post (r : post_result) : result unit :=
  match r with
  | Response status_code =>
      if is_success status_code then Ok tt
      else Raise (HTTPStatusError status_code)
  | TimeoutException | ConnectError => Raise RequestError
  end.

(** [except (httpx.HTTPStatusError, httpx.RequestError)] *)
Definition caught (e : exn) : bool :=
  match e with
  | HTTPStatusError _ | RequestError => true
  | _ => false
  end.

(** The observable steps of a delivery: a post sent while the counter
    [attempt] had the given value, an increment of the failure counter,
    a sleep of the given number of seconds. *)
Inductive event : Type :=
  | Post (attempt : Z)
  | FailureInc
  | Sleep (seconds : float).

(** How the coroutine ends: it returns (the event was delivered), or the
    exception of the last attempt leaves it (delivery exhausted). *)
Inductive outcome : Type :=
  | Returned
  | Raised (e : exn)
  | OutOfFuel.

Section Client.
(** [settings.webhook_max_retries], [settings.webhook_backoff_base] and
    the responses of the endpoint, one per post. *)
Variable max_retries : Z.
Variable backoff_base : float.
Variable endpoint : nat -> post_result.

(** [self.backoff_base * (2 ** (attempt - 1))] *)
Definition backoff (attempt : Z) : result float :=
  Py.mul_float_int backoff_base (2 ^ (attempt - 1)).

(** The [while attempt < self.max_retries] loop.  One unit of [fuel]
    is spent per iteration; [max_retries - attempt] units are enough
    (lemma [retry_loop_fuel]). *)
Fixpoint retry_loop (fuel : nat) (attempt : Z) : list event * outcome :=
  if attempt <? max_retries then
    match fuel with
    | O => ([], OutOfFuel)
    | S fuel' =>
        match try_post (endpoint (Z.to_nat attempt)) with
        | Ok _ => ([Post attempt], Returned)
        | Raise e =>
            if negb (caught e) then ([Post attempt], Raised e)
            else
              let attempt' := attempt + 1 in
              if attempt' >=? max_retries then
                ([Post attempt; FailureInc], Raised e)
              else
                match backoff attempt' with
                | Raise e' => ([Post attempt; FailureInc], Raised e')
                | Ok seconds =>
                    let '(trace, o) := retry_loop fuel' attempt' in
                    (Post attempt :: FailureInc :: Sleep seconds :: trace, o)
                end
        end
    end
  else ([], Returned).

Definition send_approval_event : list event * outcome :=
  retry_loop (Z.to_nat max_retries) 0.
End Client.

(** The defaults of [config.py]. *)
Definition default_max_retries : Z := 5.
Definition default_backoff_base : float := 1.0%float.

(** Reading a trace: the number of posts and the sleeps, in order. *)
Definition is_post (ev : event) : bool :=
  match ev with Post _ => true | _ => false end.

Definition attempts (trace : list event) : Z :=
  Py.len (List.filter is_post trace).

Fixpoint sleeps (trace : list event) : list float :=
  match trace with
  | [] => []
  | Sleep seconds :: trace' => seconds :: sleeps trace'
  | _ :: trace' => sleeps trace'
  end.

(** The float [2^n]. *)
Definition pow2 (n : Z) : float := Z.ldexp 1%float n.

(** The delay the specification gives for the sleep after the failed
    attempt number [attempt] (counted from 1). *)
Definition spec_delay (backoff_base : float) (attempt : Z) : float :=
  (backoff_base * pow2 (attempt - 1))%float.

(** A post fails when the body of the [try] raises. *)
Definition fails (r : post_result) : Prop := try_post r <> Ok tt.

(** The steps of [n] failed attempts in a row, the first one made with
    the counter at [a], each followed by its sleep. *)
Definition failure_steps (backoff_base : float) (a : Z) (n : Z) : list event :=
  i ← seqZ a n; [Post i; FailureInc; Sleep (spec_delay backoff_base (i + 1))].

(** The claim on the retry schedule, for one configuration and one
    sequence of responses: attempts are counted from 1, so attempt [k]
    receives [endpoint (k - 1)]. *)
Definition retry_schedule (max_retries : Z) (backoff_base : float)
    (endpoint : nat -> post_result) : Prop :=
  let '(trace, o) := send_approval_event max_retries backoff_base endpoint in
  (forall k, 1 <= k <= max_retries ->
     (forall i, 1 <= i < k -> fails (endpoint (Z.to_nat (i - 1)))) ->
     ~ fails (endpoint (Z.to_nat (k - 1))) ->
     o = Returned /\ attempts trace = k /\
     sleeps trace = spec_delay backoff_base <$> seqZ 1 (k - 1)) /\
  ((forall i, 1 <= i <= max_retries -> fails (endpoint (Z.to_nat (i - 1)))) ->
     (exists e, try_post (endpoint (Z.to_nat (max_retries - 1))) = Raise e /\
                o = Raised e) /\
     attempts trace = max_retries /\
     sleeps trace = spec_delay backoff_base <$> seqZ 1 (max_retries - 1)).

End Ledger.

(** * Definitions used by the statements *)

(** The amount of installment [i] out of [n], as the loop body computes it. *)
Definition installment_amount (base_amount remainder n i : Z) : Z :=
  base_amount + (if i =? n - 1 then remainder else 0).

(** The first due date: the start date given, or [interval_days] after
    today. *)
Definition first_due_date (today interval_days : Z) (start_date : option Date)
  : result Date :=
  match start_date with
  | Some d => Ok d
  | None => delta ← Datetime.timedelta interval_days; Datetime.add today delta
  end.

(** All [count] due dates, [interval_days] apart from [start], are dates
    of the calendar. *)
Definition schedulable (start count interval_days : Z) : bool :=
  forallb (fun i => Datetime.valid (start + i * interval_days)) (Py.range count).

(** The claim on the installment plan, for one call. *)
Definition installment_plan_claim (today amount count interval : Z)
    (start : option Date) : Prop :=
  (amount <= 0 ->
     generate_installment_plan today amount count interval start = Ok []) /\
  (0 < amount -> 1 <= count ->
     exists plan : list Installment.t,
       generate_installment_plan today amount count interval start = Ok plan /\
       Py.len plan = count /\
       (forall i, 0 <= i < count - 1 ->
          Installment.amount_cents <$> plan !! Z.to_nat i = Some (amount / count)) /\
       Installment.amount_cents <$> plan !! Z.to_nat (count - 1)
         = Some (amount / count + amount mod count) /\
       Py.sum (Installment.amount_cents <$> plan) = amount /\
       (forall i, 0 <= i < count ->
          Installment.due_date <$> plan !! Z.to_nat i
          = Some (default (today + interval) start + i * interval)) /\
       (forall i a b, 0 <= i -> i + 1 < count ->
          plan !! Z.to_nat i = Some a -> plan !! Z.to_nat (i + 1) = Some b ->
          Installment.due_date b = Installment.due_date a + interval /\
          Installment.due_date a < Installment.due_date b)).

(** The claim on a call with no installment, for one call. *)
Definition zero_count_claim (today amount interval : Z) (start : option Date)
  : Prop :=
  0 < amount ->
  generate_installment_plan today amount 0 interval start = Raise ZeroDivisionError.


(** The order of the floats that are not NaN, as a lexicographic order on
    integer keys: [SFcompare] compares the keys (lemma [SFcompare_key]). *)
Definition SFkey (x : spec_float) : Z * Z * Z :=
  match x with
  | S754_zero _ => (0, 0, 0)
  | S754_infinity s => (if s then -2 else 2, 0, 0)
  | S754_nan => (0, 0, 0)
  | S754_finite s m e => if s then (-1, - e, Zneg m) else (1, e, Zpos m)
  end.

Definition lex3 (a b : Z * Z * Z) : comparison :=
  match a.1.1 ?= b.1.1 with
  | Eq => match a.1.2 ?= b.1.2 with
          | Eq => a.2 ?= b.2
          | c => c
          end
  | c => c
  end.

Definition key_lt (a b : Z * Z * Z) : Prop :=
  a.1.1 < b.1.1 \/
  (a.1.1 = b.1.1 /\ (a.1.2 < b.1.2 \/ (a.1.2 = b.1.2 /\ a.2 < b.2))).

Definition key_le (a b : Z * Z * Z) : Prop :=
  a.1.1 < b.1.1 \/
  (a.1.1 = b.1.1 /\ (a.1.2 < b.1.2 \/ (a.1.2 = b.1.2 /\ a.2 <= b.2))).

Definition is_nan_SF (x : spec_float) : bool :=
  match x with S754_nan => true | _ => false end.

(** The analyzer as the specification words it (4.1, steps 1 to 5). *)

Definition min_date (txns : list Transaction.t) : Date :=
  match Transaction.date <$> txns with
  | [] => 0
  | d :: ds => foldr Z.min d ds
  end.

Definition max_date (txns : list Transaction.t) : Date :=
  match Transaction.date <$> txns with
  | [] => 0
  | d :: ds => foldr Z.max d ds
  end.

Definition on_date (d : Date) (t : Transaction.t) : bool :=
  Transaction.date t =? d.

(** Step 2: the balance of the last transaction on date [d], in the order
    of the sorted list. *)
Definition known_balance (sorted_txns : list Transaction.t) (d : Date) : option Z :=
  Transaction.balance_cents <$> last (List.filter (on_date d) sorted_txns).

(** Step 4: the most recent known balance at [d], looking back over at
    most [back] earlier days, and 0 when none of them has one. *)
Fixpoint carried_balance (known : Date -> option Z) (d : Date) (back : nat) : Z :=
  match known d with
  | Some b => b
  | None =>
      match back with
      | O => 0
      | S back' => carried_balance known (d - 1) back'
      end
  end.

Definition day_balance (txns : list Transaction.t) (d : Date) : Z :=
  carried_balance (known_balance (sorted_by_date txns)) d
                  (Z.to_nat (d - min_date txns)).

(** The balance of a day as the specification words it, read off the
    input: the known balance of a date is the balance of the last
    transaction of the list on that date. *)
Definition input_day_balance (txns : list Transaction.t) (d : Date) : Z :=
  carried_balance (known_balance txns) d (Z.to_nat (d - min_date txns)).

(** The largest quotient that still rounds to a float: a quotient of at
    least [2^1024 - 2^970] rounds beyond the largest float. *)
Definition overflow_threshold : Z := 2 ^ 1024 - 2 ^ 970.

(** The order [sorted] establishes. *)
Definition date_le (t u : Transaction.t) : Prop :=
  Transaction.date t <= Transaction.date u.

(** The claim on the failures of the analyzer, for one input. *)
Definition analyzer_failures (txns : list Transaction.t) : Prop :=
  (analyze_transactions txns = Raise InsufficientDataError <-> txns = []) /\
  (txns <> [] -> exists rf, analyze_transactions txns = Ok rf) /\
  (forall e, analyze_transactions txns = Raise e ->
             make_credit_decision txns = Raise e).

(** Sample transactions. *)
Definition sample_txn (d : Date) (amount : Z) (type : string) (balance : Z)
  : Transaction.t :=
  Transaction.mk "t" d amount type "" "" "" balance false.

(** The scorer as the specification words it (4.2): each component is
    capped at 1 and floored at 0 before it is weighted. *)
Definition floor0 (x : float) : float :=
  if (x <? 0)%float then 0%float else x.

Definition spec_risk_score (risk_factors : RiskFactors.t) : result float :=
  ratio ← Py.truediv (RiskFactors.avg_daily_balance_cents risk_factors) 100000;
  let balance := floor0 (Py.min ratio 1.0) in
  let income := floor0 (Py.min (RiskFactors.income_spend_ratio risk_factors) 1.0) in
  let nsf := nsf_score_of (RiskFactors.nsf_count risk_factors) in
  Ok (Py.round3 (0.4 * balance + 0.4 * income + 0.2 * nsf)%float).

(** The risk factors of the example of the specification, and those of an
    account that is 5 dollars overdrawn on its only day. *)
Definition low_risk_factors : RiskFactors.t :=
  RiskFactors.mk 150000 900000 600000 1.5 0 50 30.

Definition overdrawn_factors : RiskFactors.t :=
  RiskFactors.mk (-500) 0 100 0 1 1 1.

Definition overdrawn_txns : list Transaction.t :=
  [sample_txn 0 100 "debit" (-500)].

(** The fields of a transaction that the analyzer reads. *)
Definition financials (t : Transaction.t) : Date * Z * string * Z * bool :=
  (Transaction.date t, Transaction.amount_cents t, Transaction.type t,
   Transaction.balance_cents t, Transaction.nsf t).

(** * Binary64 rounding: definitions *)

Definition bpow (e : Z) : Q := (2 ^ e)%Q.

(** The value [v] lies at location [l] of the interval of the grid of step
    [2^e] that starts at [m * 2^e]. *)
Definition inbetween (m e : Z) (l : location) (v : Q) : Prop :=
  match l with
  | loc_Exact => (v == inject_Z m * bpow e)%Q
  | loc_Inexact Lt =>
      (inject_Z m * bpow e < v)%Q /\ (v < (inject_Z m + (1 # 2)) * bpow e)%Q
  | loc_Inexact Eq => (v == (inject_Z m + (1 # 2)) * bpow e)%Q
  | loc_Inexact Gt =>
      ((inject_Z m + (1 # 2)) * bpow e < v)%Q /\ (v < (inject_Z m + 1) * bpow e)%Q
  end.

(** [n] is the integer nearest to [v / 2^e], the even one at a tie. *)
Definition is_rne (v : Q) (e : Z) (n : Z) : Prop :=
  ((inject_Z n - (1 # 2)) * bpow e <= v)%Q /\
  (v <= (inject_Z n + (1 # 2)) * bpow e)%Q /\
  ((v == (inject_Z n - (1 # 2)) * bpow e)%Q \/
   (v == (inject_Z n + (1 # 2)) * bpow e)%Q -> Z.even n = true).

(** [e] is the exponent the format gives to the positive value [v]. *)
Definition cexp_of (v : Q) (e : Z) : Prop :=
  (exists d, (bpow (d - 1) <= v)%Q /\ (v < bpow d)%Q /\ e = fexp prec emax d) \/
  ((v < bpow (-1074))%Q /\ e = -1074).

(** A mantissa that rounding carried to [2^53] moves to the next exponent. *)
Definition normalize (m e : Z) : Z * Z :=
  if m =? 2 ^ 53 then (2 ^ 52, e + 1) else (m, e).

(** The float of sign [s], mantissa [M] and exponent [E], with overflow. *)
Definition SFfinal (s : bool) (M E : Z) : spec_float :=
  match M with
  | Z0 => S754_zero s
  | Zpos p => if E <=? emax - prec then S754_finite s p E else S754_infinity s
  | Zneg _ => S754_nan
  end.

(** The positive value [v] rounds to mantissa [M] at exponent [E]. *)
Definition rounds_to (v : Q) (M E : Z) : Prop :=
  exists e m, cexp_of v e /\ is_rne v e m /\ normalize m e = (M, E).

(** The value of a finite float (0 for the others). *)
Definition SF2Q (x : spec_float) : Q :=
  match x with
  | S754_finite s m e =>
      if s then (- (inject_Z (Zpos m) * bpow e))%Q else (inject_Z (Zpos m) * bpow e)%Q
  | _ => 0%Q
  end.

(** Finite or zero. *)
Definition is_finite_SF (x : spec_float) : bool :=
  match x with
  | S754_finite _ _ _ | S754_zero _ => true
  | _ => false
  end.

(** [r] is the float nearest to [v] (ties to even), infinite on overflow. *)
Definition SFrounds (v : Q) (r : spec_float) : Prop :=
  ((0 < v)%Q /\ exists M E, rounds_to v M E /\ r = SFfinal false M E) \/
  ((v < 0)%Q /\ exists M E, rounds_to (- v) M E /\ r = SFfinal true M E) \/
  ((v == 0)%Q /\ exists s, r = S754_zero s).

(** [round3] on specification floats, and the signed number of thousandths
    it goes through. *)
Definition SFround3 (x : spec_float) : spec_float :=
  match x with
  | S754_finite s m e =>
      match Py.scaled_thousandths m e with
      | Zpos n => SFdiv prec emax (S754_finite s n 0) (S754_finite false 1000 0)
      | _ => S754_zero s
      end
  | _ => x
  end.

Definition thousandths (x : spec_float) : Z :=
  match x with
  | S754_finite s m e =>
      match Py.scaled_thousandths m e with
      | Zpos n => if s then Zneg n else Zpos n
      | _ => 0
      end
  | _ => 0
  end.
(** * The callers: metrics, bank client and decision endpoint *)

(** ** Further readings of a delivery trace *)

(** The values of [attempt] of the posts, in order. *)
Fixpoint posts (trace : list Ledger.event) : list Z :=
  match trace with
  | [] => []
  | Ledger.Post attempt :: trace' => attempt :: posts trace'
  | _ :: trace' => posts trace'
  end.

Definition is_failure_inc (ev : Ledger.event) : bool :=
  match ev with Ledger.FailureInc => true | _ => false end.

(** The number of [webhook_failure_counter.inc()] calls. *)
Definition failure_incs (trace : list Ledger.event) : Z :=
  Py.len (List.filter is_failure_inc trace).

(** What a run of the retry loop from [attempt = a] leaves: the posts
    made, the failures counted, the sleeps and the way it ends. *)
Definition accounted (max_retries : Z) (backoff_base : float)
    (endpoint : nat -> Ledger.post_result) (a : Z)
    (run : list Ledger.event * Ledger.outcome) : Prop :=
  let '(trace, o) := run in
  let k := Ledger.attempts trace in
  o <> Ledger.OutOfFuel /\
  posts trace = seqZ a k /\
  0 <= k <= Z.max 0 (max_retries - a) /\
  (a < max_retries -> 1 <= k) /\
  failure_incs trace
  = k - (match o with Ledger.Returned => if k =? 0 then 0 else 1 | _ => 0 end) /\
  Py.len (Ledger.sleeps trace)
  = failure_incs trace - (match o with Ledger.Raised _ => 1 | _ => 0 end) /\
  (forall i, a <= i < a + failure_incs trace ->
     Ledger.fails (endpoint (Z.to_nat i))) /\
  (o = Ledger.Returned -> 0 < k ->
   Ledger.try_post (endpoint (Z.to_nat (a + k - 1))) = Ok tt) /\
  (forall e, o = Ledger.Raised e ->
     (a + k = max_retries /\
      Ledger.try_post (endpoint (Z.to_nat (a + k - 1))) = Raise e) \/
     (a + k < max_retries /\ e = OverflowError /\
      Ledger.backoff backoff_base (a + k) = Raise OverflowError)).

(** ** infrastructure/observability/metrics.py *)

Module Metrics.

(** A labelled [Counter], as the number of [inc()] calls per label value
    (a label that was never incremented has no entry). *)
Abbreviation counter := (gmap string Z) (only parsing).

(** [c.labels(label).inc()] *)
Definition inc (label : string) (c : counter) : counter :=
  <[label := default 0 (c !! label) + 1]> c.

Definition value (label : string) (c : counter) : Z := default 0 (c !! label).

(** [decision_counter] and [credit_limit_bucket_counter]. *)
Record t : Type := mk {
  decision_counter : counter;
  credit_limit_bucket_counter : counter
}.

(** The counters of a fresh process. *)
Definition initial : t := mk ∅ ∅.

(** The two labels [record_decision] computes. *)
Definition outcome_of (approved : bool) : string :=
  if approved then "approved" else "declined".

Definition bucket_of (credit_limit_cents : Z) : string :=
  if credit_limit_cents =? 0 then "$0"
  else if credit_limit_cents <=? 10000 then "$0-$100"
  else if credit_limit_cents <=? 40000 then "$100-$400"
  else "$400+".

Definition record_decision (approved : bool) (credit_limit_cents : Z) (m : t) : t :=
  let outcome := outcome_of approved in
  let decision_counter := inc outcome (decision_counter m) in
  let bucket := bucket_of credit_limit_cents in
  mk decision_counter (inc bucket (credit_limit_bucket_counter m)).

(** The counters after a sequence of decisions was recorded, each as the
    endpoint records it: [record_decision(decision.approved,
    decision.credit_limit_cents)]. *)
Definition record_decisions (decisions : list CreditDecision.t) (m : t) : t :=
  foldl (fun m d =>
           record_decision (CreditDecision.approved d)
             (CreditDecision.credit_limit_cents d) m)
        m decisions.

End Metrics.

(** ** Exceptions of the libraries *)

(** What a call into a library (httpx, SQLAlchemy, FastAPI, the
    Prometheus client, [logging]) raises when it does not return: an
    instance of [Exception], or an exception outside [Exception]
    ([asyncio.CancelledError], [KeyboardInterrupt], [SystemExit]).  The
    two exceptions the endpoint tells apart, [BankAPIError] and
    [InsufficientDataError], are classes of this repository, raised only
    in [clients/bank.py] and in [domain/scoring.py]: no library call
    raises them. *)
Inductive foreign_exception : Type :=
  | ForeignError
  | ForeignInterrupt.

(** ** infrastructure/clients/bank.py *)

Module Bank.

(** The exceptions that can end the [try] body, by the [except] clause
    that matches them: [client.get] times out; [raise_for_status]
    refuses the status; [response.json()], [data.get], the subscripts
    [txn[...]] and [date.fromisoformat] raise a [KeyError], a
    [ValueError] ([json.JSONDecodeError] is one) or a [TypeError]; or
    anything else, which no clause matches ([httpx.ConnectError], the
    [AttributeError] of [data.get] on a document that is not an
    object). *)
Inductive exception : Type :=
  | TimeoutException
  | HTTPStatusError
  | KeyError
  | ValueError
  | TypeError
  | Other (e : foreign_exception).

(** How the [try] body ends: with the list of the transactions of the
    document, its fields being of the types [Transaction] declares, or
    with an exception. *)
Inductive get_result : Type :=
  | Parsed (transactions : list Transaction.t)
  | Raised (e : exception).

(** The exceptions that leave [get_transactions]. *)
Inductive error : Type :=
  | BankAPIError            (* domain/exceptions.py *)
  | Uncaught (e : foreign_exception).

(** [get_transactions]: the [try] body, then the three [except] clauses
    ([httpx.TimeoutException], [httpx.HTTPStatusError], and
    [(KeyError, ValueError, TypeError)]). *)
Definition get_transactions (r : get_result) : error + list Transaction.t :=
  match r with
  | Parsed transactions => inr transactions
  | Raised TimeoutException => inl BankAPIError
  | Raised HTTPStatusError => inl BankAPIError
  | Raised (KeyError | ValueError | TypeError) => inl BankAPIError
  | Raised (Other e) => inl (Uncaught e)
  end.

End Bank.

(** ** api/v1/schemas.py and api/v1/decision.py *)

Module Api.

Record DecisionRequest : Type := mkRequest {
  user_id : string;
  amount_cents_requested : Z
}.

Record DecisionResponse : Type := mkResponse {
  approved : bool;
  credit_limit_cents : Z;
  amount_granted_cents : Z;
  plan_id : option string
}.

(** The payload of the ledger event. *)
Record ApprovalEvent : Type := mkEvent {
  event_decision_id : string;
  event_plan_id : string;
  event_user_id : string;
  event_amount_cents : Z
}.

(** The calls the handler makes on its collaborators: the two
    repositories (each adds its rows and flushes the session), the
    background tasks, the session, the metrics and the log.  The clock
    reading [duration_ms] of the log is left out. *)
Inductive effect : Type :=
  | CreateDecision (user_id : string) (requested_cents : Z)
      (decision : CreditDecision.t) (amount_granted_cents : Z)
  | CreatePlan (decision_id user_id : string) (total_cents : Z)
      (installments : list Installment.t)
  | AddTask (payload : ApprovalEvent)       (* ledger_client.send_approval_event *)
  | DbCommit
  | DbRollback
  | RecordDecision (approved : bool) (credit_limit_cents : Z)
  | LogDecision (request_id user_id : string) (approved : bool) (credit_limit_cents : Z)
  | BankFetchFailureInc
  | LogError
  | LogWarning.

(** How the handler ends: it returns the response, it raises an
    [HTTPException], or another exception leaves it. *)
Inductive http_result : Type :=
  | Respond (r : DecisionResponse)
  | HTTPException (status_code : Z) (detail : string)
  | Propagates (e : foreign_exception).

(** The exceptions the [try] block of the handler can see. *)
Inductive raised : Type :=
  | FromBank (e : Bank.error)
  | FromDomain (e : exn)
  | FromCall (e : foreign_exception).

(** A run of a part of the handler: the calls it made, in order (the
    last of them may be the one that raised), and the value it computed
    or the exception in flight. *)
Definition run (A : Type) : Type := (list effect * (raised + A))%type.

#[global] Instance run_ret : MRet run := fun A a => ([], inr a).
#[global] Instance run_bind : MBind run := fun A B f m =>
  match m with
  | (calls, inl e) => (calls, inl e)
  | (calls, inr a) => let '(calls', r) := f a in (calls ++ calls', r)
  end.

Definition of_bank {A} (r : Bank.error + A) : run A :=
  match r with
  | inl e => ([], inl (FromBank e))
  | inr a => ([], inr a)
  end.

Definition of_domain {A} (r : result A) : run A :=
  match r with
  | Raise e => ([], inl (FromDomain e))
  | Ok a => ([], inr a)
  end.

Section Handler.

(** What each call on a collaborator does: it returns ([None]) or
    raises.  A repository call raises, for one, when the database
    refuses a row (an amount outside the [BigInteger] column). *)
Variable outcome : effect -> option foreign_exception.

Definition call (c : effect) : run unit :=
  ([c], match outcome c with
        | None => inr tt
        | Some e => inl (FromCall e)
        end).

(** The body of the [try] block.  [today] is what [date.today()]
    returns, [request_id] the identifier the middleware stored,
    [decision_id] and [new_plan_id] the keys of the two rows, and [bank]
    how the request to the bank ends. *)
Definition try_block (today : Date) (request_id decision_id new_plan_id : string)
    (request_body : DecisionRequest) (bank : Bank.get_result)
  : run DecisionResponse :=
  transactions ← of_bank (Bank.get_transactions bank);
  decision ← of_domain (make_credit_decision transactions);
  let amount_granted :=
    if CreditDecision.approved decision
    then Z.min (amount_cents_requested request_body)
               (CreditDecision.credit_limit_cents decision)
    else 0 in
  _ ← call (CreateDecision (user_id request_body)
              (amount_cents_requested request_body) decision amount_granted);
  plan_id ←
    (if CreditDecision.approved decision && (0 <? amount_granted) then
       installments ←
         of_domain (generate_installment_plan today amount_granted
                      default_num_installments default_interval_days None);
       _ ← call (CreatePlan decision_id (user_id request_body) amount_granted
                   installments);
       _ ← call (AddTask (mkEvent decision_id new_plan_id (user_id request_body)
                            amount_granted));
       mret (Some new_plan_id)
     else mret None);
  _ ← call DbCommit;
  _ ← call (RecordDecision (CreditDecision.approved decision)
              (CreditDecision.credit_limit_cents decision));
  _ ← call (LogDecision request_id (user_id request_body)
              (CreditDecision.approved decision)
              (CreditDecision.credit_limit_cents decision));
  mret (mkResponse (CreditDecision.approved decision)
          (CreditDecision.credit_limit_cents decision) amount_granted plan_id).

(** The calls of an [except] clause, then its [raise HTTPException]; an
    exception of one of the calls leaves the handler instead. *)
Fixpoint cleanup (calls : list effect) (r : http_result) : list effect * http_result :=
  match calls with
  | [] => ([], r)
  | c :: calls' =>
      match outcome c with
      | None => let '(made, r') := cleanup calls' r in (c :: made, r')
      | Some e => ([c], Propagates e)
      end
  end.

(** The three [except] clauses: [BankAPIError], [InsufficientDataError]
    (whose message is the one [analyze_transactions] raises it with) and
    [Exception], which an exception outside [Exception] passes. *)
Definition handle (e : raised) : list effect * http_result :=
  match e with
  | FromBank Bank.BankAPIError =>
      cleanup [BankFetchFailureInc; DbRollback; LogError]
        (HTTPException 503 "Bank service unavailable")
  | FromDomain InsufficientDataError =>
      cleanup [DbRollback; LogWarning]
        (HTTPException 422 "No transaction history available")
  | FromBank (Bank.Uncaught ForeignInterrupt) | FromCall ForeignInterrupt =>
      ([], Propagates ForeignInterrupt)
  | _ =>
      cleanup [DbRollback; LogError] (HTTPException 500 "Internal server error")
  end.

(** [create_decision]: the calls made, in order, and how the handler
    ends. *)
Definition create_decision (today : Date) (request_id decision_id new_plan_id : string)
    (request_body : DecisionRequest) (bank : Bank.get_result)
  : list effect * http_result :=
  match try_block today request_id decision_id new_plan_id request_body bank with
  | (calls, inr response) => (calls, Respond response)
  | (calls, inl e) => let '(calls', r) := handle e in (calls ++ calls', r)
  end.

End Handler.

(** Reading the calls. *)
Definition is_commit (ev : effect) : bool :=
  match ev with DbCommit => true | _ => false end.

Definition is_rollback (ev : effect) : bool :=
  match ev with DbRollback => true | _ => false end.

Definition is_write (ev : effect) : bool :=
  match ev with
  | CreateDecision _ _ _ _ | CreatePlan _ _ _ _ | AddTask _ => true
  | _ => false
  end.

(** The collaborators on a day without failure. *)
Definition all_return : effect -> option foreign_exception := fun _ => None.

End Api.

(** * Properties *)

(** ** Comparisons of floats *)

Lemma SFcompare_key (x y : spec_float) :
  is_nan_SF x = false -> is_nan_SF y = false ->
  SFcompare x y = Some (lex3 (SFkey x) (SFkey y)).
Proof.
  destruct x as [sx|sx| |sx mx ex], y as [sy|sy| |sy my ey];
    intros Hx Hy; try discriminate; simpl;
    try (destruct sx; reflexivity); try (destruct sy; reflexivity);
    try (destruct sx, sy; reflexivity).
  destruct sx, sy; try reflexivity; f_equal; unfold lex3; simpl.
  rewrite Z.compare_opp, (Z.compare_antisym ey ex).
  destruct (ey ?= ex); reflexivity.
Qed.

Lemma lex3_lt (a b : Z * Z * Z) : lex3 a b = Lt <-> key_lt a b.
Proof.
  unfold lex3, key_lt.
  destruct (Z.compare_spec a.1.1 b.1.1), (Z.compare_spec a.1.2 b.1.2),
    (Z.compare_spec a.2 b.2); split; intros Hyp; try discriminate;
    try reflexivity; lia.
Qed.

Lemma lex3_le (a b : Z * Z * Z) : lex3 a b <> Gt <-> key_le a b.
Proof.
  unfold lex3, key_le.
  destruct (Z.compare_spec a.1.1 b.1.1), (Z.compare_spec a.1.2 b.1.2),
    (Z.compare_spec a.2 b.2); split; intros Hyp; try discriminate;
    try congruence; lia.
Qed.

Lemma SFltb_key (x y : spec_float) :
  SFltb x y = true <->
  is_nan_SF x = false /\ is_nan_SF y = false /\ key_lt (SFkey x) (SFkey y).
Proof.
  unfold SFltb.
  destruct (is_nan_SF x) eqn:Hx.
  { destruct x; try discriminate. simpl. split; [discriminate|]. intros [? _]. discriminate. }
  destruct (is_nan_SF y) eqn:Hy.
  { destruct y; try discriminate.
    replace (SFcompare x S754_nan) with (@None comparison) by (destruct x; reflexivity).
    split; [discriminate|]. intros (_ & ? & _). discriminate. }
  rewrite SFcompare_key, <- lex3_lt by assumption.
  destruct (lex3 (SFkey x) (SFkey y)); split; intros H;
    try discriminate; try reflexivity; try (destruct H as (_ & _ & H); discriminate).
  repeat split.
Qed.

Lemma SFleb_key (x y : spec_float) :
  SFleb x y = true <->
  is_nan_SF x = false /\ is_nan_SF y = false /\ key_le (SFkey x) (SFkey y).
Proof.
  unfold SFleb.
  destruct (is_nan_SF x) eqn:Hx.
  { destruct x; try discriminate. simpl. split; [discriminate|]. intros [? _]. discriminate. }
  destruct (is_nan_SF y) eqn:Hy.
  { destruct y; try discriminate.
    replace (SFcompare x S754_nan) with (@None comparison) by (destruct x; reflexivity).
    split; [discriminate|]. intros (_ & ? & _). discriminate. }
  rewrite SFcompare_key, <- lex3_le by assumption.
  destruct (lex3 (SFkey x) (SFkey y)); split; intros H;
    try discriminate; try reflexivity;
    try (destruct H as (_ & _ & H); congruence); repeat split; congruence.
Qed.

Lemma ltb_key (a b : float) :
  (a <? b)%float = true <->
  is_nan_SF (Prim2SF a) = false /\ is_nan_SF (Prim2SF b) = false /\
  key_lt (SFkey (Prim2SF a)) (SFkey (Prim2SF b)).
Proof. rewrite ltb_spec. apply SFltb_key. Qed.

Lemma leb_key (a b : float) :
  (a <=? b)%float = true <->
  is_nan_SF (Prim2SF a) = false /\ is_nan_SF (Prim2SF b) = false /\
  key_le (SFkey (Prim2SF a)) (SFkey (Prim2SF b)).
Proof. rewrite leb_spec. apply SFleb_key. Qed.

Lemma ltb_false_key (a b : float) :
  is_nan_SF (Prim2SF a) = false -> is_nan_SF (Prim2SF b) = false ->
  key_le (SFkey (Prim2SF b)) (SFkey (Prim2SF a)) -> (a <? b)%float = false.
Proof.
  intros Ha Hb Hle. destruct (a <? b)%float eqn:Hlt; [|reflexivity].
  apply ltb_key in Hlt. destruct Hlt as (_ & _ & Hlt).
  unfold key_lt, key_le in *. lia.
Qed.

(** Decides an order between the keys of two float constants. *)
Ltac key_compute :=
  repeat match goal with
    | |- context [SFkey (Prim2SF ?c)] =>
        let k := eval vm_compute in (SFkey (Prim2SF c)) in
        change (SFkey (Prim2SF c)) with k
    end;
  unfold key_le, key_lt; simpl; lia.

(** ** Powers of two and binary digits *)

Lemma bpow_pos (e : Z) : (0 < bpow e)%Q.
Proof. apply Qpower_0_lt. reflexivity. Qed.

Lemma bpow_add (a b : Z) : (bpow (a + b) == bpow a * bpow b)%Q.
Proof. apply Qpower_plus. discriminate. Qed.

Lemma bpow_succ (e : Z) : (bpow (e + 1) == 2 * bpow e)%Q.
Proof. rewrite bpow_add. unfold bpow at 2. simpl. lra. Qed.

Lemma bpow_lt (a b : Z) : a < b -> (bpow a < bpow b)%Q.
Proof. intros H. apply Qpower_lt_compat_l; [exact H|reflexivity]. Qed.

Lemma bpow_le (a b : Z) : a <= b -> (bpow a <= bpow b)%Q.
Proof. intros H. apply Qpower_le_compat_l; [exact H|discriminate]. Qed.

Lemma bpow_lt_inv (a b : Z) : (bpow a < bpow b)%Q -> a < b.
Proof. intros H. apply (Qpower_lt_compat_l_inv 2); [exact H|reflexivity]. Qed.

Lemma bpow_Z (n : Z) : 0 <= n -> (bpow n == inject_Z (2 ^ n))%Q.
Proof. intros H. unfold bpow. rewrite Zpower_Qpower by exact H. reflexivity. Qed.

Lemma digits2_pos_size (p : positive) : digits2_pos p = Pos.size p.
Proof. induction p; simpl; congruence. Qed.

Lemma digits_bounds (p : positive) :
  2 ^ (Zpos (digits2_pos p) - 1) <= Zpos p < 2 ^ Zpos (digits2_pos p).
Proof.
  rewrite digits2_pos_size. split.
  - pose proof (Pos.size_le p) as H.
    assert (H' : 2 ^ Zpos (Pos.size p) <= 2 * Zpos p).
    { rewrite <- Pos2Z.inj_pow. exact H. }
    replace (Zpos (Pos.size p)) with (Zpos (Pos.size p) - 1 + 1) in H' by lia.
    rewrite Z.pow_add_r in H' by lia. lia.
  - pose proof (Pos.size_gt p) as H. rewrite <- Pos2Z.inj_pow. exact H.
Qed.

Lemma Zdigits2_bounds (m : Z) :
  0 < m -> 2 ^ (Zdigits2 m - 1) <= m < 2 ^ Zdigits2 m.
Proof. destruct m as [|p|p]; try lia. intros _. apply digits_bounds. Qed.

Lemma Zdigits2_pos (m : Z) : 0 < m -> 0 < Zdigits2 m.
Proof. destruct m; simpl; lia. Qed.

Lemma Zdigits2_unique (m d : Z) :
  2 ^ (d - 1) <= m < 2 ^ d -> 0 < d -> Zdigits2 m = d.
Proof.
  intros [Hlo Hhi] Hd.
  assert (Hm : 0 < m) by (pose proof (Z.pow_pos_nonneg 2 (d - 1)); lia).
  pose proof (Zdigits2_bounds m Hm) as [Hlo' Hhi'].
  pose proof (Zdigits2_pos m Hm).
  destruct (Z.lt_trichotomy (Zdigits2 m) d) as [Hlt|[Heq|Hgt]]; [|exact Heq|].
  - assert (2 ^ Zdigits2 m <= 2 ^ (d - 1)) by (apply Z.pow_le_mono_r; lia). lia.
  - assert (2 ^ d <= 2 ^ (Zdigits2 m - 1)) by (apply Z.pow_le_mono_r; lia). lia.
Qed.

(** ** Locations and right shifts *)

Lemma inbetween_bounds (m e : Z) (l : location) (v : Q) :
  inbetween m e l v ->
  (inject_Z m * bpow e <= v)%Q /\ (v < (inject_Z m + 1) * bpow e)%Q.
Proof.
  pose proof (bpow_pos e). destruct l as [|[]]; simpl; intros H1; nra.
Qed.

Lemma loc_of_shr_record_of_loc (m : Z) (l : location) :
  loc_of_shr_record (shr_record_of_loc m l) = l.
Proof. destruct l as [|[]]; reflexivity. Qed.

Lemma shr_m_shr_record_of_loc (m : Z) (l : location) :
  shr_m (shr_record_of_loc m l) = m.
Proof. destruct l as [|[]]; reflexivity. Qed.

Lemma inject_Z_xO (p : positive) : (inject_Z (Zpos p~0) == 2 * inject_Z (Zpos p))%Q.
Proof. unfold Qeq, Qmult, inject_Z. simpl. lia. Qed.

Lemma inject_Z_xI (p : positive) : (inject_Z (Zpos p~1) == 2 * inject_Z (Zpos p) + 1)%Q.
Proof. unfold Qeq, Qmult, Qplus, inject_Z. simpl. lia. Qed.

Lemma shr_1_inbetween (mrs : shr_record) (e : Z) (v : Q) :
  0 <= shr_m mrs ->
  inbetween (shr_m mrs) e (loc_of_shr_record mrs) v ->
  0 <= shr_m (shr_1 mrs) /\
  inbetween (shr_m (shr_1 mrs)) (e + 1) (loc_of_shr_record (shr_1 mrs)) v.
Proof.
  destruct mrs as [m r s]. simpl shr_m at 1 2. intros Hm.
  pose proof (bpow_pos e) as Hb. pose proof (bpow_succ e) as Hs.
  destruct m as [|p|p]; [| |lia].
  - destruct r, s; simpl; rewrite ?Hs; change (inject_Z 0) with 0%Q;
      intros H; (split; [lia|]); lra.
  - destruct p as [q|q|]; destruct r, s; simpl; rewrite ?Hs;
      rewrite ?inject_Z_xO, ?inject_Z_xI;
      change (inject_Z 1) with 1%Q; change (inject_Z 0) with 0%Q;
      intros H; (split; [lia|]); lra.
Qed.

Lemma iter_shr_1_inbetween (p : positive) (mrs : shr_record) (e : Z) (v : Q) :
  0 <= shr_m mrs ->
  inbetween (shr_m mrs) e (loc_of_shr_record mrs) v ->
  0 <= shr_m (SpecFloat.iter_pos shr_1 p mrs) /\
  inbetween (shr_m (SpecFloat.iter_pos shr_1 p mrs)) (e + Zpos p)
            (loc_of_shr_record (SpecFloat.iter_pos shr_1 p mrs)) v.
Proof.
  revert mrs e. induction p as [p IH|p IH|]; intros mrs e Hm Hv; simpl.
  - destruct (shr_1_inbetween mrs e v Hm Hv) as [Hm1 Hv1].
    destruct (IH _ _ Hm1 Hv1) as [Hm2 Hv2].
    destruct (IH _ _ Hm2 Hv2) as [Hm3 Hv3].
    split; [exact Hm3|].
    replace (e + Zpos p~1) with (e + 1 + Zpos p + Zpos p) by lia. exact Hv3.
  - destruct (IH _ _ Hm Hv) as [Hm2 Hv2].
    destruct (IH _ _ Hm2 Hv2) as [Hm3 Hv3].
    split; [exact Hm3|].
    replace (e + Zpos p~0) with (e + Zpos p + Zpos p) by lia. exact Hv3.
  - apply shr_1_inbetween; assumption.
Qed.

(** The shift to the exponent of the format keeps the location. *)
Lemma shr_fexp_inbetween (m e : Z) (l : location) (v : Q) :
  0 <= m ->
  e <= fexp prec emax (Zdigits2 m + e) ->
  inbetween m e l v ->
  exists m' l',
    shr_fexp prec emax m e l
    = (shr_record_of_loc m' l', fexp prec emax (Zdigits2 m + e)) /\
    0 <= m' /\ inbetween m' (fexp prec emax (Zdigits2 m + e)) l' v.
Proof.
  intros Hm He Hv. unfold shr_fexp, shr.
  destruct (fexp prec emax (Zdigits2 m + e) - e) as [|p|p] eqn:Hn; [| |lia].
  - exists m, l. replace (fexp prec emax (Zdigits2 m + e)) with e by lia.
    split; [reflexivity|]. split; assumption.
  - destruct (iter_shr_1_inbetween p (shr_record_of_loc m l) e v) as [Hm' Hv'].
    + rewrite shr_m_shr_record_of_loc. exact Hm.
    + rewrite shr_m_shr_record_of_loc, loc_of_shr_record_of_loc. exact Hv.
    + exists (shr_m (SpecFloat.iter_pos shr_1 p (shr_record_of_loc m l))),
             (loc_of_shr_record (SpecFloat.iter_pos shr_1 p (shr_record_of_loc m l))).
      replace (fexp prec emax (Zdigits2 m + e)) with (e + Zpos p) by lia.
      split; [|split; assumption].
      f_equal. destruct (SpecFloat.iter_pos shr_1 p (shr_record_of_loc m l)) as [m' [] []];
        reflexivity.
Qed.

(** ** Rounding to nearest, ties to even *)

Lemma fexp_eq (d : Z) : fexp prec emax d = Z.max (d - 53) (-1074).
Proof. reflexivity. Qed.

Lemma round_nearest_even_rne (m e : Z) (l : location) (v : Q) :
  inbetween m e l v -> is_rne v e (round_nearest_even m l).
Proof.
  pose proof (bpow_pos e) as Hb. unfold is_rne.
  destruct l as [|[]]; simpl; intros H.
  - split; [lra|]. split; [lra|]. intros [H'|H']; lra.
  - destruct (Z.even m) eqn:Hev.
    + split; [lra|]. split; [lra|]. intros _. exact Hev.
    + rewrite inject_Z_plus. change (inject_Z 1) with 1%Q.
      split; [lra|]. split; [lra|]. intros _.
      rewrite Z.even_add, Hev. reflexivity.
  - split; [lra|]. split; [lra|]. intros [H'|H']; lra.
  - rewrite inject_Z_plus. change (inject_Z 1) with 1%Q.
    split; [lra|]. split; [lra|]. intros [H'|H']; lra.
Qed.

Lemma inject_Z_pow2_bpow (n : Z) : 0 <= n -> (inject_Z (2 ^ n) == bpow n)%Q.
Proof. intros H. symmetry. apply bpow_Z, H. Qed.

(** The integer nearest to a value lies within the integer bounds of the value. *)
Lemma is_rne_lower (v : Q) (e n k : Z) :
  is_rne v e n -> (inject_Z k * bpow e <= v)%Q -> k <= n.
Proof.
  intros (H1 & H2 & _) Hk. pose proof (bpow_pos e) as Hb.
  destruct (Z.le_gt_cases k n) as [Hle|Hgt]; [exact Hle|exfalso].
  assert (Hq : (inject_Z n + 1 <= inject_Z k)%Q).
  { change 1%Q with (inject_Z 1). rewrite <- inject_Z_plus, <- Zle_Qle. lia. }
  nra.
Qed.

Lemma is_rne_upper (v : Q) (e n k : Z) :
  is_rne v e n -> (v <= inject_Z k * bpow e)%Q -> n <= k.
Proof.
  intros (H1 & H2 & _) Hk. pose proof (bpow_pos e) as Hb.
  destruct (Z.le_gt_cases n k) as [Hle|Hgt]; [exact Hle|exfalso].
  assert (Hq : (inject_Z k + 1 <= inject_Z n)%Q).
  { change 1%Q with (inject_Z 1). rewrite <- inject_Z_plus, <- Zle_Qle. lia. }
  nra.
Qed.

Lemma is_rne_mono (v1 v2 : Q) (e n1 n2 : Z) :
  (v1 <= v2)%Q -> is_rne v1 e n1 -> is_rne v2 e n2 -> n1 <= n2.
Proof.
  intros Hv (L1 & U1 & T1) (L2 & U2 & T2). pose proof (bpow_pos e) as Hb.
  destruct (Z.le_gt_cases n1 n2) as [Hle|Hgt]; [exact Hle|exfalso].
  assert (Hq : (inject_Z n2 + 1 <= inject_Z n1)%Q).
  { change 1%Q with (inject_Z 1). rewrite <- inject_Z_plus, <- Zle_Qle. lia. }
  assert (E1 : (v1 == (inject_Z n1 - (1 # 2)) * bpow e)%Q) by nra.
  assert (E2 : (v2 == (inject_Z n2 + (1 # 2)) * bpow e)%Q) by nra.
  assert (Hn : (inject_Z n1 == inject_Z n2 + 1)%Q) by nra.
  assert (Hn' : n1 = n2 + 1).
  { apply inject_Z_injective. rewrite inject_Z_plus. exact Hn. }
  specialize (T1 (or_introl E1)). specialize (T2 (or_intror E2)).
  rewrite Hn', Z.even_add, T2 in T1. discriminate.
Qed.

Lemma cexp_of_ge (v : Q) (e : Z) : cexp_of v e -> -1074 <= e.
Proof. intros [(d & _ & _ & ->)|[_ ->]]; [rewrite fexp_eq|]; lia. Qed.

Lemma cexp_of_upper (v : Q) (e : Z) : cexp_of v e -> (v < bpow (e + 53))%Q.
Proof.
  intros [(d & _ & Hd & ->)|[Hv ->]].
  - eapply Qlt_le_trans; [exact Hd|]. apply bpow_le. rewrite fexp_eq. lia.
  - eapply Qlt_le_trans; [exact Hv|]. apply bpow_le. lia.
Qed.

Lemma cexp_of_lower (v : Q) (e : Z) :
  cexp_of v e -> -1074 < e -> (bpow (e + 52) <= v)%Q.
Proof.
  intros [(d & Hd & _ & ->)|[_ ->]] He; [|lia].
  rewrite fexp_eq in *. replace (Z.max (d - 53) (-1074) + 52) with (d - 1) by lia.
  exact Hd.
Qed.

Lemma cexp_of_mono (v1 v2 : Q) (e1 e2 : Z) :
  (0 < v1)%Q -> (v1 <= v2)%Q -> cexp_of v1 e1 -> cexp_of v2 e2 -> e1 <= e2.
Proof.
  intros Hpos Hv [(d1 & L1 & U1 & ->)|[S1 ->]] H2.
  - destruct H2 as [(d2 & L2 & U2 & ->)|[S2 ->]].
    + assert (d1 - 1 < d2) by (apply bpow_lt_inv; lra).
      rewrite !fexp_eq. lia.
    + assert (d1 - 1 < -1074) by (apply bpow_lt_inv; lra).
      rewrite fexp_eq. lia.
  - apply cexp_of_ge in H2. exact H2.
Qed.

Lemma rne_bounds (v : Q) (e n : Z) :
  (0 < v)%Q -> cexp_of v e -> is_rne v e n ->
  0 <= n <= 2 ^ 53 /\ (-1074 < e -> 2 ^ 52 <= n).
Proof.
  intros Hpos He Hn. pose proof (bpow_pos e) as Hb.
  split; [split|].
  - apply (is_rne_lower v e n 0 Hn). change (inject_Z 0) with 0%Q. lra.
  - apply (is_rne_upper v e n (2 ^ 53) Hn).
    rewrite inject_Z_pow2_bpow, <- bpow_add by lia.
    rewrite Z.add_comm. apply Qlt_le_weak, cexp_of_upper, He.
  - intros Hnorm. apply (is_rne_lower v e n (2 ^ 52) Hn).
    rewrite inject_Z_pow2_bpow, <- bpow_add by lia.
    rewrite Z.add_comm. apply cexp_of_lower; assumption.
Qed.

(** The second shift of [binary_round_aux] only handles the carry. *)
Lemma shr_fexp_normalize (m e : Z) :
  0 <= m <= 2 ^ 53 -> -1074 <= e -> (-1074 < e -> 2 ^ 52 <= m) ->
  shr_fexp prec emax m e loc_Exact
  = (shr_record_of_loc (normalize m e).1 loc_Exact, (normalize m e).2).
Proof.
  intros Hm He Hnorm. unfold normalize.
  destruct (Z.eqb_spec m (2 ^ 53)) as [->|Hne].
  - unfold shr_fexp. change (Zdigits2 (2 ^ 53)) with 54. rewrite fexp_eq.
    replace (Z.max (54 + e - 53) (-1074) - e) with 1 by lia. reflexivity.
  - unfold shr_fexp, shr. rewrite fexp_eq.
    assert (Hd : Zdigits2 m <= 53).
    { destruct (Z.eq_dec m 0) as [->|Hm0]; [simpl; lia|].
      pose proof (Zdigits2_bounds m ltac:(lia)) as [Hlo _].
      destruct (Z.le_gt_cases (Zdigits2 m) 53) as [Hle|Hgt]; [exact Hle|].
      assert (2 ^ 53 <= 2 ^ (Zdigits2 m - 1)) by (apply Z.pow_le_mono_r; lia). lia. }
    destruct (Z.max (Zdigits2 m + e - 53) (-1074) - e) eqn:Hn; try reflexivity. lia.
Qed.

Lemma normalize_canonical (m e : Z) :
  0 < m <= 2 ^ 53 -> -1074 <= e -> (-1074 < e -> 2 ^ 52 <= m) ->
  let '(M, E) := normalize m e in
  0 < M < 2 ^ 53 /\ fexp prec emax (Zdigits2 M + E) = E.
Proof.
  intros Hm He Hnorm. unfold normalize.
  destruct (Z.eqb_spec m (2 ^ 53)) as [->|Hne].
  - split; [lia|]. change (Zdigits2 (2 ^ 52)) with 53. rewrite fexp_eq. lia.
  - split; [lia|]. rewrite fexp_eq.
    pose proof (Zdigits2_bounds m ltac:(lia)) as [Hlo Hhi].
    pose proof (Zdigits2_pos m ltac:(lia)).
    assert (Hd : Zdigits2 m <= 53).
    { destruct (Z.le_gt_cases (Zdigits2 m) 53) as [Hle|Hgt]; [exact Hle|].
      assert (2 ^ 53 <= 2 ^ (Zdigits2 m - 1)) by (apply Z.pow_le_mono_r; lia). lia. }
    destruct (Z.le_gt_cases e (-1074)) as [Hsub|Hn]; [lia|].
    specialize (Hnorm Hn).
    assert (53 <= Zdigits2 m); [|lia].
    destruct (Z.le_gt_cases 53 (Zdigits2 m)) as [Hle|Hgt]; [exact Hle|].
    assert (2 ^ Zdigits2 m <= 2 ^ 52) by (apply Z.pow_le_mono_r; lia). lia.
Qed.

(** The value of an interval of the grid determines the exponent. *)
Lemma inbetween_cexp (m e : Z) (l : location) (v : Q) :
  0 <= m -> e <= fexp prec emax (Zdigits2 m + e) -> inbetween m e l v ->
  cexp_of v (fexp prec emax (Zdigits2 m + e)).
Proof.
  intros Hm He Hv. apply inbetween_bounds in Hv. destruct Hv as [Hlo Hhi].
  pose proof (bpow_pos e) as Hb.
  destruct (Z.eq_dec m 0) as [->|Hm0].
  - right. change (Zdigits2 0) with 0 in *. rewrite fexp_eq in *. split; [|lia].
    change (inject_Z 0) with 0%Q in Hhi.
    assert (bpow e <= bpow (-1074))%Q by (apply bpow_le; lia). lra.
  - left. exists (Zdigits2 m + e).
    pose proof (Zdigits2_bounds m ltac:(lia)) as [Hdlo Hdhi].
    pose proof (Zdigits2_pos m ltac:(lia)) as Hdpos.
    split; [|split; [|reflexivity]].
    + replace (Zdigits2 m + e - 1) with ((Zdigits2 m - 1) + e) by lia.
      rewrite bpow_add, <- inject_Z_pow2_bpow by lia.
      rewrite Zle_Qle in Hdlo. nra.
    + rewrite bpow_add, <- inject_Z_pow2_bpow by lia.
      assert (Hq : (inject_Z m + 1 <= inject_Z (2 ^ Zdigits2 m))%Q).
      { change 1%Q with (inject_Z 1). rewrite <- inject_Z_plus, <- Zle_Qle. lia. }
      nra.
Qed.

(** The specification of [binary_round_aux], for a positive value. *)
Lemma binary_round_aux_spec (sx : bool) (mx ex : Z) (lx : location) (v : Q) :
  0 <= mx -> (0 < v)%Q ->
  ex <= fexp prec emax (Zdigits2 mx + ex) ->
  inbetween mx ex lx v ->
  exists M E, rounds_to v M E /\
              binary_round_aux prec emax sx mx ex lx = SFfinal sx M E.
Proof.
  intros Hm Hpos He Hv.
  pose proof (inbetween_cexp _ _ _ _ Hm He Hv) as Hc.
  destruct (shr_fexp_inbetween _ _ _ _ Hm He Hv) as (m' & l' & Hshr & Hm' & Hv').
  pose proof (round_nearest_even_rne _ _ _ _ Hv') as Hrne.
  set (e' := fexp prec emax (Zdigits2 mx + ex)) in *.
  set (m1 := round_nearest_even m' l') in *.
  destruct (rne_bounds v e' m1 Hpos Hc Hrne) as [Hb1 Hb2].
  pose proof (cexp_of_ge _ _ Hc) as Hge.
  exists (normalize m1 e').1, (normalize m1 e').2. split.
  - exists e', m1. split; [exact Hc|]. split; [exact Hrne|].
    destruct (normalize m1 e'); reflexivity.
  - unfold binary_round_aux. rewrite Hshr.
    rewrite shr_m_shr_record_of_loc, loc_of_shr_record_of_loc.
    fold m1. rewrite (shr_fexp_normalize m1 e' Hb1 Hge Hb2).
    rewrite shr_m_shr_record_of_loc. reflexivity.
Qed.

(** ** Rounded values and their order *)

Lemma rounds_to_facts (v : Q) (M E : Z) :
  (0 < v)%Q -> rounds_to v M E ->
  0 <= M < 2 ^ 53 /\ -1074 <= E /\
  (0 < M -> fexp prec emax (Zdigits2 M + E) = E).
Proof.
  intros Hpos (e & m & Hc & Hr & Hn).
  destruct (rne_bounds v e m Hpos Hc Hr) as [Hb1 Hb2].
  pose proof (cexp_of_ge _ _ Hc) as Hge.
  destruct (Z.eq_dec m 0) as [->|Hm0].
  - unfold normalize in Hn. simpl in Hn. inversion Hn; subst. lia.
  - pose proof (normalize_canonical m e ltac:(lia) Hge Hb2) as Hcan.
    rewrite Hn in Hcan. destruct Hcan as [H1 H2].
    unfold normalize in Hn. destruct (m =? 2 ^ 53); inversion Hn; subst; lia.
Qed.

Lemma rounds_to_mono (v1 v2 : Q) (M1 E1 M2 E2 : Z) :
  (0 < v1)%Q -> (v1 <= v2)%Q -> rounds_to v1 M1 E1 -> rounds_to v2 M2 E2 ->
  M1 = 0 \/ (0 < M2 /\ (E1 < E2 \/ (E1 = E2 /\ M1 <= M2))).
Proof.
  intros Hpos Hv (e1 & m1 & Hc1 & Hr1 & Hn1) (e2 & m2 & Hc2 & Hr2 & Hn2).
  assert (Hpos2 : (0 < v2)%Q) by lra.
  destruct (rne_bounds v1 e1 m1 Hpos Hc1 Hr1) as [Hb1 Hb1'].
  destruct (rne_bounds v2 e2 m2 Hpos2 Hc2 Hr2) as [Hb2 Hb2'].
  pose proof (cexp_of_mono v1 v2 e1 e2 Hpos Hv Hc1 Hc2) as He.
  pose proof (cexp_of_ge _ _ Hc1) as Hge.
  assert (Hm : e1 = e2 -> m1 <= m2).
  { intros ->. apply (is_rne_mono v1 v2 e2); assumption. }
  unfold normalize in Hn1, Hn2.
  change (2 ^ 53) with 9007199254740992 in *.
  change (2 ^ 52) with 4503599627370496 in *.
  destruct (Z.eqb_spec m1 9007199254740992), (Z.eqb_spec m2 9007199254740992);
    inversion Hn1; inversion Hn2; subst; lia.
Qed.

Lemma SFfinal_key (s : bool) (M E : Z) :
  0 <= M ->
  is_nan_SF (SFfinal s M E) = false /\
  (if s then key_le (SFkey (SFfinal s M E)) (0, 0, 0)
   else key_le (0, 0, 0) (SFkey (SFfinal s M E))).
Proof.
  intros HM. unfold SFfinal. destruct M as [|p|p]; [| |lia].
  - split; [reflexivity|]. destruct s; unfold key_le; simpl; lia.
  - destruct (E <=? emax - prec); (split; [reflexivity|]);
      destruct s; unfold key_le; simpl; lia.
Qed.

Lemma SFfinal_mono (M1 E1 M2 E2 : Z) :
  0 <= M1 -> 0 <= M2 ->
  M1 = 0 \/ (0 < M2 /\ (E1 < E2 \/ (E1 = E2 /\ M1 <= M2))) ->
  SFleb (SFfinal false M1 E1) (SFfinal false M2 E2) = true /\
  SFleb (SFfinal true M2 E2) (SFfinal true M1 E1) = true.
Proof.
  intros H1 H2 Hlex.
  destruct (SFfinal_key false M1 E1 H1) as [N1 K1].
  destruct (SFfinal_key false M2 E2 H2) as [N2 K2].
  destruct (SFfinal_key true M1 E1 H1) as [N1' K1'].
  destruct (SFfinal_key true M2 E2 H2) as [N2' K2'].
  rewrite !SFleb_key. split; (split; [assumption|split; [assumption|]]).
  - clear K1' K2'. unfold SFfinal in *.
    destruct M1 as [|p1|p1]; [exact K2| |lia]. destruct M2 as [|p2|p2]; [lia| |lia].
    destruct (Z.leb_spec E1 (emax - prec)), (Z.leb_spec E2 (emax - prec));
      unfold key_le; simpl; lia.
  - clear K1 K2. unfold SFfinal in *.
    destruct M1 as [|p1|p1]; [exact K2'| |lia]. destruct M2 as [|p2|p2]; [lia| |lia].
    destruct (Z.leb_spec E1 (emax - prec)), (Z.leb_spec E2 (emax - prec));
      unfold key_le; simpl; lia.
Qed.

Lemma SFrounds_not_nan (v : Q) (r : spec_float) :
  SFrounds v r -> is_nan_SF r = false.
Proof.
  intros [(Hv & M & E & Hr & ->)|[(Hv & M & E & Hr & ->)|(Hv & s & ->)]];
    [| |reflexivity].
  - apply SFfinal_key. apply (rounds_to_facts _ _ _ Hv Hr).
  - apply SFfinal_key. apply (rounds_to_facts (- v) M E); [lra|exact Hr].
Qed.

Lemma SFrounds_sign (v : Q) (r : spec_float) :
  SFrounds v r ->
  ((0 <= v)%Q -> key_le (0, 0, 0) (SFkey r)) /\
  ((v <= 0)%Q -> key_le (SFkey r) (0, 0, 0)).
Proof.
  intros [(Hv & M & E & Hr & ->)|[(Hv & M & E & Hr & ->)|(Hv & s & ->)]].
  - split; [intros _|intros; lra].
    apply (SFfinal_key false). apply (rounds_to_facts _ _ _ Hv Hr).
  - split; [intros; lra|intros _].
    apply (SFfinal_key true). apply (rounds_to_facts (- v) M E); [lra|exact Hr].
  - split; intros _; unfold key_le; simpl; lia.
Qed.

(** Rounding is monotone. *)
Lemma SFrounds_mono (v1 v2 : Q) (r1 r2 : spec_float) :
  (v1 <= v2)%Q -> SFrounds v1 r1 -> SFrounds v2 r2 -> SFleb r1 r2 = true.
Proof.
  intros Hv H1 H2.
  pose proof (SFrounds_not_nan _ _ H1) as N1.
  pose proof (SFrounds_not_nan _ _ H2) as N2.
  destruct (Qlt_le_dec 0 v1) as [Hp1|Hn1].
  - (* both positive *)
    destruct H1 as [(_ & M1 & E1 & R1 & ->)|[(Hv1 & _)|(Hv1 & _)]]; [|lra|lra].
    destruct H2 as [(_ & M2 & E2 & R2 & ->)|[(Hv2 & _)|(Hv2 & _)]]; [|lra|lra].
    apply SFfinal_mono.
    + apply (rounds_to_facts _ _ _ Hp1 R1).
    + apply (rounds_to_facts v2 M2 E2); [lra|exact R2].
    + apply (rounds_to_mono v1 v2); assumption.
  - destruct (Qlt_le_dec v2 0) as [Hn2|Hp2].
    + (* both negative *)
      destruct H1 as [(Hv1 & _)|[(Hv1 & M1 & E1 & R1 & ->)|(Hv1 & _)]]; [lra| |lra].
      destruct H2 as [(Hv2 & _)|[(Hv2 & M2 & E2 & R2 & ->)|(Hv2 & _)]]; [lra| |lra].
      apply SFfinal_mono.
      * apply (rounds_to_facts (- v2) M2 E2); [lra|exact R2].
      * apply (rounds_to_facts (- v1) M1 E1); [lra|exact R1].
      * apply (rounds_to_mono (- v2) (- v1)); try assumption; lra.
    + (* v1 <= 0 <= v2 *)
      apply SFleb_key. split; [exact N1|]. split; [exact N2|].
      pose proof (proj2 (SFrounds_sign _ _ H1) Hn1) as K1.
      pose proof (proj1 (SFrounds_sign _ _ H2) Hp2) as K2.
      unfold key_le in *. simpl in *. lia.
Qed.

Lemma SFrounds_valid (v : Q) (r : spec_float) :
  SFrounds v r -> valid_binary r = true.
Proof.
  assert (Hfinal : forall s w M E, (0 < w)%Q -> rounds_to w M E ->
            valid_binary (SFfinal s M E) = true).
  { intros s w M E Hw Hr. destruct (rounds_to_facts _ _ _ Hw Hr) as (HM & HE & Hcan).
    unfold SFfinal. destruct M as [|p|p]; [reflexivity| |lia].
    destruct (Z.leb_spec E (emax - prec)) as [Hle|Hgt]; [|reflexivity].
    simpl. unfold bounded, canonical_mantissa.
    specialize (Hcan ltac:(lia)). simpl in Hcan. rewrite Hcan, Z.eqb_refl.
    apply Z.leb_le in Hle. rewrite Hle. reflexivity. }
  intros [(Hv & M & E & Hr & ->)|[(Hv & M & E & Hr & ->)|(Hv & s & ->)]];
    [| |reflexivity].
  - apply (Hfinal false v); assumption.
  - apply (Hfinal true (- v)%Q); [lra|assumption].
Qed.

Lemma rounds_to_ext (a b : Q) (M E : Z) :
  (a == b)%Q -> rounds_to a M E -> rounds_to b M E.
Proof.
  intros Hab (e & m & Hc & Hr & Hn). exists e, m. split; [|split; [|exact Hn]].
  - destruct Hc as [(d & L & U & ->)|[S ->]].
    + left. exists d. rewrite <- Hab. auto.
    + right. rewrite <- Hab. auto.
  - unfold is_rne in *. rewrite <- Hab. exact Hr.
Qed.

Lemma SFrounds_ext (v w : Q) (r : spec_float) :
  (v == w)%Q -> SFrounds v r -> SFrounds w r.
Proof.
  intros Hvw [(Hv & M & E & Hr & ->)|[(Hv & M & E & Hr & ->)|(Hv & s & ->)]].
  - left. split; [lra|]. exists M, E. split; [|reflexivity].
    apply (rounds_to_ext v); assumption.
  - right; left. split; [lra|]. exists M, E. split; [|reflexivity].
    apply (rounds_to_ext (- v)%Q); [lra|assumption].
  - right; right. split; [lra|]. exists s. reflexivity.
Qed.

(** ** Valid floats *)

Lemma valid_finite_facts (s : bool) (m : positive) (e : Z) :
  valid_binary (S754_finite s m e) = true ->
  fexp prec emax (Zdigits2 (Zpos m) + e) = e /\ e <= emax - prec /\
  Zpos m < 2 ^ 53 /\ -1074 <= e.
Proof.
  simpl. unfold bounded, canonical_mantissa. intros H.
  apply andb_true_iff in H. destruct H as [Hc Hb].
  apply Z.eqb_eq in Hc. apply Z.leb_le in Hb. simpl in Hc.
  split; [exact Hc|]. split; [exact Hb|].
  rewrite fexp_eq in Hc. split; [|lia].
  pose proof (digits_bounds m) as [_ Hhi].
  assert (2 ^ Zpos (digits2_pos m) <= 2 ^ 53) by (apply Z.pow_le_mono_r; lia).
  lia.
Qed.

Lemma abs_rounds_self (m : positive) (e : Z) :
  fexp prec emax (Zdigits2 (Zpos m) + e) = e -> Zpos m < 2 ^ 53 ->
  rounds_to (inject_Z (Zpos m) * bpow e) (Zpos m) e.
Proof.
  intros Hc Hm. exists e, (Zpos m). split; [|split].
  - rewrite <- Hc at 2. apply (inbetween_cexp (Zpos m) e loc_Exact); [lia|lia|].
    simpl. reflexivity.
  - apply (round_nearest_even_rne (Zpos m) e loc_Exact). simpl. reflexivity.
  - unfold normalize. destruct (Z.eqb_spec (Zpos m) (2 ^ 53)); [lia|reflexivity].
Qed.

Lemma F2Q_pos (m : positive) (e : Z) : (0 < inject_Z (Zpos m) * bpow e)%Q.
Proof.
  pose proof (bpow_pos e).
  assert (0 < inject_Z (Zpos m))%Q by (change 0%Q with (inject_Z 0); rewrite <- Zlt_Qlt; lia).
  nra.
Qed.

(** A valid finite float is the rounding of its own value. *)
Lemma valid_rounds_self (x : spec_float) :
  valid_binary x = true -> is_finite_SF x = true -> SFrounds (SF2Q x) x.
Proof.
  destruct x as [s|s| |s m e]; try discriminate; intros Hv _.
  - right; right. split; [reflexivity|]. exists s. reflexivity.
  - destruct (valid_finite_facts s m e Hv) as (Hc & Hb & Hm & He).
    pose proof (F2Q_pos m e) as Hpos.
    pose proof (abs_rounds_self m e Hc Hm) as Hr.
    assert (Hfin : forall s', SFfinal s' (Zpos m) e = S754_finite s' m e).
    { intros s'. unfold SFfinal. rewrite (proj2 (Z.leb_le _ _) Hb). reflexivity. }
    destruct s; simpl.
    + right; left. split; [lra|]. exists (Zpos m), e. split; [|symmetry; apply Hfin].
      apply (rounds_to_ext (inject_Z (Zpos m) * bpow e)%Q); [lra|exact Hr].
    + left. split; [exact Hpos|]. exists (Zpos m), e. split; [exact Hr|symmetry; apply Hfin].
Qed.

Lemma SFleb_value (x y : spec_float) :
  valid_binary x = true -> valid_binary y = true ->
  is_finite_SF x = true -> is_finite_SF y = true ->
  SFleb x y = true -> (SF2Q x <= SF2Q y)%Q.
Proof.
  intros Vx Vy Fx Fy Hle.
  destruct (Qlt_le_dec (SF2Q y) (SF2Q x)) as [Hlt|Hge]; [exfalso|exact Hge].
  pose proof (SFrounds_mono _ _ _ _ (Qlt_le_weak _ _ Hlt)
                (valid_rounds_self y Vy Fy) (valid_rounds_self x Vx Fx)) as Hle'.
  apply SFleb_key in Hle, Hle'.
  destruct Hle as (_ & _ & K1), Hle' as (_ & _ & K2).
  assert (HK : SFkey x = SFkey y).
  { destruct (SFkey x) as [[a b] c], (SFkey y) as [[a' b'] c'].
    unfold key_le in *. simpl in *. f_equal; [f_equal|]; lia. }
  destruct x as [sx|sx| |sx mx ex], y as [sy|sy| |sy my ey]; try discriminate;
    simpl in Hlt; try lra.
  - destruct sy; discriminate HK.
  - destruct sx; discriminate HK.
  - destruct sx, sy; simpl in HK; inversion HK; subst;
      try (assert (ex = ey) by lia; subst); lra.
Qed.

(** ** Alignment and normalisation *)

Lemma Pos_iter_xO (d m : positive) : Zpos (Pos.iter xO m d) = Zpos m * 2 ^ Zpos d.
Proof.
  induction d as [|d IH] using Pos.peano_ind.
  - simpl. lia.
  - rewrite Pos.iter_succ, Pos2Z.inj_xO, IH, Pos2Z.inj_succ, Z.pow_succ_r by lia. lia.
Qed.

Lemma Zdigits2_shift (m : positive) (k : Z) :
  0 <= k -> Zdigits2 (Zpos m * 2 ^ k) = Zdigits2 (Zpos m) + k.
Proof.
  intros Hk. pose proof (digits_bounds m) as [Hlo Hhi].
  assert (0 < 2 ^ k) by (apply Z.pow_pos_nonneg; lia).
  apply Zdigits2_unique; [|simpl; lia]. simpl Zdigits2.
  replace (Zpos (digits2_pos m) + k - 1) with (Zpos (digits2_pos m) - 1 + k) by lia.
  rewrite !Z.pow_add_r by lia. nia.
Qed.

Lemma shl_align_spec (m : positive) (e e' : Z) :
  let '(mz, ez) := shl_align m e e' in
  ez <= e /\ (e' <= e -> ez = e') /\ (e <= e' -> ez = e /\ mz = m) /\
  Zpos mz = Zpos m * 2 ^ (e - ez) /\
  Zdigits2 (Zpos mz) + ez = Zdigits2 (Zpos m) + e.
Proof.
  unfold shl_align. destruct (e' - e) as [|p|p] eqn:Hd.
  - rewrite Z.sub_diag. simpl (2 ^ 0). repeat split; try lia; f_equal; lia.
  - rewrite Z.sub_diag. simpl (2 ^ 0). repeat split; try lia; f_equal; lia.
  - replace (e - e') with (Zpos p) by lia.
    rewrite Pos_iter_xO, Zdigits2_shift by lia. repeat split; lia.
Qed.

Lemma F2Q_shift (m : Z) (e k : Z) :
  0 <= k -> (inject_Z (m * 2 ^ k) * bpow (e - k) == inject_Z m * bpow e)%Q.
Proof.
  intros Hk. rewrite inject_Z_mult, inject_Z_pow2_bpow by lia.
  replace e with (k + (e - k)) at 2 by lia. rewrite bpow_add. ring.
Qed.

(** [binary_round] rounds the value of its argument. *)
Lemma binary_round_spec (s : bool) (m : positive) (e : Z) :
  exists M E, rounds_to (inject_Z (Zpos m) * bpow e) M E /\
              binary_round prec emax s m e = SFfinal s M E.
Proof.
  unfold binary_round.
  pose proof (shl_align_spec m e (fexp prec emax (Zpos (digits2_pos m) + e))) as Hal.
  destruct (shl_align m e _) as [mz ez].
  destruct Hal as (H1 & H2 & H3 & H4 & H5).
  apply binary_round_aux_spec.
  - lia.
  - apply F2Q_pos.
  - rewrite H5. simpl Zdigits2.
    destruct (Z.le_gt_cases (fexp prec emax (Zpos (digits2_pos m) + e)) e); lia.
  - simpl. rewrite H4.
    replace ez with (e - (e - ez)) at 2 by lia.
    rewrite F2Q_shift by lia. reflexivity.
Qed.

Lemma binary_normalize_rounds (m e : Z) :
  SFrounds (inject_Z m * bpow e) (binary_normalize prec emax m e false).
Proof.
  destruct m as [|p|p]; simpl.
  - right; right. split; [change (inject_Z 0) with 0%Q; lra|]. exists false. reflexivity.
  - left. split; [apply F2Q_pos|]. apply binary_round_spec.
  - right; left. pose proof (F2Q_pos p e).
    assert (Hneg : (inject_Z (Zneg p) == - inject_Z (Zpos p))%Q).
    { change (Zneg p) with (- Zpos p). rewrite inject_Z_opp. reflexivity. }
    split; [rewrite Hneg; lra|].
    destruct (binary_round_spec true p e) as (M & E & Hr & Heq).
    exists M, E. split; [|exact Heq].
    apply (rounds_to_ext (inject_Z (Zpos p) * bpow e)%Q); [rewrite Hneg; lra|exact Hr].
Qed.

(** ** Multiplication, addition and division *)

Lemma Zdigits2_mul_ge (a b : positive) :
  Zdigits2 (Zpos a) + Zdigits2 (Zpos b) - 1 <= Zdigits2 (Zpos (a * b)).
Proof.
  pose proof (digits_bounds a) as [La Ha].
  pose proof (digits_bounds b) as [Lb Hb].
  pose proof (digits_bounds (a * b)) as [Lab Hab].
  simpl Zdigits2.
  destruct (Z.le_gt_cases (Zpos (digits2_pos a) + Zpos (digits2_pos b) - 1)
                          (Zpos (digits2_pos (a * b)))) as [Hle|Hgt]; [exact Hle|exfalso].
  assert (H1 : 2 ^ Zpos (digits2_pos (a * b))
               <= 2 ^ (Zpos (digits2_pos a) - 1 + (Zpos (digits2_pos b) - 1)))
    by (apply Z.pow_le_mono_r; lia).
  rewrite Z.pow_add_r in H1 by lia.
  rewrite Pos2Z.inj_mul in Hab.
  assert (0 < 2 ^ (Zpos (digits2_pos a) - 1)) by (apply Z.pow_pos_nonneg; lia).
  assert (0 < 2 ^ (Zpos (digits2_pos b) - 1)) by (apply Z.pow_pos_nonneg; lia).
  nia.
Qed.

Lemma SFrounds_signed (s : bool) (w : Q) (M E : Z) :
  (0 < w)%Q -> rounds_to w M E ->
  SFrounds (if s then - w else w)%Q (SFfinal s M E).
Proof.
  intros Hw Hr. destruct s.
  - right; left. split; [lra|]. exists M, E. split; [|reflexivity].
    apply (rounds_to_ext w); [lra|exact Hr].
  - left. split; [exact Hw|]. exists M, E. split; [exact Hr|reflexivity].
Qed.

Lemma SFmul_finite_rounds (sx sy : bool) (mx my : positive) (ex ey : Z) :
  valid_binary (S754_finite sx mx ex) = true ->
  valid_binary (S754_finite sy my ey) = true ->
  SFrounds (SF2Q (S754_finite sx mx ex) * SF2Q (S754_finite sy my ey))
           (SFmul prec emax (S754_finite sx mx ex) (S754_finite sy my ey)).
Proof.
  intros Vx Vy.
  destruct (valid_finite_facts _ _ _ Vx) as (Cx & _ & _ & _).
  destruct (valid_finite_facts _ _ _ Vy) as (Cy & _ & _ & _).
  pose proof (Zdigits2_mul_ge mx my) as Hd.
  pose proof (Zdigits2_pos (Zpos mx) ltac:(lia)).
  pose proof (Zdigits2_pos (Zpos my) ltac:(lia)).
  destruct (binary_round_aux_spec (xorb sx sy) (Zpos (mx * my)) (ex + ey) loc_Exact
              (inject_Z (Zpos (mx * my)) * bpow (ex + ey))%Q)
    as (M & E & Hr & Heq).
  - lia.
  - apply F2Q_pos.
  - rewrite fexp_eq in *. lia.
  - simpl. reflexivity.
  - simpl SFmul. rewrite Heq.
    pose proof (F2Q_pos (mx * my) (ex + ey)) as Hpos.
    eapply SFrounds_ext; [|apply (SFrounds_signed (xorb sx sy) _ M E Hpos Hr)].
    destruct sx, sy; simpl; rewrite Pos2Z.inj_mul, inject_Z_mult, bpow_add; ring.
Qed.

Lemma SFadd_finite_rounds (sx sy : bool) (mx my : positive) (ex ey : Z) :
  SFrounds (SF2Q (S754_finite sx mx ex) + SF2Q (S754_finite sy my ey))
           (SFadd prec emax (S754_finite sx mx ex) (S754_finite sy my ey)).
Proof.
  simpl SFadd.
  pose proof (shl_align_spec mx ex (Z.min ex ey)) as Hx.
  pose proof (shl_align_spec my ey (Z.min ex ey)) as Hy.
  destruct (shl_align mx ex (Z.min ex ey)) as [mx' ex'].
  destruct (shl_align my ey (Z.min ex ey)) as [my' ey'].
  destruct Hx as (_ & Hx1 & _ & Hx2 & _). destruct Hy as (_ & Hy1 & _ & Hy2 & _).
  specialize (Hx1 ltac:(lia)). specialize (Hy1 ltac:(lia)). subst ex' ey'.
  simpl fst.
  eapply SFrounds_ext; [|apply binary_normalize_rounds].
  assert (Ex : (inject_Z (Zpos mx') * bpow (Z.min ex ey) == inject_Z (Zpos mx) * bpow ex)%Q).
  { rewrite Hx2. replace (Z.min ex ey) with (ex - (ex - Z.min ex ey)) at 2 by lia.
    apply F2Q_shift. lia. }
  assert (Ey : (inject_Z (Zpos my') * bpow (Z.min ex ey) == inject_Z (Zpos my) * bpow ey)%Q).
  { rewrite Hy2. replace (Z.min ex ey) with (ey - (ey - Z.min ex ey)) at 2 by lia.
    apply F2Q_shift. lia. }
  rewrite inject_Z_plus.
  destruct sx, sy; simpl cond_Zopp; simpl SF2Q;
    rewrite ?inject_Z_opp; lra.
Qed.

Lemma new_location_spec (m2 r : Z) :
  0 < m2 -> 0 <= r < m2 ->
  match new_location m2 r with
  | loc_Exact => r = 0
  | loc_Inexact Lt => 0 < r /\ 2 * r < m2
  | loc_Inexact Eq => 2 * r = m2
  | loc_Inexact Gt => m2 < 2 * r
  end.
Proof.
  intros Hm Hr. unfold new_location.
  destruct (Z.even m2) eqn:Hev.
  - unfold new_location_even. destruct (Z.eqb_spec r 0) as [->|Hr0]; [reflexivity|].
    destruct (Z.compare_spec (2 * r) m2); lia.
  - unfold new_location_odd. destruct (Z.eqb_spec r 0) as [->|Hr0]; [reflexivity|].
    assert (Hodd : Z.odd m2 = true) by (rewrite <- Z.negb_even, Hev; reflexivity).
    apply Z.odd_spec in Hodd. destruct Hodd as [k Hk].
    destruct (Z.compare_spec (2 * r + 1) m2); lia.
Qed.

Lemma SFdiv_core_spec (m1 m2 : positive) (e1 e2 : Z) (v : Q) :
  (v * (inject_Z (Zpos m2) * bpow e2) == inject_Z (Zpos m1) * bpow e1)%Q ->
  let '(q, e', l) := SFdiv_core_binary prec emax (Zpos m1) e1 (Zpos m2) e2 in
  0 <= q /\ inbetween q e' l v /\ e' <= fexp prec emax (Zdigits2 q + e').
Proof.
  intros Hv. unfold SFdiv_core_binary.
  set (d1 := Zdigits2 (Zpos m1)). set (d2 := Zdigits2 (Zpos m2)).
  set (D := d1 + e1 - (d2 + e2)).
  set (e' := Z.min (fexp prec emax D) (e1 - e2)).
  set (s := e1 - e2 - e').
  assert (Hs : 0 <= s) by (subst s e'; lia).
  set (m' := match s with Zpos _ => Z.shiftl (Zpos m1) s | 0 => Zpos m1 | Zneg _ => 0 end).
  assert (Hm' : m' = Zpos m1 * 2 ^ s).
  { subst m'. destruct s as [|p|p] eqn:Es; [simpl; lia| |lia].
    rewrite Z.shiftl_mul_pow2 by lia. reflexivity. }
  pose proof (Z_div_mod m' (Zpos m2) ltac:(lia)) as Hdiv.
  destruct (Z.div_eucl m' (Zpos m2)) as [q r]. destruct Hdiv as [Hq Hr].
  pose proof (new_location_spec (Zpos m2) r ltac:(lia) Hr) as Hloc.
  pose proof (bpow_pos e') as HB. pose proof (bpow_pos e2) as HB2.
  assert (HM2 : (0 < inject_Z (Zpos m2))%Q)
    by (change 0%Q with (inject_Z 0); rewrite <- Zlt_Qlt; lia).
  assert (HM1 : (0 < inject_Z (Zpos m1))%Q)
    by (change 0%Q with (inject_Z 0); rewrite <- Zlt_Qlt; lia).
  (* the value, in units of [2^e'] *)
  assert (Hval : (v * inject_Z (Zpos m2)
                  == (inject_Z (Zpos m2) * inject_Z q + inject_Z r) * bpow e')%Q).
  { rewrite <- inject_Z_mult, <- inject_Z_plus, <- Hq, Hm'.
    assert (He1 : (bpow e1 == inject_Z (2 ^ s) * bpow e' * bpow e2)%Q).
    { rewrite inject_Z_pow2_bpow, <- !bpow_add by lia. subst s.
      replace (e1 - e2 - e' + e' + e2) with e1 by lia. reflexivity. }
    rewrite inject_Z_mult. rewrite He1 in Hv.
    apply (Qmult_inj_r _ _ (bpow e2)); [lra|].
    transitivity (v * (inject_Z (Zpos m2) * bpow e2))%Q; [ring|].
    rewrite Hv. ring. }
  assert (Hq0 : 0 <= q).
  { destruct (Z.le_gt_cases 0 q) as [H|H]; [exact H|exfalso].
    assert (0 <= m') by (rewrite Hm'; pose proof (Z.pow_pos_nonneg 2 s); lia). nia. }
  assert (HR : (0 <= inject_Z r)%Q /\ (inject_Z r < inject_Z (Zpos m2))%Q).
  { split; [change 0%Q with (inject_Z 0); rewrite <- Zle_Qle; lia|].
    rewrite <- Zlt_Qlt. lia. }
  split; [exact Hq0|]. split.
  - (* the location *)
    destruct (new_location (Zpos m2) r) as [|[]]; simpl.
    + subst r. change (inject_Z 0) with 0%Q in Hval.
      apply (Qmult_inj_r _ _ (inject_Z (Zpos m2))); [lra|]. rewrite Hval. ring.
    + assert (E : (2 * inject_Z r == inject_Z (Zpos m2))%Q).
      { change 2%Q with (inject_Z 2). rewrite <- inject_Z_mult, Hloc. reflexivity. }
      apply (Qmult_inj_r _ _ (inject_Z (Zpos m2))); [lra|]. rewrite Hval.
      rewrite <- E. ring.
    + destruct Hloc as [Hr0 Hhalf].
      assert (E0 : (0 < inject_Z r)%Q)
        by (change 0%Q with (inject_Z 0); rewrite <- Zlt_Qlt; lia).
      assert (E : (2 * inject_Z r < inject_Z (Zpos m2))%Q).
      { change 2%Q with (inject_Z 2). rewrite <- inject_Z_mult, <- Zlt_Qlt. lia. }
      split.
      * apply (Qmult_lt_r _ _ (inject_Z (Zpos m2))); [lra|]. rewrite Hval. nra.
      * apply (Qmult_lt_r _ _ (inject_Z (Zpos m2))); [lra|]. rewrite Hval. nra.
    + assert (E : (inject_Z (Zpos m2) < 2 * inject_Z r)%Q).
      { change 2%Q with (inject_Z 2). rewrite <- inject_Z_mult, <- Zlt_Qlt. lia. }
      split.
      * apply (Qmult_lt_r _ _ (inject_Z (Zpos m2))); [lra|]. rewrite Hval. nra.
      * apply (Qmult_lt_r _ _ (inject_Z (Zpos m2))); [lra|]. rewrite Hval. nra.
  - (* the exponent is small enough *)
    assert (Hlow : (bpow (D - 1) < v)%Q).
    { pose proof (digits_bounds m1) as [L1 _]. pose proof (digits_bounds m2) as [_ U2].
      fold (Zdigits2 (Zpos m1)) in L1. fold (Zdigits2 (Zpos m2)) in U2.
      fold d1 in L1. fold d2 in U2.
      pose proof (Zdigits2_pos (Zpos m1) ltac:(lia)) as P1. fold d1 in P1.
      pose proof (Zdigits2_pos (Zpos m2) ltac:(lia)) as P2. fold d2 in P2.
      rewrite Zle_Qle, inject_Z_pow2_bpow in L1 by lia.
      rewrite Zlt_Qlt, inject_Z_pow2_bpow in U2 by lia.
      apply (Qmult_lt_r _ _ (inject_Z (Zpos m2) * bpow e2)); [nra|]. rewrite Hv.
      pose proof (bpow_pos e1). pose proof (bpow_pos (D - 1)).
      assert (E : (bpow (D - 1) * (bpow d2 * bpow e2) == bpow (d1 - 1) * bpow e1)%Q).
      { rewrite <- !bpow_add. subst D. 
        replace (d1 + e1 - (d2 + e2) - 1 + (d2 + e2)) with (d1 - 1 + e1) by lia.
        reflexivity. }
      assert (S1 : (inject_Z (Zpos m2) * bpow e2 < bpow d2 * bpow e2)%Q) by nra.
      assert (S2 : (bpow (D - 1) * (inject_Z (Zpos m2) * bpow e2)
                    < bpow (D - 1) * (bpow d2 * bpow e2))%Q) by nra.
      assert (S3 : (bpow (d1 - 1) * bpow e1 <= inject_Z (Zpos m1) * bpow e1)%Q) by nra.
      lra. }
    assert (Hup : (v < (inject_Z q + 1) * bpow e')%Q).
    { apply (Qmult_lt_r _ _ (inject_Z (Zpos m2))); [lra|]. rewrite Hval. nra. }
    assert (He' : e' <= fexp prec emax D) by (subst e'; lia).
    destruct (Z.eq_dec q 0) as [->|Hq1].
    + change (inject_Z 0) with 0%Q in Hup.
      assert (D - 1 < e') by (apply bpow_lt_inv; lra).
      change (Zdigits2 0) with 0. rewrite fexp_eq in *. lia.
    + pose proof (Zdigits2_bounds q ltac:(lia)) as [_ Uq].
      pose proof (Zdigits2_pos q ltac:(lia)) as Pq.
      assert (Hq' : (inject_Z q + 1 <= bpow (Zdigits2 q))%Q).
      { rewrite <- inject_Z_pow2_bpow by lia. change 1%Q with (inject_Z 1).
        rewrite <- inject_Z_plus, <- Zle_Qle. lia. }
      assert (D - 1 < Zdigits2 q + e').
      { apply bpow_lt_inv. rewrite (bpow_add (Zdigits2 q) e'). nra. }
      rewrite fexp_eq in *. lia.
Qed.

Lemma SFdiv_finite_rounds (sx sy : bool) (mx my : positive) (ex ey : Z) (w : Q) :
  (w * (inject_Z (Zpos my) * bpow ey) == inject_Z (Zpos mx) * bpow ex)%Q ->
  SFrounds (if xorb sx sy then - w else w)%Q
           (SFdiv prec emax (S754_finite sx mx ex) (S754_finite sy my ey)).
Proof.
  intros Hw. simpl SFdiv.
  pose proof (SFdiv_core_spec mx my ex ey w Hw) as Hcore.
  destruct (SFdiv_core_binary prec emax (Zpos mx) ex (Zpos my) ey) as [[q e'] l].
  destruct Hcore as (Hq & Hin & He).
  assert (Hpos : (0 < w)%Q).
  { pose proof (F2Q_pos mx ex). pose proof (F2Q_pos my ey).
    destruct (Qlt_le_dec 0 w) as [H1|H1]; [exact H1|exfalso]. nra. }
  destruct (binary_round_aux_spec (xorb sx sy) q e' l w Hq Hpos He Hin)
    as (M & E & Hr & Heq).
  rewrite Heq. apply SFrounds_signed; assumption.
Qed.

(** The correctly rounded quotient of two integers. *)
Lemma SFdiv_Z_rounds (a b : Z) :
  0 < b -> SFrounds (inject_Z a / inject_Z b) (SFdiv prec emax (Py.Z2SF a) (Py.Z2SF b)).
Proof.
  intros Hb.
  assert (HB : (0 < inject_Z b)%Q)
    by (change 0%Q with (inject_Z 0); rewrite <- Zlt_Qlt; lia).
  destruct b as [|pb|pb]; try lia.
  assert (Hbp : (bpow 0 == 1)%Q) by reflexivity.
  destruct a as [|pa|pa].
  - right; right. split; [unfold Qdiv; change (inject_Z 0) with 0%Q; ring|].
    exists false. reflexivity.
  - apply (SFdiv_finite_rounds false false pa pb 0 0 (inject_Z (Zpos pa) / inject_Z (Zpos pb))).
    rewrite Hbp. field. lra.
  - eapply SFrounds_ext;
      [|apply (SFdiv_finite_rounds true false pa pb 0 0
                 (inject_Z (Zpos pa) / inject_Z (Zpos pb)))].
    + simpl. change (Zneg pa) with (- Zpos pa). rewrite inject_Z_opp. field. lra.
    + rewrite Hbp. field. lra.
Qed.

Lemma Qdiv_le_mono (a1 a2 b : Z) :
  0 < b -> a1 <= a2 -> (inject_Z a1 / inject_Z b <= inject_Z a2 / inject_Z b)%Q.
Proof.
  intros Hb Ha.
  assert (HB : (0 < inject_Z b)%Q)
    by (change 0%Q with (inject_Z 0); rewrite <- Zlt_Qlt; lia).
  rewrite Zle_Qle in Ha. unfold Qdiv.
  apply Qmult_le_compat_r; [exact Ha|]. apply Qlt_le_weak, Qinv_lt_0_compat, HB.
Qed.

(** ** Order lemmas with infinities *)

Lemma SFleb_neg_inf (r : spec_float) :
  is_nan_SF r = false -> SFleb (S754_infinity true) r = true.
Proof. destruct r as [s|s| |s m e]; try discriminate; destruct s; reflexivity. Qed.

Lemma SFleb_pos_inf (r : spec_float) :
  is_nan_SF r = false -> SFleb r (S754_infinity false) = true.
Proof. destruct r as [s|s| |s m e]; try discriminate; destruct s; reflexivity. Qed.

Lemma SFleb_not_nan (x y : spec_float) :
  SFleb x y = true -> is_nan_SF x = false /\ is_nan_SF y = false.
Proof. rewrite SFleb_key. tauto. Qed.

Lemma SFleb_trans (x y z : spec_float) :
  SFleb x y = true -> SFleb y z = true -> SFleb x z = true.
Proof.
  rewrite !SFleb_key. intros (N1 & N2 & K1) (_ & N3 & K2).
  split; [exact N1|]. split; [exact N3|]. unfold key_le in *. lia.
Qed.

Lemma SFleb_refl (x : spec_float) : is_nan_SF x = false -> SFleb x x = true.
Proof. intros N. rewrite SFleb_key. repeat split; try assumption. unfold key_le. lia. Qed.

Lemma SFmul_rounds (c x : spec_float) :
  valid_binary c = true -> valid_binary x = true ->
  is_finite_SF c = true -> is_finite_SF x = true ->
  SFrounds (SF2Q c * SF2Q x) (SFmul prec emax c x).
Proof.
  intros Vc Vx Fc Fx.
  destruct c as [sc|sc| |sc mc ec], x as [sx|sx| |sx mx ex]; try discriminate.
  - right; right. split; [simpl; ring|]. eexists. reflexivity.
  - right; right. split; [simpl; ring|]. eexists. reflexivity.
  - right; right. split; [simpl; ring|]. eexists. reflexivity.
  - apply SFmul_finite_rounds; assumption.
Qed.

Lemma SFadd_rounds (x z : spec_float) :
  valid_binary x = true -> valid_binary z = true ->
  is_finite_SF x = true -> is_finite_SF z = true ->
  SFrounds (SF2Q x + SF2Q z) (SFadd prec emax x z).
Proof.
  intros Vx Vz Fx Fz.
  destruct x as [sx|sx| |sx mx ex] eqn:Ex, z as [sz|sz| |sz mz ez] eqn:Ez;
    try discriminate.
  - right; right. split; [simpl; ring|]. destruct sx, sz; eexists; reflexivity.
  - eapply SFrounds_ext; [|apply (valid_rounds_self (S754_finite sz mz ez) Vz Fz)].
    simpl SF2Q at 2. ring.
  - eapply SFrounds_ext; [|apply (valid_rounds_self (S754_finite sx mx ex) Vx Fx)].
    simpl SF2Q at 3. ring.
  - apply SFadd_finite_rounds.
Qed.

(** ** Monotonicity of the operations *)

Lemma SFmul_pos_mono (c x y : spec_float) :
  valid_binary c = true -> valid_binary x = true -> valid_binary y = true ->
  is_finite_SF c = true -> (0 < SF2Q c)%Q ->
  SFleb x y = true ->
  SFleb (SFmul prec emax c x) (SFmul prec emax c y) = true.
Proof.
  intros Vc Vx Vy Fc Hc Hle.
  destruct (is_finite_SF x) eqn:Fx, (is_finite_SF y) eqn:Fy.
  - pose proof (SFleb_value x y Vx Vy Fx Fy Hle) as Hv.
    apply (SFrounds_mono (SF2Q c * SF2Q x) (SF2Q c * SF2Q y)).
    + nra.
    + apply SFmul_rounds; assumption.
    + apply SFmul_rounds; assumption.
  - (* y infinite *)
    destruct c as [sc|sc| |sc mc ec]; try discriminate.
    destruct sc; [pose proof (F2Q_pos mc ec); simpl in Hc; lra|].
    destruct y as [sy|sy| |sy my ey]; try discriminate;
      [|destruct x; discriminate Hle].
    destruct sy; [destruct x as [s|s| |s m e]; try discriminate; destruct s; discriminate|].
    apply SFleb_pos_inf, (SFrounds_not_nan (SF2Q (S754_finite false mc ec) * SF2Q x)).
    apply SFmul_rounds; assumption.
  - (* x infinite *)
    destruct c as [sc|sc| |sc mc ec]; try discriminate.
    destruct sc; [pose proof (F2Q_pos mc ec); simpl in Hc; lra|].
    destruct x as [sx|sx| |sx mx ex]; try discriminate.
    destruct sx; [|destruct y as [s|s| |s m e]; try discriminate; destruct s; discriminate].
    apply SFleb_neg_inf, (SFrounds_not_nan (SF2Q (S754_finite false mc ec) * SF2Q y)).
    apply SFmul_rounds; assumption.
  - destruct c as [sc|sc| |sc mc ec]; try discriminate.
    destruct sc; [pose proof (F2Q_pos mc ec); simpl in Hc; lra|].
    destruct x as [sx|sx| |sx mx ex], y as [sy|sy| |sy my ey]; try discriminate.
    destruct sx, sy; try discriminate; reflexivity.
Qed.

Lemma SFadd_mono_l (x y z : spec_float) :
  valid_binary x = true -> valid_binary y = true -> valid_binary z = true ->
  SFleb x y = true ->
  is_nan_SF (SFadd prec emax x z) = false ->
  is_nan_SF (SFadd prec emax y z) = false ->
  SFleb (SFadd prec emax x z) (SFadd prec emax y z) = true.
Proof.
  intros Vx Vy Vz Hle Nx Ny.
  destruct (is_finite_SF z) eqn:Fz.
  - destruct (is_finite_SF x) eqn:Fx, (is_finite_SF y) eqn:Fy.
    + pose proof (SFleb_value x y Vx Vy Fx Fy Hle) as Hv.
      apply (SFrounds_mono (SF2Q x + SF2Q z) (SF2Q y + SF2Q z)).
      * lra.
      * apply SFadd_rounds; assumption.
      * apply SFadd_rounds; assumption.
    + destruct y as [sy|sy| |sy my ey]; try discriminate.
      destruct sy;
        [destruct x as [s|s| |s m e]; try discriminate; destruct s; discriminate|].
      replace (SFadd prec emax (S754_infinity false) z) with (S754_infinity false)
        by (destruct z as [s|s| |s m e]; try discriminate; reflexivity).
      apply SFleb_pos_inf, Nx.
    + destruct x as [sx|sx| |sx mx ex]; try discriminate.
      destruct sx;
        [|destruct y as [s|s| |s m e]; try discriminate; destruct s; discriminate].
      replace (SFadd prec emax (S754_infinity true) z) with (S754_infinity true)
        by (destruct z as [s|s| |s m e]; try discriminate; reflexivity).
      apply SFleb_neg_inf, Ny.
    + destruct x as [sx|sx| |sx mx ex], y as [sy|sy| |sy my ey]; try discriminate.
      destruct sx, sy; try discriminate;
        destruct z as [s|s| |s m e]; try discriminate; reflexivity.
  - destruct z as [sz|sz| |sz mz ez]; try discriminate.
    + destruct x as [sx|sx| |sx mx ex], y as [sy|sy| |sy my ey]; try discriminate;
        destruct sz; try destruct sx; try destruct sy; try discriminate; reflexivity.
    + destruct x; discriminate.
Qed.

Lemma SFadd_comm (x y : spec_float) : SFadd prec emax x y = SFadd prec emax y x.
Proof.
  destruct x as [sx|sx| |sx mx ex], y as [sy|sy| |sy my ey]; try reflexivity;
    try (destruct sx, sy; reflexivity).
  simpl. rewrite (Z.min_comm ey ex). f_equal. lia.
Qed.

Lemma SFadd_mono_r (x y z : spec_float) :
  valid_binary x = true -> valid_binary y = true -> valid_binary z = true ->
  SFleb x y = true ->
  is_nan_SF (SFadd prec emax z x) = false ->
  is_nan_SF (SFadd prec emax z y) = false ->
  SFleb (SFadd prec emax z x) (SFadd prec emax z y) = true.
Proof.
  intros. rewrite (SFadd_comm z x), (SFadd_comm z y) in *.
  apply SFadd_mono_l; assumption.
Qed.

(** ** Rounding to three decimals *)

Lemma bpow_0 : (bpow 0 == 1)%Q.
Proof. reflexivity. Qed.

Lemma round_half_even_div_rne (n d : Z) (v : Q) :
  0 < d -> (v * inject_Z d == inject_Z n)%Q ->
  is_rne v 0 (Py.round_half_even_div n d).
Proof.
  intros Hd Hv. unfold Py.round_half_even_div.
  pose proof (Z_div_mod n d ltac:(lia)) as Hdiv.
  unfold Z.div, Z.modulo. destruct (Z.div_eucl n d) as [q r].
  destruct Hdiv as [Hn Hr].
  assert (HD : (0 < inject_Z d)%Q)
    by (change 0%Q with (inject_Z 0); rewrite <- Zlt_Qlt; lia).
  assert (HR : (0 <= inject_Z r)%Q /\ (inject_Z r < inject_Z d)%Q).
  { split; [change 0%Q with (inject_Z 0); rewrite <- Zle_Qle; lia|].
    rewrite <- Zlt_Qlt. lia. }
  assert (Hval : (v * inject_Z d == inject_Z d * inject_Z q + inject_Z r)%Q).
  { rewrite Hv, Hn, inject_Z_plus, inject_Z_mult. reflexivity. }
  unfold is_rne. rewrite bpow_0.
  assert (Hcmp : forall a b : Q, (a * inject_Z d <= b * inject_Z d)%Q -> (a <= b)%Q).
  { intros a b H. apply (Qmult_le_r _ _ (inject_Z d)); assumption. }
  assert (Heq : forall a b : Q, (a == b)%Q -> (a * inject_Z d == b * inject_Z d)%Q).
  { intros a b H. rewrite H. reflexivity. }
  destruct (Z.compare_spec (2 * r) d) as [E|L|G].
  - assert (E' : (2 * inject_Z r == inject_Z d)%Q).
    { change 2%Q with (inject_Z 2). rewrite <- inject_Z_mult, E. reflexivity. }
    destruct (Z.even q) eqn:Hev.
    + split; [apply Hcmp; nra|]. split; [apply Hcmp; nra|]. intros _. exact Hev.
    + rewrite inject_Z_plus. change (inject_Z 1) with 1%Q.
      split; [apply Hcmp; nra|]. split; [apply Hcmp; nra|]. intros _.
      rewrite Z.even_add, Hev. reflexivity.
  - assert (L' : (2 * inject_Z r < inject_Z d)%Q).
    { change 2%Q with (inject_Z 2). rewrite <- inject_Z_mult, <- Zlt_Qlt. exact L. }
    split; [apply Hcmp; nra|]. split; [apply Hcmp; nra|].
    intros [H|H]; apply Heq in H; nra.
  - assert (G' : (inject_Z d < 2 * inject_Z r)%Q).
    { change 2%Q with (inject_Z 2). rewrite <- inject_Z_mult, <- Zlt_Qlt. exact G. }
    rewrite inject_Z_plus. change (inject_Z 1) with 1%Q.
    split; [apply Hcmp; nra|]. split; [apply Hcmp; nra|].
    intros [H|H]; apply Heq in H; nra.
Qed.

Lemma scaled_thousandths_rne (m : positive) (e : Z) :
  is_rne (1000 * (inject_Z (Zpos m) * bpow e)) 0 (Py.scaled_thousandths m e).
Proof.
  unfold Py.scaled_thousandths.
  assert (Hexact : 0 <= e ->
            is_rne (1000 * (inject_Z (Zpos m) * bpow e)) 0 (Zpos m * 1000 * 2 ^ e)).
  { intros He. unfold is_rne. rewrite bpow_0.
    rewrite !inject_Z_mult, inject_Z_pow2_bpow by lia. change (inject_Z 1000) with 1000%Q.
    pose proof (F2Q_pos m e).
    split; [lra|]. split; [lra|]. intros [H'|H']; lra. }
  destruct e as [|p|p]; [apply Hexact; lia|apply Hexact; lia|].
  apply round_half_even_div_rne; [apply Z.pow_pos_nonneg; lia|].
  rewrite inject_Z_mult, inject_Z_pow2_bpow by lia. change (inject_Z 1000) with 1000%Q.
  assert (E : (bpow (Zneg p) * bpow (Zpos p) == 1)%Q).
  { rewrite <- bpow_add. replace (Zneg p + Zpos p) with 0 by lia. reflexivity. }
  transitivity (1000 * inject_Z (Zpos m) * (bpow (Zneg p) * bpow (Zpos p)))%Q; [ring|].
  rewrite E. ring.
Qed.

Lemma is_rne_opp (v : Q) (e n : Z) : is_rne v e n -> is_rne (- v) e (- n).
Proof.
  unfold is_rne. rewrite inject_Z_opp, Z.even_opp. intros (L & U & T).
  split; [lra|]. split; [lra|]. intros [H|H]; apply T; [right|left]; lra.
Qed.

Lemma thousandths_rne (x : spec_float) :
  is_rne (1000 * SF2Q x) 0 (thousandths x).
Proof.
  assert (Hz : is_rne (1000 * 0) 0 0).
  { unfold is_rne. rewrite bpow_0. change (inject_Z 0) with 0%Q.
    split; [lra|]. split; [lra|]. intros _. reflexivity. }
  destruct x as [s|s| |s m e]; try exact Hz.
  pose proof (scaled_thousandths_rne m e) as Hr.
  pose proof (F2Q_pos m e) as Hpos.
  assert (Hn : 0 <= Py.scaled_thousandths m e).
  { apply (is_rne_lower _ 0 _ 0 Hr). change (inject_Z 0) with 0%Q. lra. }
  unfold thousandths, SF2Q.
  destruct (Py.scaled_thousandths m e) as [|n|n] eqn:En; [| |lia].
  - destruct s; [|exact Hr].
    apply is_rne_opp in Hr. change (- 0) with 0 in Hr. unfold is_rne in *.
    destruct Hr as (L & U & T). split; [lra|]. split; [lra|].
    intros [H|H]; apply T; [left|right]; lra.
  - destruct s; [|exact Hr].
    apply is_rne_opp in Hr. change (- Zpos n) with (Zneg n) in Hr.
    unfold is_rne in *.
    destruct Hr as (L & U & T). split; [lra|]. split; [lra|].
    intros [H|H]; apply T; [left|right]; lra.
Qed.

Lemma SFround3_rounds (x : spec_float) :
  is_finite_SF x = true ->
  SFrounds (inject_Z (thousandths x) / 1000) (SFround3 x).
Proof.
  destruct x as [s|s| |s m e]; try discriminate; intros _.
  - right; right. split; [reflexivity|]. exists s. reflexivity.
  - unfold SFround3, thousandths.
    destruct (Py.scaled_thousandths m e) as [|n|n];
      try (right; right; split; [reflexivity|]; exists s; reflexivity).
    eapply SFrounds_ext;
      [|apply (SFdiv_finite_rounds s false n 1000 0 0 (inject_Z (Zpos n) / 1000))].
    + destruct s; simpl.
      * change (Zneg n) with (- Zpos n). rewrite inject_Z_opp. field.
      * reflexivity.
    + rewrite !bpow_0. change (inject_Z 1000) with 1000%Q. field.
Qed.

Lemma SFround3_mono (x y : spec_float) :
  valid_binary x = true -> valid_binary y = true ->
  SFleb x y = true -> SFleb (SFround3 x) (SFround3 y) = true.
Proof.
  intros Vx Vy Hle.
  assert (Hnn : forall z, is_nan_SF z = false -> is_nan_SF (SFround3 z) = false).
  { intros z Hz. destruct (is_finite_SF z) eqn:Fz.
    - apply (SFrounds_not_nan _ _ (SFround3_rounds z Fz)).
    - destruct z; try discriminate. reflexivity. }
  destruct (SFleb_not_nan _ _ Hle) as [Nx Ny].
  destruct (is_finite_SF x) eqn:Fx, (is_finite_SF y) eqn:Fy.
  - pose proof (SFleb_value x y Vx Vy Fx Fy Hle) as Hv.
    apply (SFrounds_mono (inject_Z (thousandths x) / 1000)
                         (inject_Z (thousandths y) / 1000)).
    + apply (Qdiv_le_mono _ _ 1000); [lia|].
      apply (is_rne_mono (1000 * SF2Q x) (1000 * SF2Q y) 0);
        [lra|apply thousandths_rne..].
    + apply SFround3_rounds, Fx.
    + apply SFround3_rounds, Fy.
  - destruct y as [sy|sy| |sy my ey]; try discriminate.
    destruct sy;
      [destruct x as [s|s| |s m e]; try discriminate; destruct s; discriminate|].
    apply SFleb_pos_inf, Hnn, Nx.
  - destruct x as [sx|sx| |sx mx ex]; try discriminate.
    destruct sx;
      [|destruct y as [s|s| |s m e]; try discriminate; destruct s; discriminate].
    apply SFleb_neg_inf, Hnn, Ny.
  - destruct x as [sx|sx| |sx mx ex], y as [sy|sy| |sy my ey]; try discriminate.
    exact Hle.
Qed.

(** ** The primitive floats *)

Lemma round3_spec (x : float) : Prim2SF (Py.round3 x) = SFround3 (Prim2SF x).
Proof.
  unfold Py.round3, SFround3.
  destruct (Prim2SF x) as [s|s| |s m e] eqn:Ex; try exact Ex.
  destruct (Py.scaled_thousandths m e) as [|n|n].
  - apply Prim2SF_SF2Prim. reflexivity.
  - apply Prim2SF_SF2Prim.
    apply (SFrounds_valid (if xorb s false
                           then - (inject_Z (Zpos n) / 1000) else inject_Z (Zpos n) / 1000)%Q).
    apply SFdiv_finite_rounds. rewrite !bpow_0. change (inject_Z 1000) with 1000%Q. field.
  - apply Prim2SF_SF2Prim. reflexivity.
Qed.

Lemma round3_mono (x y : float) :
  (x <=? y)%float = true -> (Py.round3 x <=? Py.round3 y)%float = true.
Proof.
  rewrite !leb_spec, !round3_spec. apply SFround3_mono; apply Prim2SF_valid.
Qed.

Lemma checked_spec (r : spec_float) (q : float) :
  valid_binary r = true -> Py.checked r = Ok q ->
  Prim2SF q = r /\ is_finite_SF r = true.
Proof.
  intros Vr Hq. unfold Py.checked in Hq.
  destruct r as [s|s| |s m e]; try discriminate; (split; [|reflexivity]).
  - replace q with (SF2Prim (S754_zero s)) by congruence.
    apply Prim2SF_SF2Prim, Vr.
  - replace q with (SF2Prim (S754_finite s m e)) by congruence.
    apply Prim2SF_SF2Prim, Vr.
Qed.

Lemma truediv_spec (a b : Z) (q : float) :
  0 < b -> Py.truediv a b = Ok q ->
  Prim2SF q = SFdiv prec emax (Py.Z2SF a) (Py.Z2SF b) /\
  is_finite_SF (Prim2SF q) = true.
Proof.
  intros Hb Hq. unfold Py.truediv in Hq.
  destruct (Z.eqb_spec b 0); [lia|].
  destruct (checked_spec _ _ (SFrounds_valid _ _ (SFdiv_Z_rounds a b Hb)) Hq) as [E F].
  rewrite E. split; [reflexivity|exact F].
Qed.

Lemma truediv_mono (a1 a2 b : Z) (q1 q2 : float) :
  0 < b -> a1 <= a2 ->
  Py.truediv a1 b = Ok q1 -> Py.truediv a2 b = Ok q2 ->
  (q1 <=? q2)%float = true.
Proof.
  intros Hb Ha H1 H2.
  destruct (truediv_spec _ _ _ Hb H1) as [E1 _].
  destruct (truediv_spec _ _ _ Hb H2) as [E2 _].
  rewrite leb_spec, E1, E2.
  apply (SFrounds_mono (inject_Z a1 / inject_Z b) (inject_Z a2 / inject_Z b)).
  - apply Qdiv_le_mono; assumption.
  - apply SFdiv_Z_rounds, Hb.
  - apply SFdiv_Z_rounds, Hb.
Qed.

Lemma mul_mono (c x y : float) :
  is_finite_SF (Prim2SF c) = true -> (0 < SF2Q (Prim2SF c))%Q ->
  (x <=? y)%float = true -> (c * x <=? c * y)%float = true.
Proof.
  intros Fc Hc Hle. rewrite leb_spec in *. rewrite !mul_spec.
  apply SFmul_pos_mono; try apply Prim2SF_valid; assumption.
Qed.

Lemma add_mono_l (x y z : float) :
  (x <=? y)%float = true ->
  is_nan_SF (Prim2SF (x + z)) = false -> is_nan_SF (Prim2SF (y + z)) = false ->
  (x + z <=? y + z)%float = true.
Proof.
  intros Hle. rewrite leb_spec in *. rewrite !add_spec.
  apply SFadd_mono_l; try apply Prim2SF_valid; assumption.
Qed.

Lemma add_mono_r (x y z : float) :
  (x <=? y)%float = true ->
  is_nan_SF (Prim2SF (z + x)) = false -> is_nan_SF (Prim2SF (z + y)) = false ->
  (z + x <=? z + y)%float = true.
Proof.
  intros Hle. rewrite leb_spec in *. rewrite !add_spec.
  apply SFadd_mono_r; try apply Prim2SF_valid; assumption.
Qed.

(** A sum is a number when neither term is NaN or plus infinity. *)
Lemma add_not_nan (x y cx cy : float) :
  (x <=? cx)%float = true -> (y <=? cy)%float = true ->
  is_finite_SF (Prim2SF cx) = true -> is_finite_SF (Prim2SF cy) = true ->
  is_nan_SF (Prim2SF (x + y)) = false.
Proof.
  rewrite !leb_spec, add_spec. intros Hx Hy Fx Fy.
  pose proof (Prim2SF_valid x) as Vx. pose proof (Prim2SF_valid y) as Vy.
  assert (Hfin : forall c, is_finite_SF c = true -> (SFkey c).1.1 <= 1).
  { intros c Fc. destruct c as [s|s| |s m e]; try discriminate; try destruct s; simpl; lia. }
  apply SFleb_key in Hx, Hy.
  destruct Hx as (Nx & _ & Kx), Hy as (Ny & _ & Ky).
  pose proof (Hfin _ Fx) as Bx. pose proof (Hfin _ Fy) as By.
  assert (Kx' : (SFkey (Prim2SF x)).1.1 <= 1) by (unfold key_le in Kx; lia).
  assert (Ky' : (SFkey (Prim2SF y)).1.1 <= 1) by (unfold key_le in Ky; lia).
  clear Kx Ky Bx By Hfin.
  destruct (is_finite_SF (Prim2SF x)) eqn:Ex, (is_finite_SF (Prim2SF y)) eqn:Ey.
  - apply (SFrounds_not_nan _ _ (SFadd_rounds _ _ Vx Vy Ex Ey)).
  - destruct (Prim2SF x) as [sx|sx| |sx mx ex], (Prim2SF y) as [sy|[]| |sy my ey];
      try discriminate; simpl in *; try lia; reflexivity.
  - destruct (Prim2SF x) as [sx|[]| |sx mx ex], (Prim2SF y) as [sy|sy| |sy my ey];
      try discriminate; simpl in *; try lia; reflexivity.
  - destruct (Prim2SF x) as [sx|[]| |sx mx ex], (Prim2SF y) as [sy|[]| |sy my ey];
      try discriminate; simpl in *; try lia; reflexivity.
Qed.

Lemma add_finite_not_nan (x z : float) :
  is_nan_SF (Prim2SF x) = false -> is_finite_SF (Prim2SF z) = true ->
  is_nan_SF (Prim2SF (x + z)) = false.
Proof.
  rewrite add_spec. intros Nx Fz.
  pose proof (Prim2SF_valid x) as Vx. pose proof (Prim2SF_valid z) as Vz.
  destruct (is_finite_SF (Prim2SF x)) eqn:Ex.
  - apply (SFrounds_not_nan _ _ (SFadd_rounds _ _ Vx Vz Ex Fz)).
  - destruct (Prim2SF x) as [sx|sx| |sx mx ex]; try discriminate.
    destruct (Prim2SF z) as [sz|sz| |sz mz ez]; try discriminate; reflexivity.
Qed.

Lemma leb_not_nan (x y : float) :
  (x <=? y)%float = true ->
  is_nan_SF (Prim2SF x) = false /\ is_nan_SF (Prim2SF y) = false.
Proof. rewrite leb_spec. apply SFleb_not_nan. Qed.

Lemma leb_refl (x : float) : is_nan_SF (Prim2SF x) = false -> (x <=? x)%float = true.
Proof. rewrite leb_spec. apply SFleb_refl. Qed.

Lemma leb_total (a b : float) :
  is_nan_SF (Prim2SF a) = false -> is_nan_SF (Prim2SF b) = false ->
  (b <? a)%float = false -> (a <=? b)%float = true.
Proof.
  intros Na Nb Hlt. apply leb_key. split; [exact Na|]. split; [exact Nb|].
  destruct (Z.lt_trichotomy (SFkey (Prim2SF a)).1.1 (SFkey (Prim2SF b)).1.1)
    as [H|[H|H]]; unfold key_le; try lia.
  - destruct (Z.lt_trichotomy (SFkey (Prim2SF a)).1.2 (SFkey (Prim2SF b)).1.2)
      as [H'|[H'|H']]; try lia.
    + destruct (Z.le_gt_cases (SFkey (Prim2SF a)).2 (SFkey (Prim2SF b)).2)
        as [H''|H'']; [lia|].
      assert ((b <? a)%float = true); [|congruence].
      apply ltb_key. repeat split; try assumption. unfold key_lt. lia.
    + assert ((b <? a)%float = true); [|congruence].
      apply ltb_key. repeat split; try assumption. unfold key_lt. lia.
  - assert ((b <? a)%float = true); [|congruence].
    apply ltb_key. repeat split; try assumption. unfold key_lt. lia.
Qed.

Lemma min_mono (x y c : float) :
  is_nan_SF (Prim2SF c) = false ->
  (x <=? y)%float = true -> (Py.min x c <=? Py.min y c)%float = true.
Proof.
  intros Nc Hle. destruct (leb_not_nan _ _ Hle) as [Nx Ny]. unfold Py.min.
  destruct (c <? x)%float eqn:Hx, (c <? y)%float eqn:Hy.
  - apply leb_refl, Nc.
  - exfalso. apply ltb_key in Hx. apply leb_key in Hle.
    assert ((c <? y)%float = true); [|congruence].
    apply ltb_key. repeat split; try assumption.
    destruct Hx as (_ & _ & Hx), Hle as (_ & _ & Hle). unfold key_lt, key_le in *. lia.
  - apply leb_total; assumption.
  - exact Hle.
Qed.

Lemma min_le (x c : float) :
  is_nan_SF (Prim2SF x) = false -> is_nan_SF (Prim2SF c) = false ->
  (Py.min x c <=? c)%float = true.
Proof.
  intros Nx Nc. unfold Py.min. destruct (c <? x)%float eqn:Hx.
  - apply leb_refl, Nc.
  - apply leb_total; assumption.
Qed.

Lemma min_nan (x c : float) :
  is_nan_SF (Prim2SF x) = true -> Py.min x c = x.
Proof.
  intros Nx. unfold Py.min. destruct (c <? x)%float eqn:Hx; [|reflexivity].
  apply ltb_key in Hx. destruct Hx as (_ & Hx & _). congruence.
Qed.

Lemma nan_unique (x : float) : is_nan_SF (Prim2SF x) = true -> x = nan.
Proof.
  intros Nx. apply Prim2SF_inj. destruct (Prim2SF x); try discriminate. reflexivity.
Qed.

Lemma mul_nan_r (c x : float) :
  is_nan_SF (Prim2SF x) = true -> is_nan_SF (Prim2SF (c * x)) = true.
Proof.
  rewrite mul_spec. destruct (Prim2SF x); try discriminate.
  intros _. destruct (Prim2SF c); reflexivity.
Qed.

Lemma add_nan_l (x y : float) :
  is_nan_SF (Prim2SF x) = true -> is_nan_SF (Prim2SF (x + y)) = true.
Proof.
  rewrite add_spec. destruct (Prim2SF x); try discriminate.
  intros _. reflexivity.
Qed.

Lemma add_nan_r (x y : float) :
  is_nan_SF (Prim2SF y) = true -> is_nan_SF (Prim2SF (x + y)) = true.
Proof.
  rewrite add_spec. destruct (Prim2SF y); try discriminate.
  intros _. destruct (Prim2SF x); reflexivity.
Qed.

Lemma round3_nan (x : float) :
  is_nan_SF (Prim2SF x) = true -> Py.round3 x = nan.
Proof.
  intros Nx. apply nan_unique. rewrite round3_spec.
  destruct (Prim2SF x); try discriminate. reflexivity.
Qed.

(** ** Absence of overflow *)

Lemma SFrounds_finite (v : Q) (r : spec_float) :
  SFrounds v r -> (- bpow 1023 < v)%Q -> (v < bpow 1023)%Q ->
  is_finite_SF r = true.
Proof.
  assert (Hfin : forall s w M E, (0 < w)%Q -> (w < bpow 1023)%Q ->
            rounds_to w M E -> is_finite_SF (SFfinal s M E) = true).
  { intros s w M E Hw Hb Hr.
    destruct (rounds_to_facts _ _ _ Hw Hr) as (HM & _ & _).
    destruct Hr as (e & m & Hc & _ & Hn).
    assert (He : e <= 970).
    { destruct Hc as [(d & L & _ & ->)|[_ ->]]; [|lia].
      assert (d - 1 < 1023) by (apply bpow_lt_inv; lra).
      rewrite fexp_eq. lia. }
    assert (HE : E <= 971).
    { unfold normalize in Hn. destruct (m =? 2 ^ 53); inversion Hn; lia. }
    unfold SFfinal. destruct M as [|p|p]; [reflexivity| |lia].
    rewrite (proj2 (Z.leb_le E (emax - prec))) by (change (emax - prec) with 971; lia).
    reflexivity. }
  intros [(Hv & M & E & Hr & ->)|[(Hv & M & E & Hr & ->)|(Hv & s & ->)]] Hlo Hhi;
    [| |reflexivity].
  - apply (Hfin false v); assumption.
  - apply (Hfin true (- v)%Q); [lra|lra|assumption].
Qed.

Lemma truediv_returns (a b : Z) :
  0 < b -> Z.abs a < 2 ^ 1023 -> exists q, Py.truediv a b = Ok q.
Proof.
  intros Hb Ha. unfold Py.truediv. destruct (Z.eqb_spec b 0); [lia|].
  pose proof (SFdiv_Z_rounds a b Hb) as Hr.
  assert (HB : (1 <= inject_Z b)%Q)
    by (change 1%Q with (inject_Z 1); rewrite <- Zle_Qle; lia).
  assert (HA : (- bpow 1023 < inject_Z a)%Q /\ (inject_Z a < bpow 1023)%Q).
  { rewrite <- inject_Z_pow2_bpow by lia.
    rewrite <- inject_Z_opp, <- !Zlt_Qlt. lia. }
  pose proof (bpow_pos 1023) as HP.
  set (v := (inject_Z a / inject_Z b)%Q) in *.
  assert (Hv : (v * inject_Z b == inject_Z a)%Q) by (subst v; field; lra).
  assert (Hfin : is_finite_SF (SFdiv prec emax (Py.Z2SF a) (Py.Z2SF b)) = true).
  { apply (SFrounds_finite v); [exact Hr| |].
    - destruct (Qlt_le_dec (- bpow 1023) v) as [H|H]; [exact H|exfalso]. nra.
    - destruct (Qlt_le_dec v (bpow 1023)) as [H|H]; [exact H|exfalso]. nra. }
  unfold Py.checked.
  destruct (SFdiv prec emax (Py.Z2SF a) (Py.Z2SF b)); try discriminate;
    eexists; reflexivity.
Qed.

(** ** The overflow threshold *)

Lemma inject_Z_sub (a b : Z) : (inject_Z (a - b) == inject_Z a - inject_Z b)%Q.
Proof. unfold Z.sub, Qminus. rewrite inject_Z_plus, inject_Z_opp. reflexivity. Qed.

Lemma overflow_threshold_Q :
  (inject_Z overflow_threshold == (inject_Z (2 ^ 53) - (1 # 2)) * bpow 971)%Q.
Proof.
  unfold overflow_threshold.
  rewrite <- (inject_Z_pow2_bpow 971) by lia.
  assert (E : 2 ^ 1024 - 2 ^ 970 = (2 * 2 ^ 53 - 1) * 2 ^ 970) by (vm_compute; reflexivity).
  assert (E' : (2 ^ 971 = 2 * 2 ^ 970)) by (vm_compute; reflexivity).
  rewrite E, E'. rewrite !inject_Z_mult, inject_Z_sub, inject_Z_mult.
  change (inject_Z 2) with 2%Q. change (inject_Z 1) with 1%Q. field.
Qed.

(** A positive value rounds to a finite float exactly below the threshold. *)
Lemma rounds_to_finite_iff (v : Q) (M E : Z) :
  (0 < v)%Q -> rounds_to v M E ->
  (is_finite_SF (SFfinal false M E) = true <-> (v < inject_Z overflow_threshold)%Q).
Proof.
  intros Hpos Hr. rewrite overflow_threshold_Q.
  destruct (rounds_to_facts _ _ _ Hpos Hr) as (HM & HE & _).
  destruct Hr as (e & m & Hc & Hn & Hnorm).
  destruct (rne_bounds v e m Hpos Hc Hn) as [Hm Hm52].
  pose proof (bpow_pos 971) as P971. pose proof (bpow_pos e) as Pe.
  assert (Hfin : is_finite_SF (SFfinal false M E) = true <-> (M = 0 \/ E <= 971)).
  { unfold SFfinal. destruct M as [|p|p]; [| |lia].
    - split; [left|]; reflexivity.
    - change (emax - prec) with 971. destruct (Z.leb_spec E 971); split;
        try reflexivity; try (intros; right; assumption); try discriminate.
      intros [?|?]; [discriminate|lia]. }
  rewrite Hfin. clear Hfin.
  destruct Hn as (L & U & T).
  destruct (Z.lt_trichotomy e 971) as [He|[He|He]].
  - (* below the last binade *)
    split; [intros _|intros _; right].
    + pose proof (cexp_of_upper _ _ Hc) as Hup.
      assert (Hle : (bpow (e + 53) <= bpow 1023)%Q) by (apply bpow_le; lia).
      assert (H1023 : (bpow 1023 < (inject_Z (2 ^ 53) - (1 # 2)) * bpow 971)%Q).
      { rewrite <- (inject_Z_pow2_bpow 1023), <- (inject_Z_pow2_bpow 971) by lia.
        assert (E2 : 2 ^ 1023 = 2 ^ 52 * 2 ^ 971) by (vm_compute; reflexivity).
        rewrite E2, inject_Z_mult.
        assert (0 < inject_Z (2 ^ 971))%Q
          by (change 0%Q with (inject_Z 0); rewrite <- Zlt_Qlt; reflexivity).
        assert (inject_Z (2 ^ 52) < inject_Z (2 ^ 53) - (1 # 2))%Q
          by (vm_compute; reflexivity).
        nra. }
      lra.
    + unfold normalize in Hnorm. destruct (m =? 2 ^ 53); inversion Hnorm; lia.
  - (* the last binade *)
    subst e. split.
    + intros [HM0|HE971].
      * exfalso. specialize (Hm52 ltac:(lia)).
        unfold normalize in Hnorm. destruct (m =? 2 ^ 53); inversion Hnorm; subst; lia.
      * assert (Hm53 : m < 2 ^ 53).
        { unfold normalize in Hnorm. destruct (Z.eqb_spec m (2 ^ 53)); inversion Hnorm; lia. }
        destruct (Qlt_le_dec v ((inject_Z (2 ^ 53) - (1 # 2)) * bpow 971)) as [Hlt|Hge];
          [exact Hlt|exfalso].
        assert (Hmq : (inject_Z m <= inject_Z (2 ^ 53) - 1)%Q).
        { change 1%Q with (inject_Z 1). rewrite <- inject_Z_sub, <- Zle_Qle. lia. }
        assert (Heq : (v == (inject_Z m + (1 # 2)) * bpow 971)%Q) by nra.
        assert (Hm' : m = 2 ^ 53 - 1).
        { destruct (Z.eq_dec m (2 ^ 53 - 1)) as [?|Hne]; [assumption|exfalso].
          assert (Hmq' : (inject_Z m <= inject_Z (2 ^ 53) - 2)%Q).
          { change 2%Q with (inject_Z 2). rewrite <- inject_Z_sub, <- Zle_Qle. lia. }
          nra. }
        specialize (T (or_intror Heq)). subst m. vm_compute in T. discriminate.
    + intros Hlt. right.
      assert (Hm53 : m < 2 ^ 53).
      { destruct (Z.lt_ge_cases m (2 ^ 53)) as [?|Hge]; [assumption|exfalso].
        assert (Hmq : (inject_Z (2 ^ 53) <= inject_Z m)%Q) by (rewrite <- Zle_Qle; lia).
        nra. }
      unfold normalize in Hnorm. destruct (Z.eqb_spec m (2 ^ 53)); inversion Hnorm; lia.
  - (* beyond the last binade *)
    split.
    + intros [HM0|HE971]; exfalso.
      * specialize (Hm52 ltac:(lia)).
        unfold normalize in Hnorm. destruct (m =? 2 ^ 53); inversion Hnorm; subst; lia.
      * unfold normalize in Hnorm. destruct (m =? 2 ^ 53); inversion Hnorm; subst; lia.
    + intros Hlt. exfalso.
      pose proof (cexp_of_lower _ _ Hc ltac:(lia)) as Hlow.
      assert (Hle : (bpow 1024 <= bpow (e + 52))%Q) by (apply bpow_le; lia).
      assert (H1024 : ((inject_Z (2 ^ 53) - (1 # 2)) * bpow 971 < bpow 1024)%Q).
      { rewrite <- (inject_Z_pow2_bpow 1024), <- (inject_Z_pow2_bpow 971) by lia.
        assert (E2 : 2 ^ 1024 = 2 ^ 53 * 2 ^ 971) by (vm_compute; reflexivity).
        rewrite E2, inject_Z_mult.
        assert (0 < inject_Z (2 ^ 971))%Q
          by (change 0%Q with (inject_Z 0); rewrite <- Zlt_Qlt; reflexivity).
        nra. }
      lra.
Qed.
Lemma SFfinal_finite_sign (s : bool) (M E : Z) :
  is_finite_SF (SFfinal s M E) = is_finite_SF (SFfinal false M E).
Proof.
  unfold SFfinal. destruct M; [reflexivity| |reflexivity].
  destruct (E <=? emax - prec); reflexivity.
Qed.

Lemma SFrounds_finite_iff (v : Q) (r : spec_float) :
  SFrounds v r ->
  (is_finite_SF r = true <->
   (- inject_Z overflow_threshold < v)%Q /\ (v < inject_Z overflow_threshold)%Q).
Proof.
  assert (HT : (0 < inject_Z overflow_threshold)%Q)
    by (change 0%Q with (inject_Z 0); rewrite <- Zlt_Qlt; reflexivity).
  intros [(Hv & M & E & Hr & ->)|[(Hv & M & E & Hr & ->)|(Hv & s & ->)]].
  - rewrite (rounds_to_finite_iff v M E Hv Hr). split; [intros H; split; lra|tauto].
  - rewrite SFfinal_finite_sign.
    rewrite (rounds_to_finite_iff (- v) M E ltac:(lra) Hr).
    split; [intros H; split; lra|intros [H1 H2]; lra].
  - split; [intros _; split; lra|reflexivity].
Qed.

Lemma checked_finite (r : spec_float) :
  (is_finite_SF r = true -> Py.checked r = Ok (SF2Prim r)) /\
  (is_finite_SF r = false -> Py.checked r = Raise OverflowError).
Proof. destruct r; simpl; split; intros H; try discriminate; reflexivity. Qed.

(** [a / b] is a float exactly when the quotient is below the threshold. *)
Lemma truediv_returns_iff (a b : Z) :
  0 < b ->
  (Z.abs a < overflow_threshold * b -> exists q, Py.truediv a b = Ok q) /\
  (overflow_threshold * b <= Z.abs a -> Py.truediv a b = Raise OverflowError).
Proof.
  intros Hb.
  pose proof (SFdiv_Z_rounds a b Hb) as Hr.
  apply SFrounds_finite_iff in Hr.
  assert (HB : (0 < inject_Z b)%Q)
    by (change 0%Q with (inject_Z 0); rewrite <- Zlt_Qlt; lia).
  assert (Hq : ((- inject_Z overflow_threshold < inject_Z a / inject_Z b)%Q /\
                (inject_Z a / inject_Z b < inject_Z overflow_threshold)%Q)
               <-> Z.abs a < overflow_threshold * b).
  { set (v := (inject_Z a / inject_Z b)%Q).
    assert (Hv : (v * inject_Z b == inject_Z a)%Q) by (subst v; field; lra).
    assert (HZ : Z.abs a < overflow_threshold * b
                 <-> (- (inject_Z overflow_threshold * inject_Z b) < inject_Z a)%Q /\
                     (inject_Z a < inject_Z overflow_threshold * inject_Z b)%Q).
    { rewrite <- inject_Z_mult, <- inject_Z_opp, <- !Zlt_Qlt. lia. }
    rewrite HZ. split; intros [H1 H2]; split; nra. }
  unfold Py.truediv. destruct (Z.eqb_spec b 0); [lia|].
  destruct (checked_finite (SFdiv prec emax (Py.Z2SF a) (Py.Z2SF b))) as [Hfin Hinf].
  split.
  - intros Hlt. rewrite Hfin; [eexists; reflexivity|]. apply Hr, Hq, Hlt.
  - intros Hge. apply Hinf.
    destruct (is_finite_SF (SFdiv prec emax (Py.Z2SF a) (Py.Z2SF b))) eqn:E; [|reflexivity].
    exfalso. pose proof (proj1 Hq (proj1 Hr eq_refl)). lia.
Qed.

(** ** The result monad and the Python builtins *)

Lemma bind_ok {A B} (a : A) (f : A -> result B) : (Ok a ≫= f) = f a.
Proof. reflexivity. Qed.

Lemma bind_raise {A B} (e : exn) (f : A -> result B) : (Raise e ≫= f) = Raise e.
Proof. reflexivity. Qed.

Lemma sum_foldl_shift (l : list Z) (a : Z) : foldl Z.add a l = a + Py.sum l.
Proof.
  unfold Py.sum. revert a.
  induction l as [|x l IH]; intros a; simpl; [lia|].
  rewrite (IH (a + x)), (IH (0 + x)). lia.
Qed.

Lemma sum_nil : Py.sum [] = 0.
Proof. reflexivity. Qed.

Lemma sum_cons (x : Z) (l : list Z) : Py.sum (x :: l) = x + Py.sum l.
Proof. unfold Py.sum at 1. simpl. apply sum_foldl_shift. Qed.

Lemma sum_app (l k : list Z) : Py.sum (l ++ k) = Py.sum l + Py.sum k.
Proof.
  induction l as [|x l IH]; simpl; [reflexivity|].
  rewrite !sum_cons, IH. lia.
Qed.

Lemma range_S (n : nat) : Py.range (Z.of_nat (S n)) = Py.range (Z.of_nat n) ++ [Z.of_nat n].
Proof. unfold Py.range. rewrite seqZ_S. reflexivity. Qed.

Lemma range_lookup (n i : Z) :
  0 <= i < n -> Py.range n !! Z.to_nat i = Some i.
Proof.
  intros Hi. unfold Py.range. rewrite lookup_seqZ_lt by lia. f_equal. lia.
Qed.

Lemma len_fmap {A B} (f : A -> B) (l : list A) : Py.len (f <$> l) = Py.len l.
Proof. unfold Py.len. rewrite length_fmap. reflexivity. Qed.

Lemma len_range (n : Z) : 0 <= n -> Py.len (Py.range n) = n.
Proof. intros Hn. unfold Py.len, Py.range. rewrite length_seqZ. lia. Qed.

(** ** Installment plans *)

Lemma sum_installment_amounts (base_amount remainder : Z) (n k : nat) :
  (k <= n)%nat ->
  Py.sum (installment_amount base_amount remainder (Z.of_nat n) <$> Py.range (Z.of_nat k))
  = Z.of_nat k * base_amount + (if (k =? n)%nat then if (n =? 0)%nat then 0 else remainder else 0).
Proof.
  induction k as [|k IH]; intros Hk.
  - simpl. destruct n; reflexivity.
  - rewrite range_S, fmap_app, sum_app, IH by lia. simpl fmap.
    rewrite sum_cons, sum_nil. unfold installment_amount.
    destruct (Nat.eqb_spec k n); [lia|].
    destruct (Nat.eqb_spec (S k) n), (Z.eqb_spec (Z.of_nat k) (Z.of_nat n - 1));
      try lia.
    destruct (Nat.eqb_spec n 0); lia.
Qed.

(** The loop of the plan. *)
Lemma collect_fmap {A B} (f : A -> result B) (g : A -> B) (l : list A) :
  (forall x, x ∈ l -> f x = Ok (g x)) -> Py.collect f l = Ok (g <$> l).
Proof.
  induction l as [|x l IH]; intros Hf; [reflexivity|].
  simpl. rewrite (Hf x) by left. rewrite bind_ok, IH; [reflexivity|].
  intros y Hy. apply Hf. right. exact Hy.
Qed.

Lemma collect_ok_inv {A B} (f : A -> result B) (l : list A) (out : list B) :
  Py.collect f l = Ok out -> Forall2 (fun x y => f x = Ok y) l out.
Proof.
  revert out. induction l as [|x l IH]; intros out; simpl.
  - intros [= <-]. constructor.
  - destruct (f x) as [y|e] eqn:Hx; [|discriminate]. rewrite bind_ok.
    destruct (Py.collect f l) as [ys|e]; [|discriminate]. rewrite bind_ok.
    intros [= <-]. constructor; [exact Hx|]. apply IH. reflexivity.
Qed.

Lemma collect_raise_inv {A B} (f : A -> result B) (l : list A) (e : exn) :
  Py.collect f l = Raise e -> exists x, x ∈ l /\ f x = Raise e.
Proof.
  induction l as [|x l IH]; simpl; [discriminate|].
  destruct (f x) as [y|e'] eqn:Hx.
  - rewrite bind_ok. destruct (Py.collect f l) as [ys|e'']; [discriminate|].
    rewrite bind_raise. intros [= <-].
    destruct (IH eq_refl) as (z & Hz & Hfz). exists z. split; [right; exact Hz|exact Hfz].
  - rewrite bind_raise. intros [= <-]. exists x. split; [left|exact Hx].
Qed.

(** A date plus a number of days. *)
Lemma valid_bounds (d : Date) :
  Datetime.valid d = true <-> 1 <= d <= 3652059.
Proof.
  unfold Datetime.valid, Datetime.min_ordinal, Datetime.max_ordinal.
  rewrite andb_true_iff, Z.leb_le, Z.leb_le. reflexivity.
Qed.

Lemma due_date_inv (start days due : Z) :
  (delta ← Datetime.timedelta days; Datetime.add start delta) = Ok due ->
  due = start + days /\ Datetime.valid due = true.
Proof.
  unfold Datetime.timedelta, Datetime.add.
  destruct (Z.abs days <=? Datetime.max_delta_days); [|discriminate].
  rewrite bind_ok. destruct (Datetime.valid (start + days)) eqn:Hv; [|discriminate].
  intros [= <-]. split; [reflexivity|exact Hv].
Qed.

Lemma due_date_raises (start days : Z) (e : exn) :
  (delta ← Datetime.timedelta days; Datetime.add start delta) = Raise e ->
  e = OverflowError.
Proof.
  unfold Datetime.timedelta, Datetime.add.
  destruct (Z.abs days <=? Datetime.max_delta_days).
  - rewrite bind_ok. destruct (Datetime.valid (start + days)); [discriminate|].
    intros [= <-]. reflexivity.
  - rewrite bind_raise. intros [= <-]. reflexivity.
Qed.

Lemma due_date_cases (start days : Z) :
  Datetime.valid start = true ->
  (delta ← Datetime.timedelta days; Datetime.add start delta)
  = if Datetime.valid (start + days) then Ok (start + days) else Raise OverflowError.
Proof.
  intros Hs. apply valid_bounds in Hs.
  destruct (Datetime.valid (start + days)) eqn:Hv.
  - apply valid_bounds in Hv. unfold Datetime.timedelta, Datetime.max_delta_days.
    rewrite (proj2 (Z.leb_le (Z.abs days) 999999999)) by lia.
    rewrite bind_ok. unfold Datetime.add.
    rewrite (proj2 (valid_bounds (start + days))) by lia. reflexivity.
  - destruct (delta ← Datetime.timedelta days; Datetime.add start delta) as [due|e] eqn:E.
    + apply due_date_inv in E. destruct E as [-> E]. congruence.
    + apply due_date_raises in E. subst e. reflexivity.
Qed.

Lemma first_due_date_inv (today interval : Z) (start : option Date) (first : Date) :
  first_due_date today interval start = Ok first ->
  first = default (today + interval) start /\
  (start = None -> Datetime.valid first = true).
Proof.
  destruct start as [d|]; simpl.
  - intros [= <-]. split; [reflexivity|discriminate].
  - intros H. apply due_date_inv in H. destruct H as [-> Hv]. split; [reflexivity|].
    intros _. exact Hv.
Qed.

Lemma first_due_date_raises (today interval : Z) (start : option Date) (e : exn) :
  first_due_date today interval start = Raise e ->
  e = OverflowError /\ start = None.
Proof.
  destruct start as [d|]; simpl; [discriminate|].
  intros H. apply due_date_raises in H. split; [exact H|reflexivity].
Qed.

(** The plan, after the guard on the amount. *)
Lemma plan_steps (today amount count interval : Z) (start : option Date) :
  0 < amount ->
  generate_installment_plan today amount count interval start
  = (first ← first_due_date today interval start;
     base_amount ← Py.floordiv amount count;
     remainder ← Py.mod_ amount count;
     Py.collect
       (fun i =>
          delta ← Datetime.timedelta (i * interval);
          due_date ← Datetime.add first delta;
          Ok (Installment.mk due_date (installment_amount base_amount remainder count i)))
       (Py.range count)).
Proof.
  intros Ha. unfold generate_installment_plan.
  rewrite (proj2 (Z.leb_gt _ _)) by lia. reflexivity.
Qed.

Lemma plan_first_raises (today amount count interval : Z) (start : option Date) (e : exn) :
  0 < amount -> first_due_date today interval start = Raise e ->
  generate_installment_plan today amount count interval start = Raise OverflowError.
Proof.
  intros Ha He. rewrite plan_steps, He by exact Ha.
  destruct (first_due_date_raises _ _ _ _ He) as [-> _]. reflexivity.
Qed.

Lemma plan_zero (today amount interval : Z) (start : option Date) (first : Date) :
  0 < amount -> first_due_date today interval start = Ok first ->
  generate_installment_plan today amount 0 interval start = Raise ZeroDivisionError.
Proof. intros Ha Hf. rewrite plan_steps, Hf by exact Ha. reflexivity. Qed.

(** A plan that is returned, whatever the dates are. *)
Lemma plan_inv (today amount count interval : Z) (start : option Date)
    (plan : list Installment.t) :
  0 < amount -> count <> 0 ->
  generate_installment_plan today amount count interval start = Ok plan ->
  exists first,
    first_due_date today interval start = Ok first /\
    plan = (fun i =>
              Installment.mk (first + i * interval)
                (installment_amount (amount / count) (amount mod count) count i))
           <$> Py.range count.
Proof.
  intros Ha Hc. rewrite plan_steps by exact Ha.
  destruct (first_due_date today interval start) as [first|e]; [|discriminate].
  rewrite bind_ok. unfold Py.floordiv, Py.mod_.
  rewrite (proj2 (Z.eqb_neq _ _)) by lia. rewrite !bind_ok.
  intros H. exists first. split; [reflexivity|].
  apply collect_ok_inv in H. revert H. generalize (Py.range count).
  intros l H. induction H as [|i inst l out Hi _ IH]; [reflexivity|].
  rewrite fmap_cons, <- IH. f_equal.
  unfold Datetime.timedelta, Datetime.add in Hi.
  destruct (Z.abs (i * interval) <=? Datetime.max_delta_days);
    rewrite ?bind_ok, ?bind_raise in Hi; [|discriminate].
  destruct (Datetime.valid (first + i * interval));
    rewrite ?bind_ok, ?bind_raise in Hi; [|discriminate].
  congruence.
Qed.

Lemma schedulable_spec (first count interval : Z) :
  schedulable first count interval = true <->
  forall i, 0 <= i < count -> Datetime.valid (first + i * interval) = true.
Proof.
  unfold schedulable, Py.range. rewrite forallb_forall. split.
  - intros H i Hi. apply H, list_elem_of_In, elem_of_seqZ. lia.
  - intros H i Hi. apply list_elem_of_In, elem_of_seqZ in Hi. apply H. lia.
Qed.

Lemma schedulable_last (first count interval : Z) :
  Datetime.valid first = true -> 1 <= count ->
  (schedulable first count interval = true <->
   Datetime.valid (first + (count - 1) * interval) = true).
Proof.
  intros Hf Hc. rewrite schedulable_spec. apply valid_bounds in Hf. split.
  - intros H. apply H. lia.
  - intros H i Hi. apply valid_bounds in H. apply valid_bounds.
    destruct (Z.le_gt_cases 0 interval) as [Hpos|Hneg].
    + assert (0 <= i * interval <= (count - 1) * interval) by nia. lia.
    + assert ((count - 1) * interval <= i * interval <= 0) by nia. lia.
Qed.

Lemma plan_unfold (today amount count interval : Z) (start : option Date) (first : Date) :
  0 < amount -> count <> 0 ->
  first_due_date today interval start = Ok first ->
  Datetime.valid first = true ->
  generate_installment_plan today amount count interval start
  = if schedulable first count interval
    then Ok ((fun i =>
                Installment.mk (first + i * interval)
                  (installment_amount (amount / count) (amount mod count) count i))
             <$> Py.range count)
    else Raise OverflowError.
Proof.
  intros Ha Hc Hfirst Hv. rewrite plan_steps, Hfirst, bind_ok by exact Ha.
  unfold Py.floordiv, Py.mod_. rewrite (proj2 (Z.eqb_neq _ _)) by lia. rewrite !bind_ok.
  set (f := fun i : Z => _).
  assert (Hstep : forall i,
            f i = if Datetime.valid (first + i * interval)
                  then Ok (Installment.mk (first + i * interval)
                             (installment_amount (amount / count) (amount mod count)
                                count i))
                  else Raise OverflowError).
  { intros i. subst f. cbv beta.
    pose proof (due_date_cases first (i * interval) Hv) as Hd. revert Hd.
    unfold Datetime.timedelta.
    destruct (Z.abs (i * interval) <=? Datetime.max_delta_days).
    - rewrite !bind_ok. intros ->.
      destruct (Datetime.valid (first + i * interval)); reflexivity.
    - rewrite !bind_raise.
      destruct (Datetime.valid (first + i * interval)); [discriminate|reflexivity]. }
  destruct (schedulable first count interval) eqn:Hs.
  - apply collect_fmap. intros i Hi. rewrite Hstep.
    rewrite (proj1 (schedulable_spec _ _ _) Hs); [reflexivity|].
    unfold Py.range in Hi. apply elem_of_seqZ in Hi. lia.
  - destruct (Py.collect f (Py.range count)) as [out|e] eqn:Hcol.
    + exfalso. apply collect_ok_inv in Hcol.
      assert (Hall : schedulable first count interval = true); [|congruence].
      apply schedulable_spec. intros i Hi.
      assert (Hin : i ∈ Py.range count) by (apply elem_of_seqZ; lia).
      destruct (Forall2_lookup_l _ _ _ (Z.to_nat i) i Hcol) as (y & _ & Hy).
      { apply range_lookup. lia. }
      rewrite Hstep in Hy. destruct (Datetime.valid (first + i * interval));
        [reflexivity|discriminate].
    + apply collect_raise_inv in Hcol. destruct Hcol as (i & _ & Hi).
      rewrite Hstep in Hi. destruct (Datetime.valid (first + i * interval));
        [discriminate|]. congruence.
Qed.

Lemma plan_no_zero_division (today amount count interval : Z) (start : option Date) :
  generate_installment_plan today amount count interval start = Raise ZeroDivisionError ->
  count = 0.
Proof.
  unfold generate_installment_plan. destruct (amount <=? 0); [discriminate|].
  destruct (match start with Some d => Ok d | None => _ end) as [first|e] eqn:Hf.
  2:{ rewrite bind_raise. intros [= ->].
      change (first_due_date today interval start = Raise ZeroDivisionError) in Hf.
      apply first_due_date_raises in Hf. destruct Hf as [Hf _]. discriminate. }
  rewrite bind_ok. unfold Py.floordiv, Py.mod_.
  destruct (Z.eqb_spec count 0) as [->|Hc]; [reflexivity|].
  rewrite !bind_ok. intros H. apply collect_raise_inv in H.
  destruct H as (i & _ & Hi). exfalso.
  unfold Datetime.timedelta, Datetime.add in Hi.
  destruct (Z.abs (i * interval) <=? Datetime.max_delta_days);
    rewrite ?bind_ok, ?bind_raise in Hi; [|discriminate].
  destruct (Datetime.valid (first + i * interval));
    rewrite ?bind_ok, ?bind_raise in Hi; discriminate.
Qed.

(** C3 (as amended).  A plan for a non-positive amount is empty.  For a
    positive amount and at least one installment, the call returns a plan
    exactly when its due dates are dates of the calendar, which is the
    case when the first and the last one are; otherwise it raises
    [OverflowError].  A plan that is returned has exactly [count]
    installments; each of the first [count - 1] is [amount // count], the
    last one adds [amount % count], and together they sum to [amount];
    installment [i] is due on [first + i * interval_days], where [first]
    is the start date given or [interval_days] after today, so that
    consecutive due dates are [interval_days] apart: strictly later for a
    positive interval, not later otherwise.  A plan returned for 40003 in
    four installments is 10000, 10000, 10000, 10003. *)
Theorem installment_plan_correct (today amount count interval : Z) (start : option Date) :
  (forall d, start = Some d -> Datetime.valid d = true) ->
  (amount <= 0 ->
     generate_installment_plan today amount count interval start = Ok []) /\
  (0 < amount -> 1 <= count ->
     (forall e, first_due_date today interval start = Raise e ->
        generate_installment_plan today amount count interval start
        = Raise OverflowError) /\
     (forall first, first_due_date today interval start = Ok first ->
        first = default (today + interval) start /\
        (schedulable first count interval = true <->
         Datetime.valid (first + (count - 1) * interval) = true) /\
        (schedulable first count interval = false ->
         generate_installment_plan today amount count interval start
         = Raise OverflowError) /\
        (schedulable first count interval = true ->
         exists plan : list Installment.t,
           generate_installment_plan today amount count interval start = Ok plan /\
           Py.len plan = count /\
           (forall i, 0 <= i < count - 1 ->
              Installment.amount_cents <$> plan !! Z.to_nat i = Some (amount / count)) /\
           Installment.amount_cents <$> plan !! Z.to_nat (count - 1)
             = Some (amount / count + amount mod count) /\
           Py.sum (Installment.amount_cents <$> plan) = amount /\
           (forall i, 0 <= i < count ->
              Installment.due_date <$> plan !! Z.to_nat i
              = Some (first + i * interval)) /\
           (forall i a b, 0 <= i -> i + 1 < count ->
              plan !! Z.to_nat i = Some a -> plan !! Z.to_nat (i + 1) = Some b ->
              Installment.due_date b = Installment.due_date a + interval /\
              (0 < interval -> Installment.due_date a < Installment.due_date b) /\
              (interval <= 0 -> Installment.due_date b <= Installment.due_date a))))) /\
  (forall plan : list Installment.t,
     generate_installment_plan today 40003 default_num_installments
       default_interval_days start = Ok plan ->
     Installment.amount_cents <$> plan = [10000; 10000; 10000; 10003]).
Proof.
  intros Hstart. split; [|split].
  - intros Ha. unfold generate_installment_plan.
    rewrite (proj2 (Z.leb_le _ _)) by lia. reflexivity.
  - intros Ha Hc. split.
    { intros e He. apply (plan_first_raises _ _ _ _ _ e); assumption. }
    intros first Hfirst.
    destruct (first_due_date_inv _ _ _ _ Hfirst) as [Efirst Hnone].
    assert (Hv : Datetime.valid first = true).
    { destruct start as [d|]; [|apply Hnone; reflexivity].
      simpl in Hfirst. injection Hfirst as <-. apply Hstart. reflexivity. }
    split; [exact Efirst|]. split; [apply schedulable_last; assumption|].
    pose proof (plan_unfold today amount count interval start first Ha
                  ltac:(lia) Hfirst Hv) as Hplan.
    split.
    { intros Hs. rewrite Hs in Hplan. exact Hplan. }
    intros Hs. rewrite Hs in Hplan. eexists. split; [exact Hplan|].
    set (f := fun i => Installment.mk _ _).
    assert (Hlook : forall i, 0 <= i < count ->
              (f <$> Py.range count) !! Z.to_nat i = Some (f i)).
    { intros i Hi. rewrite list_lookup_fmap, range_lookup by lia. reflexivity. }
    split; [|split; [|split; [|split; [|split]]]].
    + rewrite len_fmap, len_range; lia.
    + intros i Hi. rewrite Hlook by lia. subst f. simpl. unfold installment_amount.
      destruct (Z.eqb_spec i (count - 1)); [lia|]. f_equal. lia.
    + rewrite Hlook by lia. subst f. simpl. unfold installment_amount.
      rewrite Z.eqb_refl. reflexivity.
    + rewrite <- list_fmap_compose.
      change (Installment.amount_cents ∘ f)
        with (installment_amount (amount / count) (amount mod count) count).
      pose proof (sum_installment_amounts (amount / count) (amount mod count)
                    (Z.to_nat count) (Z.to_nat count) ltac:(lia)) as Hsum.
      rewrite Z2Nat.id, Nat.eqb_refl in Hsum by lia. rewrite Hsum.
      destruct (Nat.eqb_spec (Z.to_nat count) 0); [lia|].
      pose proof (Z.div_mod amount count). lia.
    + intros i Hi. rewrite Hlook by lia. reflexivity.
    + intros i a b Hi0 Hi1 Ha' Hb'.
      rewrite Hlook in Ha' by lia. rewrite Hlook in Hb' by lia.
      inversion Ha'; inversion Hb'; subst; simpl. lia.
  - intros plan Hplan.
    destruct (plan_inv today 40003 default_num_installments default_interval_days
                start plan ltac:(reflexivity) ltac:(discriminate) Hplan)
      as (first & _ & ->).
    reflexivity.
Qed.

Lemma installment_plan_correct_witness :
  exists plan : list Installment.t,
    generate_installment_plan 738886 40003 4 14 None = Ok plan /\
    Py.len plan = 4 /\
    Py.sum (Installment.amount_cents <$> plan) = 40003 /\
    Installment.due_date <$> plan !! Z.to_nat 3 = Some (738900 + 3 * 14).
Proof.
  destruct (installment_plan_correct 738886 40003 4 14 None ltac:(discriminate))
    as (_ & H & _).
  destruct (H ltac:(lia) ltac:(lia)) as (_ & H').
  destruct (H' 738900 ltac:(reflexivity)) as (_ & _ & _ & H'').
  destruct (H'' ltac:(reflexivity)) as (plan & H1 & H2 & _ & _ & H5 & H6 & _).
  exists plan. split; [exact H1|]. split; [exact H2|]. split; [exact H5|].
  apply H6. lia.
Defined.

(** The call of 2024-01-01 with a start on the same day and an interval
    of 3000000 days has no last due date in the calendar; with an
    interval of 0 days all due dates are the same day. *)
Lemma installment_plan_claim_fails :
  ~ installment_plan_claim 738886 40003 4 3000000 (Some 738886) /\
  ~ installment_plan_claim 738886 40003 4 0 (Some 738886).
Proof.
  split.
  - intros (_ & H). destruct (H ltac:(lia) ltac:(lia)) as (plan & Hplan & _).
    vm_compute in Hplan. discriminate.
  - intros (_ & H).
    destruct (H ltac:(lia) ltac:(lia)) as (plan & Hplan & _ & _ & _ & _ & _ & Hdue).
    vm_compute in Hplan. injection Hplan as <-.
    destruct (Hdue 0 (Installment.mk 738886 10000) (Installment.mk 738886 10000)
                ltac:(lia) ltac:(lia) eq_refl eq_refl) as [_ Hlt].
    simpl in Hlt. lia.
Qed.

(** C10 (as amended).  With a positive amount the two divisions are
    reached unguarded once the first due date is known: the call with
    [num_installments = 0] returns no plan; it raises [ZeroDivisionError]
    when a start date is given or [interval_days] after today is a date,
    and [OverflowError] when it is not, since the default start date is
    computed before the division.  No other count raises
    [ZeroDivisionError]. *)
Theorem installment_plan_zero_count (today amount interval : Z) (start : option Date) :
  0 < amount ->
  (forall plan : list Installment.t,
     generate_installment_plan today amount 0 interval start <> Ok plan) /\
  (forall first, first_due_date today interval start = Ok first ->
     generate_installment_plan today amount 0 interval start = Raise ZeroDivisionError) /\
  (forall e, first_due_date today interval start = Raise e ->
     start = None /\
     generate_installment_plan today amount 0 interval start = Raise OverflowError) /\
  (forall d, start = Some d ->
     generate_installment_plan today amount 0 interval start = Raise ZeroDivisionError) /\
  (start = None -> Datetime.valid today = true ->
     (Datetime.valid (today + interval) = true ->
      generate_installment_plan today amount 0 interval start = Raise ZeroDivisionError) /\
     (Datetime.valid (today + interval) = false ->
      generate_installment_plan today amount 0 interval start = Raise OverflowError)) /\
  (forall count,
     generate_installment_plan today amount count interval start = Raise ZeroDivisionError ->
     count = 0).
Proof.
  intros Ha.
  assert (Hok : forall first, first_due_date today interval start = Ok first ->
            generate_installment_plan today amount 0 interval start
            = Raise ZeroDivisionError)
    by (intros first Hf; apply (plan_zero _ _ _ _ first); assumption).
  assert (Hraise : forall e, first_due_date today interval start = Raise e ->
            start = None /\
            generate_installment_plan today amount 0 interval start = Raise OverflowError).
  { intros e He. split; [apply (first_due_date_raises _ _ _ _ He)|].
    apply (plan_first_raises _ _ _ _ _ e); assumption. }
  split; [|split; [exact Hok|split; [exact Hraise|split; [|split]]]].
  - intros plan Hplan.
    destruct (first_due_date today interval start) as [first|e] eqn:Hf.
    + rewrite (Hok first eq_refl) in Hplan. discriminate.
    + destruct (Hraise e eq_refl) as [_ Hr]. rewrite Hr in Hplan. discriminate.
  - intros d ->. apply (Hok d). reflexivity.
  - intros -> Hv. unfold first_due_date in Hok, Hraise.
    rewrite (due_date_cases today interval Hv) in Hok, Hraise. split.
    + intros Hd. rewrite Hd in Hok. apply (Hok _ eq_refl).
    + intros Hd. rewrite Hd in Hraise. apply (Hraise _ eq_refl).
  - intros count. apply plan_no_zero_division.
Qed.

Lemma installment_plan_zero_count_witness :
  generate_installment_plan 738886 40003 0 14 None = Raise ZeroDivisionError.
Proof.
  destruct (installment_plan_zero_count 738886 40003 14 None ltac:(lia))
    as (_ & H & _).
  apply (H 738900). reflexivity.
Defined.

(** On 2024-01-01 the default start date of an interval of 3000000 days
    is beyond the calendar: the call fails before it divides. *)
Lemma installment_plan_zero_count_overflow :
  ~ zero_count_claim 738886 40003 3000000 None.
Proof.
  intros H. specialize (H ltac:(lia)). vm_compute in H. discriminate.
Qed.

(** ** Credit limit policy *)

(** C2.  [determine_credit_limit] is a function of the score alone and is
    defined on every float; its bands are closed on the left and open on
    the right: a score in [0.0, 0.2) is declined with limit 0 (high_risk),
    one in [0.2, 0.4) gets 10000 (moderate_risk), one in [0.4, 0.7) gets
    40000 (acceptable_risk), one in [0.7, 1.0] gets 100000 (low_risk); in
    particular 0.199, 0.2, 0.399, 0.4, 0.699 and 0.7 fall as the
    specification lists them.  The bounds are the float literals of the
    source, compared as floats. *)
Theorem determine_credit_limit_bands (score : float) :
  ((0.0 <=? score)%float = true -> (score <? 0.2)%float = true ->
     determine_credit_limit score = (false, 0, "high_risk"%string)) /\
  ((0.2 <=? score)%float = true -> (score <? 0.4)%float = true ->
     determine_credit_limit score = (true, 10000, "moderate_risk"%string)) /\
  ((0.4 <=? score)%float = true -> (score <? 0.7)%float = true ->
     determine_credit_limit score = (true, 40000, "acceptable_risk"%string)) /\
  ((0.7 <=? score)%float = true -> (score <=? 1.0)%float = true ->
     determine_credit_limit score = (true, 100000, "low_risk"%string)) /\
  (determine_credit_limit score = (false, 0, "high_risk"%string) \/
   determine_credit_limit score = (true, 10000, "moderate_risk"%string) \/
   determine_credit_limit score = (true, 40000, "acceptable_risk"%string) \/
   determine_credit_limit score = (true, 100000, "low_risk"%string)) /\
  determine_credit_limit 0.199 = (false, 0, "high_risk"%string) /\
  determine_credit_limit 0.2 = (true, 10000, "moderate_risk"%string) /\
  determine_credit_limit 0.399 = (true, 10000, "moderate_risk"%string) /\
  determine_credit_limit 0.4 = (true, 40000, "acceptable_risk"%string) /\
  determine_credit_limit 0.699 = (true, 40000, "acceptable_risk"%string) /\
  determine_credit_limit 0.7 = (true, 100000, "low_risk"%string).
Proof.
  assert (Hge : forall a b : float,
            (a <=? score)%float = true ->
            key_le (SFkey (Prim2SF b)) (SFkey (Prim2SF a)) ->
            is_nan_SF (Prim2SF b) = false ->
            (score <? b)%float = false).
  { intros a b Ha Hba Hb. apply leb_key in Ha. destruct Ha as (Ha & Hs & Hle).
    apply ltb_false_key; [assumption..|].
    unfold key_le in *. lia. }
  assert (Hk : forall b : float, is_nan_SF (Prim2SF b) = false ->
            key_le (SFkey (Prim2SF b)) (SFkey (Prim2SF b))).
  { intros b _. unfold key_le. lia. }
  unfold determine_credit_limit.
  split; [|split; [|split; [|split; [|split]]]].
  - intros _ ->. reflexivity.
  - intros H1 ->. rewrite (Hge _ 0.2%float H1); [reflexivity| |reflexivity].
    apply Hk; reflexivity.
  - intros H1 ->.
    rewrite (Hge _ 0.2%float H1), (Hge _ 0.4%float H1);
      [reflexivity | apply Hk; reflexivity | reflexivity | | reflexivity].
    key_compute.
  - intros H1 _.
    rewrite (Hge _ 0.2%float H1), (Hge _ 0.4%float H1), (Hge _ 0.7%float H1);
      [reflexivity | apply Hk; reflexivity | reflexivity | | reflexivity | | reflexivity].
    + key_compute.
    + key_compute.
  - destruct (score <? 0.2)%float, (score <? 0.4)%float, (score <? 0.7)%float; auto.
  - repeat split; reflexivity.
Qed.

Lemma determine_credit_limit_bands_witness :
  determine_credit_limit 0.5 = (true, 40000, "acceptable_risk"%string).
Proof.
  destruct (determine_credit_limit_bands 0.5) as (_ & _ & H & _).
  apply H; reflexivity.
Defined.

(** ** Webhook delivery *)

Section LedgerFacts.
Import Ledger.
Variable max_retries : Z.
Variable backoff_base : float.
Variable endpoint : nat -> post_result.

Local Abbreviation retry_loop := (retry_loop max_retries backoff_base endpoint).

Lemma try_post_ok (r : post_result) :
  try_post r = Ok tt <-> exists c, r = Response c /\ 200 <= c <= 299.
Proof.
  destruct r as [c| |]; simpl; unfold is_success.
  - split.
    + destruct (Z.leb_spec 200 c), (Z.leb_spec c 299); simpl; try discriminate.
      intros _. exists c. split; [reflexivity|lia].
    + intros (c' & [= <-] & Hc).
      rewrite (proj2 (Z.leb_le 200 c)), (proj2 (Z.leb_le c 299)) by lia.
      reflexivity.
  - split; [discriminate|]. intros (c & ? & _). discriminate.
  - split; [discriminate|]. intros (c & ? & _). discriminate.
Qed.

Lemma try_post_fails (r : post_result) :
  fails r -> exists e, try_post r = Raise e /\ caught e = true.
Proof.
  unfold fails. destruct r as [c| |]; simpl.
  - destruct (is_success c); [congruence|]. intros _. eexists. split; reflexivity.
  - intros _. eexists. split; reflexivity.
  - intros _. eexists. split; reflexivity.
Qed.

Lemma try_post_cases (r : post_result) :
  try_post r = Ok tt \/ fails r.
Proof.
  unfold fails. destruct (try_post r) as [[]|e]; [left; reflexivity|right; discriminate].
Qed.

(** The float [2^n] is what the conversion of the integer [2^n] gives,
    up to the largest power of two of the format. *)
Lemma float_of_int_pow2 (n : Z) :
  0 <= n <= 1023 -> Py.float_of_int (2 ^ n) = Ok (pow2 n).
Proof.
  intros Hn.
  assert (Hall : forallb (fun n =>
                    match Py.float_of_int (2 ^ n) with
                    | Ok f => PrimFloat.Leibniz.eqb f (pow2 n)
                    | Raise _ => false
                    end) (seqZ 0 1024) = true) by (vm_compute; reflexivity).
  rewrite forallb_forall in Hall.
  specialize (Hall n). 
  destruct (Py.float_of_int (2 ^ n)) as [f|e].
  - f_equal. apply FloatAxioms.Leibniz.eqb_spec. apply Hall.
    apply list_elem_of_In, elem_of_seqZ. lia.
  - discriminate Hall. apply list_elem_of_In, elem_of_seqZ. lia.
Qed.

Lemma backoff_delay (attempt : Z) :
  1 <= attempt <= 1024 ->
  backoff backoff_base attempt = Ok (spec_delay backoff_base attempt).
Proof.
  intros Ha. unfold backoff, Py.mul_float_int, spec_delay.
  rewrite float_of_int_pow2 by lia. reflexivity.
Qed.

(** One iteration of the loop. *)
Lemma retry_loop_success (fuel : nat) (attempt : Z) :
  attempt < max_retries ->
  try_post (endpoint (Z.to_nat attempt)) = Ok tt ->
  retry_loop (S fuel) attempt = ([Post attempt], Returned).
Proof.
  intros Ha Hok. simpl. rewrite (proj2 (Z.ltb_lt _ _)) by lia.
  rewrite Hok. reflexivity.
Qed.

Lemma retry_loop_last_failure (fuel : nat) (attempt : Z) (e : exn) :
  attempt < max_retries -> max_retries <= attempt + 1 ->
  try_post (endpoint (Z.to_nat attempt)) = Raise e -> caught e = true ->
  retry_loop (S fuel) attempt = ([Post attempt; FailureInc], Raised e).
Proof.
  intros Ha Hlast Hfail Hc. simpl. rewrite (proj2 (Z.ltb_lt _ _)) by lia.
  rewrite Hfail, Hc. simpl.
  rewrite (proj2 (Z.geb_le _ _)) by lia. reflexivity.
Qed.

Lemma retry_loop_failure (fuel : nat) (attempt : Z) (e : exn) (seconds : float) :
  attempt + 1 < max_retries ->
  try_post (endpoint (Z.to_nat attempt)) = Raise e -> caught e = true ->
  backoff backoff_base (attempt + 1) = Ok seconds ->
  retry_loop (S fuel) attempt
  = (Post attempt :: FailureInc :: Sleep seconds :: (retry_loop fuel (attempt + 1)).1,
     (retry_loop fuel (attempt + 1)).2).
Proof.
  intros Ha Hfail Hc Hb. simpl. rewrite (proj2 (Z.ltb_lt _ _)) by lia.
  rewrite Hfail, Hc. simpl.
  destruct (Z.geb_spec (attempt + 1) max_retries); [lia|].
  rewrite Hb. destruct (retry_loop fuel (attempt + 1)). reflexivity.
Qed.

Lemma retry_loop_head (fuel : nat) (attempt : Z) :
  attempt < max_retries ->
  exists trace o, retry_loop (S fuel) attempt = (Post attempt :: trace, o).
Proof.
  intros Ha. simpl. rewrite (proj2 (Z.ltb_lt _ _)) by lia.
  destruct (try_post _) as [[]|e]; [eexists _, _; reflexivity|].
  destruct (negb (caught e)); [eexists _, _; reflexivity|].
  destruct (attempt + 1 >=? max_retries); [eexists _, _; reflexivity|].
  destruct (backoff _ _); [|eexists _, _; reflexivity].
  destruct (Ledger.retry_loop _ _ _ fuel _). eexists _, _; reflexivity.
Qed.

Lemma retry_loop_done (fuel : nat) (attempt : Z) :
  max_retries <= attempt -> retry_loop fuel attempt = ([], Returned).
Proof.
  intros Ha. destruct fuel; simpl; rewrite (proj2 (Z.ltb_ge _ _)) by lia; reflexivity.
Qed.

(** The loop never runs out of fuel when it is given the remaining budget. *)
Lemma retry_loop_total (fuel : nat) (attempt : Z) :
  (Z.to_nat (max_retries - attempt) <= fuel)%nat ->
  (retry_loop fuel attempt).2 <> OutOfFuel.
Proof.
  revert attempt. induction fuel as [|fuel IH]; intros attempt Hf.
  - rewrite retry_loop_done by lia. discriminate.
  - simpl. destruct (Z.ltb_spec attempt max_retries); [|discriminate].
    destruct (try_post _) as [[]|e]; [discriminate|].
    destruct (caught e); simpl; [|discriminate].
    destruct (Z.geb_spec (attempt + 1) max_retries); [discriminate|].
    destruct (backoff _ _); [|discriminate].
    specialize (IH (attempt + 1) ltac:(lia)).
    destruct (retry_loop fuel (attempt + 1)). exact IH.
Qed.

Lemma retry_loop_fuel (fuel : nat) (attempt : Z) :
  (Z.to_nat (max_retries - attempt) <= fuel)%nat ->
  retry_loop fuel attempt = retry_loop (Z.to_nat (max_retries - attempt)) attempt.
Proof.
  revert attempt. induction fuel as [|fuel IH]; intros attempt Hf.
  - replace (Z.to_nat (max_retries - attempt)) with 0%nat by lia. reflexivity.
  - destruct (Z.ltb_spec attempt max_retries) as [Hlt|Hge].
    + replace (Z.to_nat (max_retries - attempt))
        with (S (Z.to_nat (max_retries - (attempt + 1)))) by lia.
      simpl. rewrite (IH (attempt + 1)) by lia. reflexivity.
    + rewrite !retry_loop_done by lia. reflexivity.
Qed.

Lemma failure_steps_cons (a n : Z) :
  0 < n ->
  failure_steps backoff_base a n
  = Post a :: FailureInc :: Sleep (spec_delay backoff_base (a + 1))
      :: failure_steps backoff_base (a + 1) (n - 1).
Proof.
  intros Hn. unfold failure_steps. rewrite (seqZ_cons a) by lia.
  replace (Z.succ a) with (a + 1) by lia.
  replace (Z.pred n) with (n - 1) by lia. reflexivity.
Qed.

(** [n] failures in a row, neither of them the last attempt. *)
Lemma retry_loop_failures (n : nat) (fuel : nat) (a : Z) :
  0 <= a -> a + Z.of_nat n < max_retries -> a + Z.of_nat n <= 1024 ->
  (forall i, a <= i < a + Z.of_nat n -> fails (endpoint (Z.to_nat i))) ->
  retry_loop (n + fuel) a
  = (failure_steps backoff_base a (Z.of_nat n)
       ++ (retry_loop fuel (a + Z.of_nat n)).1,
     (retry_loop fuel (a + Z.of_nat n)).2).
Proof.
  revert a. induction n as [|n IH]; intros a Ha Hmax Hbound Hfail.
  - simpl. rewrite Z.add_0_r. destruct (retry_loop fuel a). reflexivity.
  - destruct (try_post_fails _ (Hfail a ltac:(lia))) as (e & He & Hc).
    change (S n + fuel)%nat with (S (n + fuel)).
    rewrite (retry_loop_failure _ _ e (spec_delay backoff_base (a + 1)));
      [|lia|assumption..|apply backoff_delay; lia].
    rewrite (IH (a + 1)); [|lia..|intros i Hi; apply Hfail; lia].
    replace (a + 1 + Z.of_nat n) with (a + Z.of_nat (S n)) by lia.
    rewrite (failure_steps_cons a (Z.of_nat (S n))) by lia.
    replace (Z.of_nat (S n) - 1) with (Z.of_nat n) by lia.
    reflexivity.
Qed.

Lemma attempts_cons_post (a : Z) (trace : list event) :
  attempts (Post a :: trace) = 1 + attempts trace.
Proof. unfold attempts, Py.len. simpl. lia. Qed.

Lemma attempts_cons_other (ev : event) (trace : list event) :
  is_post ev = false -> attempts (ev :: trace) = attempts trace.
Proof. intros Hev. unfold attempts. simpl. rewrite Hev. reflexivity. Qed.

Lemma attempts_failure_steps (n : nat) (a : Z) (trace : list event) :
  attempts (failure_steps backoff_base a (Z.of_nat n) ++ trace)
  = Z.of_nat n + attempts trace.
Proof.
  revert a. induction n as [|n IH]; intros a.
  - reflexivity.
  - rewrite failure_steps_cons by lia.
    replace (Z.of_nat (S n) - 1) with (Z.of_nat n) by lia.
    rewrite <- !app_comm_cons, attempts_cons_post.
    rewrite !attempts_cons_other by reflexivity.
    rewrite IH. lia.
Qed.

Lemma sleeps_failure_steps (n : nat) (a : Z) (trace : list event) :
  sleeps (failure_steps backoff_base a (Z.of_nat n) ++ trace)
  = (spec_delay backoff_base <$> seqZ (a + 1) (Z.of_nat n)) ++ sleeps trace.
Proof.
  revert a. induction n as [|n IH]; intros a.
  - reflexivity.
  - rewrite failure_steps_cons by lia.
    replace (Z.of_nat (S n) - 1) with (Z.of_nat n) by lia.
    rewrite (seqZ_cons (a + 1)) by lia.
    replace (Z.pred (Z.of_nat (S n))) with (Z.of_nat n) by lia.
    replace (Z.succ (a + 1)) with (a + 1 + 1) by lia.
    simpl. rewrite IH. reflexivity.
Qed.

End LedgerFacts.

Lemma retry_schedule_prefix (max_retries : Z) (backoff_base : float)
    (endpoint : nat -> Ledger.post_result) (k : Z) :
  1 <= k <= max_retries -> k <= 1025 ->
  (forall i, 1 <= i < k -> Ledger.fails (endpoint (Z.to_nat (i - 1)))) ->
  Ledger.send_approval_event max_retries backoff_base endpoint
  = (Ledger.failure_steps backoff_base 0 (k - 1)
       ++ (Ledger.retry_loop max_retries backoff_base endpoint
             (S (Z.to_nat (max_retries - k))) (k - 1)).1,
     (Ledger.retry_loop max_retries backoff_base endpoint
        (S (Z.to_nat (max_retries - k))) (k - 1)).2).
Proof.
  intros Hk Hbound Hfail. unfold Ledger.send_approval_event.
  replace (Z.to_nat max_retries)
    with (Z.to_nat (k - 1) + S (Z.to_nat (max_retries - k)))%nat by lia.
  rewrite retry_loop_failures; rewrite ?Z2Nat.id by lia; try lia.
  - reflexivity.
  - intros i Hi. replace i with (i + 1 - 1) by lia. apply Hfail. lia.
Qed.




(** Beyond 1025 retries the factor [2 ** (attempt - 1)] of the 1025th sleep
    no longer converts to a float. *)
Lemma retry_loop_backoff_overflow :
  Ledger.backoff 1 1025 = Raise OverflowError.
Proof. vm_compute. reflexivity. Qed.



(** ** Transaction analysis *)

Lemma insert_by_date_perm (t : Transaction.t) (l : list Transaction.t) :
  insert_by_date t l ≡ₚ t :: l.
Proof.
  induction l as [|u l IH]; simpl; [reflexivity|].
  destruct (Transaction.date t <=? Transaction.date u); [reflexivity|].
  rewrite IH. apply Permutation_swap.
Qed.

Lemma sorted_by_date_perm (l : list Transaction.t) : sorted_by_date l ≡ₚ l.
Proof.
  induction l as [|t l IH]; simpl; [reflexivity|].
  rewrite insert_by_date_perm, IH. reflexivity.
Qed.

Lemma insert_by_date_sorted (t : Transaction.t) (l : list Transaction.t) :
  StronglySorted date_le l -> StronglySorted date_le (insert_by_date t l).
Proof.
  induction 1 as [|u l Hl IH Hu]; simpl.
  - repeat constructor.
  - destruct (Z.leb_spec (Transaction.date t) (Transaction.date u)) as [Hle|Hgt].
    + constructor; [constructor; assumption|].
      constructor; [exact Hle|].
      eapply Forall_impl; [exact Hu|]. unfold date_le. intros; lia.
    + constructor; [exact IH|].
      rewrite insert_by_date_perm. constructor; [unfold date_le; lia|exact Hu].
Qed.

Lemma sorted_by_date_sorted (l : list Transaction.t) :
  StronglySorted date_le (sorted_by_date l).
Proof.
  induction l as [|t l IH]; simpl; [constructor|].
  apply insert_by_date_sorted, IH.
Qed.

(** The sort is stable: the transactions of one date keep their order. *)
Lemma insert_by_date_filter (d : Date) (t : Transaction.t) (l : list Transaction.t) :
  List.filter (on_date d) (insert_by_date t l) = List.filter (on_date d) (t :: l).
Proof.
  induction l as [|u l IH]; simpl; [reflexivity|].
  destruct (Z.leb_spec (Transaction.date t) (Transaction.date u)) as [Hle|Hgt];
    [reflexivity|].
  simpl. rewrite IH. simpl. unfold on_date.
  destruct (Z.eqb_spec (Transaction.date t) d), (Z.eqb_spec (Transaction.date u) d);
    try reflexivity. lia.
Qed.

Lemma sorted_by_date_stable (d : Date) (l : list Transaction.t) :
  List.filter (on_date d) (sorted_by_date l) = List.filter (on_date d) l.
Proof.
  induction l as [|t l IH]; simpl; [reflexivity|].
  rewrite insert_by_date_filter. simpl. rewrite IH. reflexivity.
Qed.

(** The smallest and the largest date. *)
Lemma min_date_cons (t : Transaction.t) (l : list Transaction.t) :
  l <> [] -> min_date (t :: l) = Z.min (Transaction.date t) (min_date l).
Proof.
  destruct l as [|u l]; [congruence|]. intros _. unfold min_date. simpl.
  revert t u. induction l as [|v l IH]; intros t u; simpl; [lia|].
  specialize (IH t u). simpl in *. lia.
Qed.

Lemma max_date_cons (t : Transaction.t) (l : list Transaction.t) :
  l <> [] -> max_date (t :: l) = Z.max (Transaction.date t) (max_date l).
Proof.
  destruct l as [|u l]; [congruence|]. intros _. unfold max_date. simpl.
  revert t u. induction l as [|v l IH]; intros t u; simpl; [lia|].
  specialize (IH t u). simpl in *. lia.
Qed.

Lemma min_max_date_bounds (l : list Transaction.t) (t : Transaction.t) :
  t ∈ l -> min_date l <= Transaction.date t <= max_date l.
Proof.
  induction l as [|u l IH]; intros Hin; [inversion Hin|].
  destruct l as [|v l].
  - apply list_elem_of_singleton in Hin. subst. unfold min_date, max_date. simpl. lia.
  - rewrite min_date_cons, max_date_cons by discriminate.
    apply elem_of_cons in Hin. destruct Hin as [->|Hin]; [lia|].
    specialize (IH Hin). lia.
Qed.

Lemma min_date_attained (l : list Transaction.t) :
  l <> [] -> exists t, t ∈ l /\ Transaction.date t = min_date l.
Proof.
  induction l as [|u l IH]; [congruence|]. intros _.
  destruct l as [|v l].
  - exists u. split; [left|reflexivity].
  - rewrite min_date_cons by discriminate.
    destruct IH as (t & Hin & Ht); [discriminate|].
    destruct (Z.le_gt_cases (Transaction.date u) (min_date (v :: l))).
    + exists u. split; [left|lia].
    + exists t. split; [right; exact Hin|lia].
Qed.

Lemma max_date_attained (l : list Transaction.t) :
  l <> [] -> exists t, t ∈ l /\ Transaction.date t = max_date l.
Proof.
  induction l as [|u l IH]; [congruence|]. intros _.
  destruct l as [|v l].
  - exists u. split; [left|reflexivity].
  - rewrite max_date_cons by discriminate.
    destruct IH as (t & Hin & Ht); [discriminate|].
    destruct (Z.le_gt_cases (max_date (v :: l)) (Transaction.date u)).
    + exists u. split; [left|lia].
    + exists t. split; [right; exact Hin|lia].
Qed.

Lemma StronglySorted_last_max (l : list Transaction.t) (z : Transaction.t) :
  StronglySorted date_le l -> last l = Some z ->
  forall t, t ∈ l -> Transaction.date t <= Transaction.date z.
Proof.
  induction 1 as [|u l Hl IH Hu]; intros Hlast t Hin; [inversion Hin|].
  destruct l as [|v l].
  - simpl in Hlast. inversion Hlast; subst.
    apply list_elem_of_singleton in Hin. subst. lia.
  - change (last (u :: v :: l)) with (last (v :: l)) in Hlast.
    apply elem_of_cons in Hin. destruct Hin as [->|Hin]; [|apply IH; assumption].
    rewrite Forall_forall in Hu. apply Hu.
    apply last_Some_elem_of. exact Hlast.
Qed.

Lemma sorted_by_date_first (l : list Transaction.t) :
  l <> [] ->
  exists t, Py.first (sorted_by_date l) = Ok t /\ Transaction.date t = min_date l.
Proof.
  intros Hl. pose proof (sorted_by_date_sorted l) as Hs.
  pose proof (sorted_by_date_perm l) as Hp.
  destruct (sorted_by_date l) as [|t s] eqn:Hsorted.
  { apply Permutation_nil_l in Hp. congruence. }
  exists t. split; [reflexivity|].
  destruct (min_date_attained l Hl) as (m & Hm & Hdm).
  assert (Ht : t ∈ l) by (rewrite <- Hp; left).
  pose proof (min_max_date_bounds l t Ht).
  assert (Transaction.date t <= Transaction.date m); [|lia].
  rewrite <- Hp in Hm. apply elem_of_cons in Hm. destruct Hm as [->|Hm]; [lia|].
  inversion Hs as [|? ? _ Hall]; subst. rewrite Forall_forall in Hall.
  apply Hall, Hm.
Qed.

Lemma sorted_by_date_last (l : list Transaction.t) :
  l <> [] ->
  exists t, Py.last_ (sorted_by_date l) = Ok t /\ Transaction.date t = max_date l.
Proof.
  intros Hl. pose proof (sorted_by_date_sorted l) as Hs.
  pose proof (sorted_by_date_perm l) as Hp.
  unfold Py.last_.
  destruct (last (sorted_by_date l)) as [t|] eqn:Hlast.
  2:{ apply last_None in Hlast. rewrite Hlast in Hp.
      apply Permutation_nil_l in Hp. congruence. }
  exists t. split; [reflexivity|].
  destruct (max_date_attained l Hl) as (m & Hm & Hdm).
  assert (Ht : t ∈ l) by (rewrite <- Hp; apply last_Some_elem_of; exact Hlast).
  pose proof (min_max_date_bounds l t Ht).
  assert (Transaction.date m <= Transaction.date t); [|lia].
  apply (StronglySorted_last_max _ _ Hs Hlast). rewrite Hp. exact Hm.
Qed.

(** The per-date map holds, for each date, the balance of the last
    transaction of that date. *)
Lemma build_balance_by_date_lookup (l : list Transaction.t) (d : Date) :
  build_balance_by_date l !! d = known_balance l d.
Proof.
  unfold build_balance_by_date, known_balance.
  induction l as [|t l IH] using rev_ind; [reflexivity|].
  rewrite foldl_snoc, List.filter_app. simpl. unfold on_date at 2.
  destruct (Z.eqb_spec (Transaction.date t) d) as [->|Hne].
  - rewrite lookup_insert_eq, last_snoc. reflexivity.
  - rewrite lookup_insert_ne, app_nil_r by assumption. exact IH.
Qed.

Lemma generate_date_range_seqZ (lo hi : Date) :
  generate_date_range lo hi = seqZ lo (hi - lo + 1).
Proof.
  unfold generate_date_range, Py.range.
  change (fun i => lo + i) with (Z.add lo).
  rewrite fmap_add_seqZ. f_equal. lia.
Qed.

(** The carry-forward loop, after [k] days from [lo]. *)
Lemma carry_forward_days (m : gmap Date Z) (lo : Date) (k : nat) :
  foldl (carry_step m) (0, []) (seqZ lo (Z.of_nat k))
  = (match k with
     | O => 0
     | S k' => carried_balance (fun d => m !! d) (lo + Z.of_nat k') k'
     end,
     (fun d => carried_balance (fun d => m !! d) d (Z.to_nat (d - lo)))
       <$> seqZ lo (Z.of_nat k)).
Proof.
  induction k as [|k IH]; [reflexivity|].
  rewrite seqZ_S, foldl_snoc, IH, fmap_app. unfold carry_step at 1. simpl.
  assert (Hstep : match m !! (lo + Z.of_nat k) with
                  | Some b => b
                  | None => match k with
                            | O => 0
                            | S k' => carried_balance (fun d => m !! d) (lo + Z.of_nat k') k'
                            end
                  end = carried_balance (fun d => m !! d) (lo + Z.of_nat k) k).
  { destruct k as [|k']; simpl; [reflexivity|].
    destruct (m !! (lo + Z.of_nat (S k'))); [reflexivity|].
    f_equal. lia. }
  rewrite Hstep. f_equal. f_equal. f_equal. f_equal. lia.
Qed.

Lemma carried_balance_ext (f g : Date -> option Z) (d : Date) (n : nat) :
  (forall x, f x = g x) -> carried_balance f d n = carried_balance g d n.
Proof.
  intros Hfg. revert d. induction n as [|n IH]; intros d; simpl; rewrite Hfg.
  - reflexivity.
  - destruct (g d); [reflexivity|apply IH].
Qed.

Lemma daily_balances_of_spec (txns : list Transaction.t) :
  daily_balances_of (sorted_by_date txns) (min_date txns) (max_date txns)
  = day_balance txns <$> generate_date_range (min_date txns) (max_date txns).
Proof.
  unfold daily_balances_of, carry_forward.
  rewrite generate_date_range_seqZ.
  destruct (Z.le_gt_cases (max_date txns - min_date txns + 1) 0) as [Hn|Hn].
  { rewrite seqZ_nil by lia. reflexivity. }
  rewrite <- (Z2Nat.id (max_date txns - min_date txns + 1)) by lia.
  rewrite carry_forward_days. simpl.
  apply list_fmap_ext. intros _ d _. unfold day_balance.
  apply carried_balance_ext. intros x. apply build_balance_by_date_lookup.
Qed.

Lemma average_range (f : Date -> Z) (lo hi : Date) :
  lo <= hi ->
  average (f <$> generate_date_range lo hi)
  = Py.sum (f <$> generate_date_range lo hi) / (hi - lo + 1).
Proof.
  intros Hle. unfold average.
  assert (Hlen : Py.len (f <$> generate_date_range lo hi) = hi - lo + 1).
  { rewrite len_fmap, generate_date_range_seqZ. unfold Py.len.
    rewrite length_seqZ. lia. }
  destruct (f <$> generate_date_range lo hi) as [|x l] eqn:Hl.
  - unfold Py.len in Hlen. simpl in Hlen. lia.
  - rewrite Hlen. reflexivity.
Qed.

(** The analyzer, unfolded on a non-empty input: only the ratio can raise. *)
Lemma analyze_transactions_unfold (txns : list Transaction.t) :
  txns <> [] ->
  analyze_transactions txns
  = (income_spend_ratio ←
       income_spend_ratio_of (total_income_of txns) (total_spend_of txns);
     Ok (RiskFactors.mk
           (Py.sum (day_balance txns <$> generate_date_range (min_date txns) (max_date txns))
              / (max_date txns - min_date txns + 1))
           (total_income_of txns) (total_spend_of txns) income_spend_ratio
           (nsf_count_of txns) (Py.len txns)
           (Z.of_nat (size (unique_dates_of txns))))).
Proof.
  intros Hne.
  destruct (sorted_by_date_first txns Hne) as (t0 & Hfirst & Ht0).
  destruct (sorted_by_date_last txns Hne) as (t1 & Hlast & Ht1).
  assert (Hle : min_date txns <= max_date txns).
  { destruct txns as [|t l]; [congruence|].
    pose proof (min_max_date_bounds (t :: l) t ltac:(left)). lia. }
  unfold analyze_transactions. destruct txns as [|t l]; [congruence|].
  rewrite Hfirst, Hlast, !bind_ok, Ht0, Ht1.
  rewrite daily_balances_of_spec, average_range by exact Hle.
  reflexivity.
Qed.
Lemma day_balance_input (txns : list Transaction.t) (d : Date) :
  day_balance txns d = input_day_balance txns d.
Proof.
  unfold day_balance, input_day_balance. apply carried_balance_ext.
  intros x. unfold known_balance. rewrite sorted_by_date_stable. reflexivity.
Qed.

(** C4.  For a non-empty list of transactions, with [lo] and [hi] the
    smallest and the largest date of the input.  The list the code sorts
    holds the transactions of the input, in ascending order of date and,
    within a date, in the order of the input; its first and last dates
    are [lo] and [hi].  The expanded range is the list of the days from
    [lo] to [hi], each exactly once.  The balance of a day, read off the
    input, is the balance of the last transaction of that day (in sorted
    order, which is its order in the input), or else the balance of the
    day before; the first day always has a transaction, so that the
    initial 0 is never used.  The daily balances the code builds are
    these, and [avg_daily_balance_cents] is the floor of their sum
    divided by the number of days. *)
Theorem analyze_transactions_avg_daily_balance (txns : list Transaction.t) :
  txns <> [] ->
  let lo := min_date txns in
  let hi := max_date txns in
  let sorted_txns := sorted_by_date txns in
  let days := seqZ lo (hi - lo + 1) in
  (sorted_txns ≡ₚ txns /\
   StronglySorted date_le sorted_txns /\
   (forall d, List.filter (on_date d) sorted_txns = List.filter (on_date d) txns)) /\
  (exists first_txn last_txn,
     Py.first sorted_txns = Ok first_txn /\ Transaction.date first_txn = lo /\
     Py.last_ sorted_txns = Ok last_txn /\ Transaction.date last_txn = hi) /\
  (generate_date_range lo hi = days /\ NoDup days /\
   (forall d, d ∈ days <-> lo <= d <= hi) /\
   Py.len days = hi - lo + 1 /\ 1 <= hi - lo + 1) /\
  (forall d t, last (List.filter (on_date d) txns) = Some t ->
     last (List.filter (on_date d) sorted_txns) = Some t /\
     input_day_balance txns d = Transaction.balance_cents t) /\
  (forall d, lo < d -> List.filter (on_date d) txns = [] ->
     input_day_balance txns d = input_day_balance txns (d - 1)) /\
  (exists t, last (List.filter (on_date lo) txns) = Some t) /\
  daily_balances_of sorted_txns lo hi = input_day_balance txns <$> days /\
  (forall rf, analyze_transactions txns = Ok rf ->
     RiskFactors.avg_daily_balance_cents rf
     = Py.sum (input_day_balance txns <$> days) / (hi - lo + 1)) /\
  (forall ratio,
     income_spend_ratio_of (total_income_of txns) (total_spend_of txns) = Ok ratio ->
     exists rf, analyze_transactions txns = Ok rf).
Proof.
  intros Hne lo hi sorted_txns days.
  destruct (sorted_by_date_first txns Hne) as (t0 & Hfirst & Ht0).
  destruct (sorted_by_date_last txns Hne) as (t1 & Hlast & Ht1).
  assert (Hext : day_balance txns <$> days = input_day_balance txns <$> days).
  { apply list_fmap_ext. intros i d _. apply day_balance_input. }
  assert (Hlohi : lo <= hi).
  { destruct (min_date_attained txns Hne) as (t & Hin & Hd).
    pose proof (min_max_date_bounds txns t Hin). subst lo hi. lia. }
  split; [|split; [|split; [|split; [|split; [|split; [|split; [|split]]]]]]].
  - split; [apply sorted_by_date_perm|]. split; [apply sorted_by_date_sorted|].
    intros d. apply sorted_by_date_stable.
  - exists t0, t1. repeat split; assumption.
  - split; [apply generate_date_range_seqZ|]. split; [apply NoDup_seqZ|].
    split; [intros d; subst days; rewrite elem_of_seqZ; lia|].
    split; [|lia]. subst days. unfold Py.len. rewrite length_seqZ. lia.
  - intros d t Hd. subst sorted_txns. split.
    + rewrite sorted_by_date_stable. exact Hd.
    + unfold input_day_balance, known_balance.
      destruct (Z.to_nat (d - min_date txns)); simpl; rewrite Hd; reflexivity.
  - intros d Hd Hnone. unfold input_day_balance, known_balance. subst lo.
    replace (Z.to_nat (d - min_date txns))
      with (S (Z.to_nat (d - 1 - min_date txns))) by lia.
    simpl. rewrite Hnone. reflexivity.
  - destruct (min_date_attained txns Hne) as (t & Hin & Hd).
    assert (Hf : In t (List.filter (on_date lo) txns)).
    { apply filter_In. split; [apply list_elem_of_In, Hin|].
      unfold on_date. subst lo. lia. }
    destruct (last (List.filter (on_date lo) txns)) as [z|] eqn:Hz.
    + exists z. reflexivity.
    + apply last_None in Hz. rewrite Hz in Hf. destruct Hf.
  - rewrite <- Hext. subst days. rewrite <- generate_date_range_seqZ.
    apply daily_balances_of_spec.
  - intros rf Hrf. rewrite analyze_transactions_unfold in Hrf by exact Hne.
    destruct (income_spend_ratio_of _ _) as [ratio|e]; [|discriminate].
    rewrite bind_ok in Hrf. inversion Hrf; subst; clear Hrf. simpl.
    rewrite generate_date_range_seqZ. fold lo hi days. rewrite Hext. reflexivity.
  - intros ratio Hr. rewrite analyze_transactions_unfold, Hr by exact Hne.
    eexists. reflexivity.
Qed.

Lemma analyze_transactions_avg_daily_balance_witness :
  [sample_txn 0 100 "debit" 100000; sample_txn 5 100 "debit" 80000] <> [] /\
  forall rf,
    analyze_transactions
      [sample_txn 0 100 "debit" 100000; sample_txn 5 100 "debit" 80000] = Ok rf ->
    RiskFactors.avg_daily_balance_cents rf = 96666.
Proof.
  split; [discriminate|].
  intros rf Hrf.
  pose proof (analyze_transactions_avg_daily_balance
                [sample_txn 0 100 "debit" 100000; sample_txn 5 100 "debit" 80000]
                ltac:(discriminate)) as H.
  simpl in H. destruct H as (_ & _ & _ & _ & _ & _ & _ & Havg & _).
  rewrite (Havg rf Hrf). reflexivity.
Defined.

(** C7 (as amended).  The analyzer raises [InsufficientDataError] exactly
    on the empty input.  On a non-empty input the only step that can fail
    is the quotient [total_income / total_spend], taken when
    [total_spend] is positive.  The analyzer returns, with the quotient
    as the ratio, when the quotient is a float, which is the case exactly
    when the total income is below [(2^1024 - 2^970) * total_spend] in
    absolute value; it raises [OverflowError] when the quotient is not a
    float, that is from that bound on.  It raises nothing else.
    [make_credit_decision] raises whatever the analyzer raises. *)
Theorem analyze_transactions_failures (txns : list Transaction.t) :
  (analyze_transactions txns = Raise InsufficientDataError <-> txns = []) /\
  (txns <> [] ->
     (total_spend_of txns <= 0 ->
        exists rf, analyze_transactions txns = Ok rf /\
                   RiskFactors.income_spend_ratio rf = 0%float) /\
     (0 < total_spend_of txns ->
        (forall q, Py.truediv (total_income_of txns) (total_spend_of txns) = Ok q ->
           exists rf, analyze_transactions txns = Ok rf /\
                      RiskFactors.income_spend_ratio rf = q) /\
        (forall e, Py.truediv (total_income_of txns) (total_spend_of txns) = Raise e ->
           e = OverflowError /\ analyze_transactions txns = Raise OverflowError) /\
        (Z.abs (total_income_of txns) < overflow_threshold * total_spend_of txns ->
           exists rf, analyze_transactions txns = Ok rf) /\
        (overflow_threshold * total_spend_of txns <= Z.abs (total_income_of txns) ->
           analyze_transactions txns = Raise OverflowError)) /\
     (Z.abs (total_income_of txns) < 2 ^ 1023 ->
        exists rf, analyze_transactions txns = Ok rf) /\
     (forall e, analyze_transactions txns = Raise e ->
        e = OverflowError /\ 0 < total_spend_of txns /\
        overflow_threshold * total_spend_of txns <= Z.abs (total_income_of txns) /\
        Py.truediv (total_income_of txns) (total_spend_of txns)
        = Raise OverflowError)) /\
  (forall e, analyze_transactions txns = Raise e ->
             make_credit_decision txns = Raise e).
Proof.
  assert (Hdiv : forall a b e, 0 < b -> Py.truediv a b = Raise e -> e = OverflowError).
  { intros a b e Hb. unfold Py.truediv, Py.checked.
    destruct (Z.eqb_spec b 0); [lia|].
    destruct (SFdiv _ _ _ _); congruence. }
  split; [|split].
  - split; [|intros ->; reflexivity].
    destruct txns as [|t l]; [reflexivity|]. intros Hr.
    rewrite analyze_transactions_unfold in Hr by discriminate.
    unfold income_spend_ratio_of in Hr.
    destruct (Z.ltb_spec 0 (total_spend_of (t :: l))) as [Hpos|Hneg].
    + destruct (Py.truediv _ _) as [q|e] eqn:Hq; [discriminate|].
      apply Hdiv in Hq; [|exact Hpos]. subst. discriminate.
    + discriminate.
  - intros Hne. rewrite analyze_transactions_unfold by exact Hne.
    unfold income_spend_ratio_of. split; [|split; [|split]].
    + intros Hs. rewrite (proj2 (Z.ltb_ge _ _)) by lia.
      eexists. split; reflexivity.
    + intros Hpos. rewrite (proj2 (Z.ltb_lt _ _) Hpos).
      destruct (truediv_returns_iff (total_income_of txns) (total_spend_of txns) Hpos)
        as [Hret Hover].
      split; [|split; [|split]].
      * intros q ->. eexists. split; reflexivity.
      * intros e He. pose proof (Hdiv _ _ _ Hpos He) as ->.
        split; [reflexivity|]. rewrite He. reflexivity.
      * intros Hlt. destruct (Hret Hlt) as (q & ->). eexists. reflexivity.
      * intros Hge. rewrite (Hover Hge). reflexivity.
    + intros Hsmall. destruct (Z.ltb_spec 0 (total_spend_of txns)) as [Hpos|Hneg].
      * destruct (truediv_returns _ _ Hpos Hsmall) as (q & ->). eexists. reflexivity.
      * eexists. reflexivity.
    + intros e. destruct (Z.ltb_spec 0 (total_spend_of txns)) as [Hpos|Hneg].
      * destruct (Py.truediv _ _) as [q|e'] eqn:Hq; [discriminate|].
        rewrite bind_raise. intros [= <-].
        pose proof (Hdiv _ _ _ Hpos Hq). subst.
        split; [reflexivity|]. split; [exact Hpos|]. split; [|reflexivity].
        destruct (truediv_returns_iff (total_income_of txns) (total_spend_of txns) Hpos)
          as [Hret _].
        destruct (Z.le_gt_cases (overflow_threshold * total_spend_of txns)
                    (Z.abs (total_income_of txns))) as [Hle|Hgt]; [exact Hle|exfalso].
        destruct (Hret Hgt) as (q & Hq'). congruence.
      * discriminate.
  - intros e He. unfold make_credit_decision. rewrite He. reflexivity.
Qed.

(** A credit of [10^400] cents against a debit of one cent: the quotient
    is beyond the floats and the analyzer raises [OverflowError]. *)
Lemma analyze_transactions_overflow :
  ~ analyzer_failures [sample_txn 0 (10 ^ 400) "credit" 0; sample_txn 0 1 "debit" 0].
Proof.
  intros (_ & Hret & _). destruct Hret as (rf & Hrf); [discriminate|].
  vm_compute in Hrf. discriminate Hrf.
Qed.

Lemma analyze_transactions_failures_witness :
  (exists rf, analyze_transactions overdrawn_txns = Ok rf) /\
  analyze_transactions
    [sample_txn 0 (10 ^ 400) "credit" 0; sample_txn 0 1 "debit" 0]
  = Raise OverflowError.
Proof.
  split.
  - destruct (analyze_transactions_failures overdrawn_txns) as (_ & H & _).
    destruct (H ltac:(discriminate)) as (_ & _ & Hb & _).
    apply Hb. vm_compute. reflexivity.
  - destruct (analyze_transactions_failures
                [sample_txn 0 (10 ^ 400) "credit" 0; sample_txn 0 1 "debit" 0])
      as (_ & H & _).
    destruct (H ltac:(discriminate)) as (_ & Hpos & _).
    destruct (Hpos ltac:(vm_compute; reflexivity)) as (_ & _ & _ & Hover).
    apply Hover. vm_compute. discriminate.
Defined.

(** ** Risk score *)

(** C1.  The example of the specification scores 1.0.  Whenever the
    average balance and the income/spend ratio are not negative, the code
    computes the formula of the specification: the weighted sum of the
    capped components, rounded to three decimals.  On the risk factors of
    an overdrawn account the two part: the balance component of the code
    is negative ([-500 / 100000], not floored at 0), and the score is
    -0.002 where the formula gives 0. *)
Theorem calculate_risk_score_not_floored :
  calculate_risk_score low_risk_factors = Ok 1%float /\
  (forall rf,
     0 <= RiskFactors.avg_daily_balance_cents rf ->
     (RiskFactors.income_spend_ratio rf <? 0)%float = false ->
     calculate_risk_score rf = spec_risk_score rf) /\
  calculate_risk_score overdrawn_factors = Ok (-0.002)%float /\
  spec_risk_score overdrawn_factors = Ok 0%float.
Proof.
  split; [vm_compute; reflexivity|]. split; [|split; vm_compute; reflexivity].
  intros [avg income spend ratio nsf cnt days]. simpl. intros Havg Hratio.
  unfold calculate_risk_score, spec_risk_score. simpl.
  change balance_baseline with 100000.
  destruct (Py.truediv avg 100000) as [q|e] eqn:Hq; [|reflexivity].
  rewrite !bind_ok.
  assert (H1 : is_nan_SF (Prim2SF 1) = false) by reflexivity.
  assert (Hfloor : forall x, (0 <=? x)%float = true -> floor0 (Py.min x 1) = Py.min x 1).
  { intros x Hx. unfold floor0.
    pose proof (min_mono 0 x 1 H1 Hx) as Hm.
    change (Py.min 0 1) with 0%float in Hm.
    apply leb_key in Hm. destruct Hm as (N0 & Nm & Hk).
    rewrite (ltb_false_key _ _ Nm N0 Hk). reflexivity. }
  rewrite Hfloor.
  2:{ apply (truediv_mono 0 avg 100000 0 q); [lia|exact Havg|reflexivity|exact Hq]. }
  destruct (is_nan_SF (Prim2SF ratio)) eqn:Nr.
  - rewrite (min_nan ratio 1 Nr). unfold floor0. rewrite Hratio. reflexivity.
  - rewrite Hfloor; [reflexivity|]. apply leb_total; [reflexivity|exact Nr|exact Hratio].
Qed.

(** C6.  The decision for the overdrawn account carries the score -0.002,
    which is below 0. *)
Theorem make_credit_decision_negative_score :
  analyze_transactions overdrawn_txns = Ok overdrawn_factors /\
  make_credit_decision overdrawn_txns
  = Ok (CreditDecision.mk false 0 (-0.002)%float "high_risk" overdrawn_factors) /\
  (-0.002 <? 0)%float = true.
Proof. repeat split; vm_compute; reflexivity. Qed.

Lemma calculate_risk_score_not_floored_witness :
  calculate_risk_score low_risk_factors = spec_risk_score low_risk_factors.
Proof.
  apply (proj1 (proj2 calculate_risk_score_not_floored)); [simpl; lia|reflexivity].
Defined.

(** ** Monotonicity of the score *)

Lemma is_nan_spec (x : float) : PrimFloat.is_nan x = is_nan_SF (Prim2SF x).
Proof.
  unfold PrimFloat.is_nan. rewrite FloatAxioms.eqb_spec. unfold SFeqb.
  destruct (is_nan_SF (Prim2SF x)) eqn:Nx.
  - destruct (Prim2SF x); try discriminate. reflexivity.
  - rewrite SFcompare_key by assumption.
    assert (E : lex3 (SFkey (Prim2SF x)) (SFkey (Prim2SF x)) = Eq).
    { unfold lex3. rewrite !Z.compare_refl. reflexivity. }
    rewrite E. reflexivity.
Qed.

Lemma weight_positive (c : float) (m : positive) (e : Z) :
  Prim2SF c = S754_finite false m e ->
  is_finite_SF (Prim2SF c) = true /\ (0 < SF2Q (Prim2SF c))%Q.
Proof. intros ->. split; [reflexivity|apply F2Q_pos]. Qed.

Lemma nsf_term_finite (nsf_count : Z) :
  is_finite_SF (Prim2SF (0.2 * nsf_score_of nsf_count)) = true.
Proof. unfold nsf_score_of. destruct (nsf_count =? 0); reflexivity. Qed.

(** The score as a function of its two float components. *)
Lemma weighted_mono_balance (b1 b2 i n : float) :
  (b1 <=? b2)%float = true -> (b2 <=? 1)%float = true ->
  is_nan_SF (Prim2SF i) = false -> (i <=? 1)%float = true ->
  is_finite_SF (Prim2SF n) = true ->
  (Py.round3 (0.4 * b1 + 0.4 * i + n) <=? Py.round3 (0.4 * b2 + 0.4 * i + n))%float = true.
Proof.
  intros Hb Hb2 Ni Hi Fn.
  destruct (weight_positive 0.4 _ _ eq_refl) as [F4 P4].
  assert (Hb1 : (b1 <=? 1)%float = true).
  { rewrite leb_spec in Hb, Hb2 |- *. eapply SFleb_trans; eassumption. }
  pose proof (mul_mono 0.4 b1 b2 F4 P4 Hb) as HA.
  pose proof (mul_mono 0.4 b1 1 F4 P4 Hb1) as HA1.
  pose proof (mul_mono 0.4 b2 1 F4 P4 Hb2) as HA2.
  pose proof (mul_mono 0.4 i 1 F4 P4 Hi) as HB.
  assert (N1 : is_nan_SF (Prim2SF (0.4 * b1 + 0.4 * i)) = false)
    by (eapply add_not_nan; [exact HA1|exact HB|reflexivity|reflexivity]).
  assert (N2 : is_nan_SF (Prim2SF (0.4 * b2 + 0.4 * i)) = false)
    by (eapply add_not_nan; [exact HA2|exact HB|reflexivity|reflexivity]).
  apply round3_mono, add_mono_l.
  - apply add_mono_l; assumption.
  - apply add_finite_not_nan; assumption.
  - apply add_finite_not_nan; assumption.
Qed.

Lemma weighted_mono_income (b i1 i2 n : float) :
  is_nan_SF (Prim2SF b) = false -> (b <=? 1)%float = true ->
  (i1 <=? i2)%float = true -> (i2 <=? 1)%float = true ->
  is_finite_SF (Prim2SF n) = true ->
  (Py.round3 (0.4 * b + 0.4 * i1 + n) <=? Py.round3 (0.4 * b + 0.4 * i2 + n))%float = true.
Proof.
  intros Nb Hb Hi Hi2 Fn.
  destruct (weight_positive 0.4 _ _ eq_refl) as [F4 P4].
  assert (Hi1 : (i1 <=? 1)%float = true).
  { rewrite leb_spec in Hi, Hi2 |- *. eapply SFleb_trans; eassumption. }
  pose proof (mul_mono 0.4 i1 i2 F4 P4 Hi) as HB.
  pose proof (mul_mono 0.4 i1 1 F4 P4 Hi1) as HB1.
  pose proof (mul_mono 0.4 i2 1 F4 P4 Hi2) as HB2.
  pose proof (mul_mono 0.4 b 1 F4 P4 Hb) as HA.
  assert (N1 : is_nan_SF (Prim2SF (0.4 * b + 0.4 * i1)) = false)
    by (eapply add_not_nan; [exact HA|exact HB1|reflexivity|reflexivity]).
  assert (N2 : is_nan_SF (Prim2SF (0.4 * b + 0.4 * i2)) = false)
    by (eapply add_not_nan; [exact HA|exact HB2|reflexivity|reflexivity]).
  apply round3_mono, add_mono_l.
  - apply add_mono_r; assumption.
  - apply add_finite_not_nan; assumption.
  - apply add_finite_not_nan; assumption.
Qed.

Lemma weighted_nan_income (b i n : float) :
  is_nan_SF (Prim2SF i) = true ->
  Py.round3 (0.4 * b + 0.4 * Py.min i 1 + n) = nan.
Proof.
  intros Ni. rewrite (min_nan i 1 Ni).
  apply round3_nan, add_nan_l, add_nan_r, mul_nan_r, Ni.
Qed.

Lemma calculate_risk_score_unfold (avg income spend : Z) (ratio : float)
    (nsf cnt days : Z) (s : float) :
  calculate_risk_score (RiskFactors.mk avg income spend ratio nsf cnt days) = Ok s ->
  exists q, Py.truediv avg balance_baseline = Ok q /\
            s = Py.round3 (0.4 * Py.min q 1 + 0.4 * Py.min ratio 1
                           + 0.2 * nsf_score_of nsf).
Proof.
  unfold calculate_risk_score. simpl.
  destruct (Py.truediv avg balance_baseline) as [q|e]; [|discriminate].
  rewrite bind_ok. intros [= <-]. exists q. split; reflexivity.
Qed.

(** C9.  Of two risk factors that differ only in
    [avg_daily_balance_cents], for both of which a score is computed, the
    one with the larger balance gets a score at least as large (when the
    shared [income_spend_ratio] is NaN both scores are the same NaN).  Of
    two that differ only in [income_spend_ratio], the one with the larger
    ratio gets a score at least as large. *)
Theorem calculate_risk_score_monotone
    (avg1 avg2 income spend : Z) (ratio1 ratio2 : float) (nsf cnt days : Z)
    (s1 s2 : float) :
  (avg1 <= avg2 ->
   calculate_risk_score (RiskFactors.mk avg1 income spend ratio1 nsf cnt days) = Ok s1 ->
   calculate_risk_score (RiskFactors.mk avg2 income spend ratio1 nsf cnt days) = Ok s2 ->
   (s1 <=? s2)%float = true \/ (PrimFloat.is_nan ratio1 = true /\ s1 = s2)) /\
  ((ratio1 <=? ratio2)%float = true ->
   calculate_risk_score (RiskFactors.mk avg1 income spend ratio1 nsf cnt days) = Ok s1 ->
   calculate_risk_score (RiskFactors.mk avg1 income spend ratio2 nsf cnt days) = Ok s2 ->
   (s1 <=? s2)%float = true).
Proof.
  assert (N1 : is_nan_SF (Prim2SF 1) = false) by reflexivity.
  split.
  - intros Havg H1 H2.
    apply calculate_risk_score_unfold in H1, H2.
    destruct H1 as (q1 & Hq1 & ->), H2 as (q2 & Hq2 & ->).
    pose proof (truediv_mono avg1 avg2 balance_baseline q1 q2
                  ltac:(reflexivity) Havg Hq1 Hq2) as Hq.
    destruct (leb_not_nan _ _ Hq) as [Nq1 Nq2].
    rewrite is_nan_spec.
    destruct (is_nan_SF (Prim2SF ratio1)) eqn:Nr.
    + right. split; [reflexivity|]. rewrite !weighted_nan_income by exact Nr.
      reflexivity.
    + left. apply weighted_mono_balance.
      * apply min_mono; assumption.
      * apply min_le; assumption.
      * unfold Py.min. destruct (1 <? ratio1)%float; assumption.
      * apply min_le; assumption.
      * apply nsf_term_finite.
  - intros Hr H1 H2.
    apply calculate_risk_score_unfold in H1, H2.
    destruct H1 as (q & Hq & ->), H2 as (q' & Hq' & ->).
    assert (q' = q) by congruence. subst q'.
    destruct (truediv_spec avg1 balance_baseline q ltac:(reflexivity) Hq) as [_ Fq].
    assert (Nq : is_nan_SF (Prim2SF q) = false)
      by (destruct (Prim2SF q); try discriminate; reflexivity).
    destruct (leb_not_nan _ _ Hr) as [Nr1 Nr2].
    apply weighted_mono_income.
    + unfold Py.min. destruct (1 <? q)%float; assumption.
    + apply min_le; assumption.
    + apply min_mono; assumption.
    + apply min_le; assumption.
    + apply nsf_term_finite.
Qed.

Lemma calculate_risk_score_monotone_witness :
  exists s1 s2 s3 : float,
    calculate_risk_score (RiskFactors.mk 20000 900000 600000 0.5 0 50 30) = Ok s1 /\
    calculate_risk_score (RiskFactors.mk 50000 900000 600000 0.5 0 50 30) = Ok s2 /\
    calculate_risk_score (RiskFactors.mk 20000 900000 600000 0.75 0 50 30) = Ok s3 /\
    ((s1 <=? s2)%float = true \/ (PrimFloat.is_nan 0.5 = true /\ s1 = s2)) /\
    (s1 <=? s3)%float = true.
Proof.
  exists 0.48%float, 0.6%float, 0.58%float.
  split; [reflexivity|]. split; [reflexivity|]. split; [reflexivity|]. split.
  - apply (proj1 (calculate_risk_score_monotone
                    20000 50000 900000 600000 0.5 0.75 0 50 30 0.48 0.6));
      [lia|reflexivity|reflexivity].
  - apply (proj2 (calculate_risk_score_monotone
                    20000 50000 900000 600000 0.5 0.75 0 50 30 0.48 0.58));
      reflexivity.
Defined.

(** ** The range of the score and the credit limit policy *)

Lemma leb_trans (x y z : float) :
  (x <=? y)%float = true -> (y <=? z)%float = true -> (x <=? z)%float = true.
Proof. rewrite !leb_spec. apply SFleb_trans. Qed.

Lemma leb_ltb_trans (x y z : float) :
  (x <=? y)%float = true -> (y <? z)%float = true -> (x <? z)%float = true.
Proof.
  intros Hxy Hyz. apply leb_key in Hxy. apply ltb_key in Hyz.
  destruct Hxy as (Nx & _ & K1), Hyz as (_ & Nz & K2).
  apply ltb_key. split; [exact Nx|]. split; [exact Nz|].
  unfold key_le, key_lt in *. lia.
Qed.

Lemma ltb_leb_false (x y : float) :
  (x <? y)%float = true -> (y <=? x)%float = false.
Proof.
  intros Hlt. destruct (y <=? x)%float eqn:Hle; [|reflexivity].
  apply ltb_key in Hlt. apply leb_key in Hle.
  destruct Hlt as (_ & _ & K1), Hle as (_ & _ & K2).
  unfold key_le, key_lt in *. lia.
Qed.

Lemma finite_not_nan (x : float) :
  is_finite_SF (Prim2SF x) = true -> is_nan_SF (Prim2SF x) = false.
Proof. destruct (Prim2SF x); try discriminate; reflexivity. Qed.

(** [min(x, 1.0)] is exactly 1.0 once [x] reaches 1.0. *)
Lemma min_capped (x : float) : (1 <=? x)%float = true -> Py.min x 1 = 1%float.
Proof.
  intros Hx. unfold Py.min. destruct (1 <? x)%float eqn:Hlt; [reflexivity|].
  destruct (leb_not_nan _ _ Hx) as [N1 Nx].
  pose proof (leb_total x 1 Nx N1 Hlt) as Hle.
  apply leb_key in Hx. apply leb_key in Hle.
  destruct Hx as (_ & _ & K1), Hle as (_ & _ & K2).
  apply Prim2SF_inj.
  change (SFkey (Prim2SF 1)) with (1, -52, 4503599627370496) in K1, K2.
  change (Prim2SF 1) with (S754_finite false 4503599627370496 (-52)).
  destruct (Prim2SF x) as [s|s| |s m e]; try discriminate;
    unfold key_le in K1, K2; simpl in K1, K2; try (destruct s; simpl in *; lia).
  destruct s; simpl in K1, K2; [lia|].
  assert (e = -52) by lia. assert (m = 4503599627370496%positive) by lia.
  subst. reflexivity.
Qed.

Lemma min_of_number (x c : float) :
  is_nan_SF (Prim2SF x) = false -> is_nan_SF (Prim2SF c) = false ->
  is_nan_SF (Prim2SF (Py.min x c)) = false.
Proof. intros Nx Nc. unfold Py.min. destruct (c <? x)%float; assumption. Qed.

(** The score of given components is between the scores of the extreme
    components. *)
Lemma weighted_upper (b i n : float) :
  is_nan_SF (Prim2SF b) = false -> (b <=? 1)%float = true ->
  is_nan_SF (Prim2SF i) = false -> (i <=? 1)%float = true ->
  is_finite_SF (Prim2SF n) = true ->
  (Py.round3 (0.4 * b + 0.4 * i + n) <=? Py.round3 (0.4 * 1 + 0.4 * 1 + n))%float = true.
Proof.
  intros Nb Hb Ni Hi Fn.
  apply (leb_trans _ (Py.round3 (0.4 * 1 + 0.4 * i + n))).
  - apply weighted_mono_balance; try assumption. reflexivity.
  - apply weighted_mono_income; try assumption; reflexivity.
Qed.

Lemma weighted_lower (b i n : float) :
  (0 <=? b)%float = true -> (b <=? 1)%float = true ->
  (0 <=? i)%float = true -> (i <=? 1)%float = true ->
  is_finite_SF (Prim2SF n) = true ->
  (Py.round3 (0.4 * 0 + 0.4 * 0 + n) <=? Py.round3 (0.4 * b + 0.4 * i + n))%float = true.
Proof.
  intros Hb Hb1 Hi Hi1 Fn.
  destruct (leb_not_nan _ _ Hb) as [_ Nb].
  apply (leb_trans _ (Py.round3 (0.4 * b + 0.4 * 0 + n))).
  - apply weighted_mono_balance; try assumption; reflexivity.
  - apply weighted_mono_income; try assumption.
Qed.

Lemma score_components (rf : RiskFactors.t) (s : float) :
  calculate_risk_score rf = Ok s ->
  exists q,
    Py.truediv (RiskFactors.avg_daily_balance_cents rf) balance_baseline = Ok q /\
    is_nan_SF (Prim2SF (Py.min q 1)) = false /\
    (Py.min q 1 <=? 1)%float = true /\
    (0 <= RiskFactors.avg_daily_balance_cents rf -> (0 <=? Py.min q 1)%float = true) /\
    (balance_baseline <= RiskFactors.avg_daily_balance_cents rf -> Py.min q 1 = 1%float) /\
    s = Py.round3 (0.4 * Py.min q 1
                   + 0.4 * Py.min (RiskFactors.income_spend_ratio rf) 1
                   + 0.2 * nsf_score_of (RiskFactors.nsf_count rf)).
Proof.
  destruct rf as [avg income spend ratio nsf cnt days]. simpl. intros Hs.
  destruct (calculate_risk_score_unfold _ _ _ _ _ _ _ _ Hs) as (q & Hq & ->).
  exists q. split; [exact Hq|].
  destruct (truediv_spec avg balance_baseline q ltac:(reflexivity) Hq) as [_ Fq].
  pose proof (finite_not_nan _ Fq) as Nq.
  assert (N1 : is_nan_SF (Prim2SF 1) = false) by reflexivity.
  split; [apply min_of_number; assumption|].
  split; [apply min_le; assumption|].
  split; [|split; [|reflexivity]].
  - intros Havg.
    change 0%float with (Py.min 0 1). apply min_mono; [exact N1|].
    apply (truediv_mono 0 avg balance_baseline 0 q);
      [reflexivity|exact Havg|reflexivity|exact Hq].
  - intros Havg. apply min_capped.
    apply (truediv_mono balance_baseline avg balance_baseline 1 q);
      [reflexivity|exact Havg|reflexivity|exact Hq].
Qed.

(** X1.  The score never exceeds 1.0 when the income/spend ratio is a
    number, and never exceeds 0.8 when there is an NSF event; it is at least
    0.0 when neither the average balance nor the ratio is negative, and then
    at least 0.2 when there is no NSF event. *)
Theorem calculate_risk_score_range (rf : RiskFactors.t) (s : float) :
  calculate_risk_score rf = Ok s ->
  PrimFloat.is_nan (RiskFactors.income_spend_ratio rf) = false ->
  (s <=? 1)%float = true /\
  (RiskFactors.nsf_count rf <> 0 -> (s <=? 0.8)%float = true) /\
  (0 <= RiskFactors.avg_daily_balance_cents rf ->
   (0 <=? RiskFactors.income_spend_ratio rf)%float = true ->
   (0 <=? s)%float = true /\
   (RiskFactors.nsf_count rf = 0 -> (0.2 <=? s)%float = true)).
Proof.
  intros Hs Nr. rewrite is_nan_spec in Nr.
  destruct (score_components rf s Hs) as (q & _ & Nb & Hb1 & Hb0 & _ & ->).
  assert (N1 : is_nan_SF (Prim2SF 1) = false) by reflexivity.
  pose proof (min_of_number _ 1 Nr N1) as Ni.
  pose proof (min_le _ 1 Nr N1) as Hi1.
  pose proof (nsf_term_finite (RiskFactors.nsf_count rf)) as Fn.
  pose proof (weighted_upper _ _ _ Nb Hb1 Ni Hi1 Fn) as Hup.
  split; [|split].
  - eapply leb_trans; [exact Hup|].
    unfold nsf_score_of. destruct (RiskFactors.nsf_count rf =? 0); reflexivity.
  - intros Hnsf. eapply leb_trans; [exact Hup|].
    unfold nsf_score_of. destruct (Z.eqb_spec (RiskFactors.nsf_count rf) 0); [lia|].
    reflexivity.
  - intros Havg Hratio.
    assert (Hi0 : (0 <=? Py.min (RiskFactors.income_spend_ratio rf) 1)%float = true).
    { change 0%float with (Py.min 0 1) at 1. apply min_mono; assumption. }
    pose proof (weighted_lower _ _ _ (Hb0 Havg) Hb1 Hi0 Hi1 Fn) as Hlo.
    split.
    + eapply leb_trans; [|exact Hlo].
      unfold nsf_score_of. destruct (RiskFactors.nsf_count rf =? 0); reflexivity.
    + intros Hnsf. eapply leb_trans; [|exact Hlo].
      unfold nsf_score_of. rewrite Hnsf. reflexivity.
Qed.

Lemma calculate_risk_score_range_witness :
  (0.48 <=? 1)%float = true /\ (0 <=? 0.48)%float = true.
Proof.
  destruct (calculate_risk_score_range
              (RiskFactors.mk 20000 900000 600000 0.5 0 50 30) 0.48
              ltac:(reflexivity) ltac:(reflexivity)) as (H1 & _ & H3).
  split; [exact H1|].
  destruct (H3 ltac:(simpl; lia) ltac:(reflexivity)) as [H _]. exact H.
Defined.

(** X2.  Full marks: an average balance of at least 1000 dollars, an income
    at least as large as the spend and no NSF event give the score 1.0 and
    the top credit limit. *)
Theorem calculate_risk_score_full_marks (rf : RiskFactors.t) (s : float) :
  calculate_risk_score rf = Ok s ->
  100000 <= RiskFactors.avg_daily_balance_cents rf ->
  (1 <=? RiskFactors.income_spend_ratio rf)%float = true ->
  RiskFactors.nsf_count rf = 0 ->
  s = 1%float /\ determine_credit_limit s = (true, 100000, "low_risk"%string).
Proof.
  intros Hs Havg Hratio Hnsf.
  destruct (score_components rf s Hs) as (q & _ & _ & _ & _ & Hcap & ->).
  rewrite (Hcap Havg), (min_capped _ Hratio), Hnsf.
  split; reflexivity.
Qed.

Lemma calculate_risk_score_full_marks_witness :
  calculate_risk_score low_risk_factors = Ok 1%float /\
  determine_credit_limit 1 = (true, 100000, "low_risk"%string).
Proof.
  split; [reflexivity|].
  apply (calculate_risk_score_full_marks low_risk_factors 1);
    [reflexivity|simpl; lia|reflexivity|reflexivity].
Defined.

(** ** Bounds of the average daily balance *)

Lemma sum_bounds (lo hi : Z) (l : list Z) :
  Forall (fun x => lo <= x <= hi) l ->
  lo * Py.len l <= Py.sum l <= hi * Py.len l.
Proof.
  induction 1 as [|x l Hx _ IH].
  - rewrite sum_nil. unfold Py.len. simpl. lia.
  - rewrite sum_cons. unfold Py.len in *. simpl length. lia.
Qed.

Lemma known_balance_elem (l : list Transaction.t) (d : Date) (b : Z) :
  known_balance l d = Some b ->
  exists t, t ∈ l /\ Transaction.date t = d /\ Transaction.balance_cents t = b.
Proof.
  unfold known_balance. intros Hk.
  destruct (last (List.filter (on_date d) l)) as [t|] eqn:Hl; [|discriminate].
  injection Hk as <-. exists t.
  apply last_Some in Hl. destruct Hl as [l' Hl'].
  assert (Hin : In t (List.filter (on_date d) l)).
  { rewrite Hl'. apply in_or_app. right. left. reflexivity. }
  apply filter_In in Hin. destruct Hin as [Hin Hd].
  split; [apply list_elem_of_In, Hin|].
  split; [|reflexivity]. unfold on_date in Hd. lia.
Qed.

Lemma known_balance_min_date (txns : list Transaction.t) :
  txns <> [] ->
  exists b, known_balance (sorted_by_date txns) (min_date txns) = Some b.
Proof.
  intros Hne. destruct (min_date_attained txns Hne) as (t & Hin & Hd).
  unfold known_balance. rewrite sorted_by_date_stable.
  assert (Hf : In t (List.filter (on_date (min_date txns)) txns)).
  { apply filter_In. split; [apply list_elem_of_In, Hin|].
    unfold on_date. lia. }
  destruct (List.filter (on_date (min_date txns)) txns) as [|u k] eqn:Hk;
    [destruct Hf|].
  destruct (last (u :: k)) as [z|] eqn:Hz.
  - exists (Transaction.balance_cents z). reflexivity.
  - apply last_None in Hz. discriminate.
Qed.

(** A carried balance is the known balance of some day, when the search
    reaches a day that has one. *)
Lemma carried_balance_known (known : Date -> option Z) (back : nat) (d : Date) :
  is_Some (known (d - Z.of_nat back)) ->
  exists d', d - Z.of_nat back <= d' <= d /\
             known d' = Some (carried_balance known d back).
Proof.
  revert d. induction back as [|back IH]; intros d Hs.
  - replace (d - Z.of_nat 0) with d in Hs by lia.
    destruct Hs as [b Hb]. exists d. split; [lia|].
    simpl. rewrite Hb. reflexivity.
  - simpl carried_balance. destruct (known d) as [b|] eqn:Hd.
    + exists d. split; [lia|exact Hd].
    + destruct (IH (d - 1)) as (d' & Hr & Hk).
      { replace (d - 1 - Z.of_nat back) with (d - Z.of_nat (S back)) by lia.
        exact Hs. }
      exists d'. split; [lia|exact Hk].
Qed.

Lemma day_balance_elem (txns : list Transaction.t) (d : Date) :
  txns <> [] -> min_date txns <= d ->
  exists t, t ∈ txns /\ Transaction.date t <= d /\
            Transaction.balance_cents t = day_balance txns d.
Proof.
  intros Hne Hd. unfold day_balance.
  destruct (carried_balance_known (known_balance (sorted_by_date txns))
              (Z.to_nat (d - min_date txns)) d) as (d' & Hr & Hk).
  { rewrite Z2Nat.id by lia. replace (d - (d - min_date txns)) with (min_date txns) by lia.
    destruct (known_balance_min_date txns Hne) as [b Hb]. rewrite Hb. eexists. reflexivity. }
  destruct (known_balance_elem _ _ _ Hk) as (t & Hin & Ht & Hb).
  exists t. split; [|split; [lia|exact Hb]].
  rewrite <- (sorted_by_date_perm txns). exact Hin.
Qed.

Lemma min_le_max_date (txns : list Transaction.t) :
  txns <> [] -> min_date txns <= max_date txns.
Proof.
  intros Hne. destruct (min_date_attained txns Hne) as (t & Hin & Hd).
  pose proof (min_max_date_bounds txns t Hin). lia.
Qed.

Lemma avg_daily_balance_bounds (txns : list Transaction.t) (lo hi : Z) :
  txns <> [] ->
  (forall t, t ∈ txns -> lo <= Transaction.balance_cents t <= hi) ->
  lo <= Py.sum (day_balance txns <$> generate_date_range (min_date txns) (max_date txns))
        / (max_date txns - min_date txns + 1) <= hi.
Proof.
  intros Hne Hb.
  pose proof (min_le_max_date txns Hne) as Hmm.
  set (n := max_date txns - min_date txns + 1).
  assert (HF : Forall (fun x => lo <= x <= hi)
                 (day_balance txns <$> generate_date_range (min_date txns) (max_date txns))).
  { apply Forall_fmap, Forall_forall. intros d Hd. simpl.
    rewrite generate_date_range_seqZ in Hd. apply elem_of_seqZ in Hd.
    destruct (day_balance_elem txns d Hne ltac:(lia)) as (t & Hin & _ & <-).
    apply Hb, Hin. }
  apply sum_bounds in HF.
  rewrite len_fmap in HF.
  assert (Hlen : Py.len (generate_date_range (min_date txns) (max_date txns)) = n).
  { rewrite generate_date_range_seqZ. unfold Py.len. rewrite length_seqZ. lia. }
  rewrite Hlen in HF. split.
  - apply Z.div_le_lower_bound; lia.
  - apply Z.div_le_upper_bound; lia.
Qed.

Lemma analyze_transactions_nonempty (txns : list Transaction.t) (rf : RiskFactors.t) :
  analyze_transactions txns = Ok rf -> txns <> [].
Proof. intros H ->. discriminate. Qed.

Lemma analyze_transactions_fields (txns : list Transaction.t) (rf : RiskFactors.t) :
  analyze_transactions txns = Ok rf ->
  txns <> [] /\
  RiskFactors.avg_daily_balance_cents rf
  = Py.sum (day_balance txns <$> generate_date_range (min_date txns) (max_date txns))
    / (max_date txns - min_date txns + 1) /\
  RiskFactors.total_income_cents rf = total_income_of txns /\
  RiskFactors.total_spend_cents rf = total_spend_of txns /\
  income_spend_ratio_of (total_income_of txns) (total_spend_of txns)
  = Ok (RiskFactors.income_spend_ratio rf) /\
  RiskFactors.nsf_count rf = nsf_count_of txns /\
  RiskFactors.transaction_count rf = Py.len txns /\
  RiskFactors.days_with_transactions rf = Z.of_nat (size (unique_dates_of txns)).
Proof.
  intros H. pose proof (analyze_transactions_nonempty _ _ H) as Hne.
  split; [exact Hne|].
  rewrite (analyze_transactions_unfold txns Hne) in H.
  destruct (income_spend_ratio_of _ _) as [r|e]; [|discriminate].
  rewrite bind_ok in H. injection H as <-. simpl. repeat split; reflexivity.
Qed.

(** X3.  The average daily balance lies between the smallest and the largest
    balance of the transactions. *)
Theorem analyze_transactions_avg_between (txns : list Transaction.t)
    (rf : RiskFactors.t) (lo hi : Z) :
  analyze_transactions txns = Ok rf ->
  (forall t, t ∈ txns -> lo <= Transaction.balance_cents t <= hi) ->
  lo <= RiskFactors.avg_daily_balance_cents rf <= hi.
Proof.
  intros H Hb. destruct (analyze_transactions_fields _ _ H) as (Hne & -> & _).
  apply avg_daily_balance_bounds; assumption.
Qed.

Lemma analyze_transactions_avg_between_witness :
  80000 <= 96666 <= 100000.
Proof.
  apply (analyze_transactions_avg_between
           [sample_txn 0 100 "debit" 100000; sample_txn 5 100 "debit" 80000]
           (RiskFactors.mk 96666 0 200 0 0 2 2)).
  - reflexivity.
  - intros t Ht. apply elem_of_cons in Ht. destruct Ht as [->|Ht]; [simpl; lia|].
    apply elem_of_cons in Ht. destruct Ht as [->|Ht]; [simpl; lia|inversion Ht].
Defined.

(** ** Counters of the analyzer *)

Lemma sum_ones {A} (l : list A) : Py.sum ((fun _ => 1) <$> l) = Py.len l.
Proof.
  induction l as [|x l IH]; [reflexivity|].
  rewrite fmap_cons, sum_cons, IH. unfold Py.len. simpl length. lia.
Qed.

Lemma len_filter_le {A} (f : A -> bool) (l : list A) :
  0 <= Py.len (List.filter f l) <= Py.len l.
Proof.
  unfold Py.len. pose proof (List.filter_length_le f l). lia.
Qed.

Lemma nsf_count_zero (txns : list Transaction.t) :
  nsf_count_of txns = 0 <-> forall t, t ∈ txns -> is_nsf t = false.
Proof.
  unfold nsf_count_of. rewrite sum_ones. unfold Py.len. split.
  - intros H t Ht. destruct (is_nsf t) eqn:E; [|reflexivity].
    assert (Hin : In t (List.filter is_nsf txns)).
    { apply filter_In. split; [apply list_elem_of_In, Ht|exact E]. }
    destruct (List.filter is_nsf txns); [destruct Hin|discriminate].
  - intros H. destruct (List.filter is_nsf txns) as [|t l] eqn:E; [reflexivity|].
    assert (Hin : In t (List.filter is_nsf txns)) by (rewrite E; left; reflexivity).
    apply filter_In in Hin. destruct Hin as [Hin Ht].
    rewrite (H t) in Ht; [discriminate|apply list_elem_of_In, Hin].
Qed.

Lemma size_list_to_set_le (l : list Date) :
  (size (list_to_set (C := gset Date) l) <= length l)%nat.
Proof.
  induction l as [|x l IH].
  - rewrite list_to_set_nil, size_empty. simpl. lia.
  - rewrite list_to_set_cons. simpl length.
    pose proof (size_union_alt (C := gset Date) {[x]} (list_to_set l)) as Hu.
    assert (Hsub : list_to_set (C := gset Date) l ∖ {[x]} ⊆ list_to_set l).
    { intros y Hy. apply elem_of_difference in Hy. tauto. }
    pose proof (subseteq_size _ _ Hsub) as Hs.
    rewrite size_singleton in Hu. lia.
Qed.

Lemma unique_dates_range (txns : list Transaction.t) :
  unique_dates_of txns
  ⊆ list_to_set (generate_date_range (min_date txns) (max_date txns)).
Proof.
  intros d Hd. unfold unique_dates_of in Hd.
  apply elem_of_list_to_set, list_elem_of_fmap in Hd.
  destruct Hd as (t & -> & Ht).
  apply elem_of_list_to_set. rewrite generate_date_range_seqZ.
  apply elem_of_seqZ. pose proof (min_max_date_bounds txns t Ht). lia.
Qed.

(** X4.  The counters of the analyzer: the transaction count is the length
    of the input; the NSF count is between 0 and the transaction count, and
    is 0 exactly when no transaction is flagged or leaves a negative
    balance; the number of days with transactions is at least 1, at most the
    transaction count and at most the number of days of the range. *)
Theorem analyze_transactions_counters (txns : list Transaction.t) (rf : RiskFactors.t) :
  analyze_transactions txns = Ok rf ->
  RiskFactors.transaction_count rf = Py.len txns /\
  0 <= RiskFactors.nsf_count rf <= RiskFactors.transaction_count rf /\
  (RiskFactors.nsf_count rf = 0 <->
   forall t, t ∈ txns ->
     Transaction.nsf t = false /\ 0 <= Transaction.balance_cents t) /\
  1 <= RiskFactors.days_with_transactions rf <= RiskFactors.transaction_count rf /\
  RiskFactors.days_with_transactions rf <= max_date txns - min_date txns + 1.
Proof.
  intros H.
  destruct (analyze_transactions_fields _ _ H)
    as (Hne & _ & _ & _ & _ & -> & -> & ->).
  split; [reflexivity|]. split; [|split; [|split]].
  - unfold nsf_count_of. rewrite sum_ones. apply len_filter_le.
  - rewrite nsf_count_zero. unfold is_nsf.
    split; intros Hall t Ht; specialize (Hall t Ht).
    + apply orb_false_iff in Hall. destruct Hall as [-> Hb]. split; [reflexivity|lia].
    + destruct Hall as [-> Hb]. simpl. lia.
  - split.
    + destruct txns as [|t l]; [congruence|].
      assert (Hin : Transaction.date t ∈ unique_dates_of (t :: l)).
      { unfold unique_dates_of. apply elem_of_list_to_set. left. }
      destruct (decide (size (unique_dates_of (t :: l)) = 0%nat)) as [E|E]; [|lia].
      apply size_empty_iff in E. exfalso.
      apply (proj1 (elem_of_equiv_empty _) E _ Hin).
    + unfold unique_dates_of, Py.len.
      pose proof (size_list_to_set_le (Transaction.date <$> txns)) as Hs.
      rewrite length_fmap in Hs. lia.
  - pose proof (subseteq_size _ _ (unique_dates_range txns)) as Hs.
    rewrite size_list_to_set in Hs.
    + rewrite generate_date_range_seqZ, length_seqZ in Hs.
      pose proof (min_le_max_date txns Hne). lia.
    + rewrite generate_date_range_seqZ. apply NoDup_seqZ.
Qed.

Lemma analyze_transactions_counters_witness :
  RiskFactors.transaction_count overdrawn_factors = Py.len overdrawn_txns /\
  0 <= RiskFactors.nsf_count overdrawn_factors
    <= RiskFactors.transaction_count overdrawn_factors.
Proof.
  destruct (analyze_transactions_counters overdrawn_txns overdrawn_factors
              ltac:(reflexivity)) as (H1 & H2 & _).
  split; [exact H1|exact H2].
Defined.

(** ** Order of the input *)

Lemma sum_perm (l k : list Z) : l ≡ₚ k -> Py.sum l = Py.sum k.
Proof.
  induction 1 as [|x l k _ IH|x y l|l k m _ IH1 _ IH2].
  - reflexivity.
  - rewrite !sum_cons, IH. reflexivity.
  - rewrite !sum_cons. lia.
  - congruence.
Qed.

Lemma filter_perm {A} (f : A -> bool) (l k : list A) :
  l ≡ₚ k -> List.filter f l ≡ₚ List.filter f k.
Proof.
  induction 1 as [|x l k _ IH|x y l|l k m _ IH1 _ IH2]; simpl.
  - reflexivity.
  - destruct (f x); [constructor|]; exact IH.
  - destruct (f x), (f y); try reflexivity. apply perm_swap.
  - etransitivity; eassumption.
Qed.

Lemma min_date_perm (l k : list Transaction.t) : l ≡ₚ k -> min_date l = min_date k.
Proof.
  intros Hp. destruct l as [|t l].
  - apply Permutation_nil_l in Hp. subst k. reflexivity.
  - assert (Hl : t :: l <> []) by discriminate.
    assert (Hk : k <> []) by (intros ->; apply Permutation_nil_r in Hp; discriminate).
    destruct (min_date_attained _ Hl) as (a & Ha & Ea).
    destruct (min_date_attained _ Hk) as (b & Hb & Eb).
    rewrite Hp in Ha. rewrite <- Hp in Hb.
    pose proof (min_max_date_bounds _ _ Ha). pose proof (min_max_date_bounds _ _ Hb).
    lia.
Qed.

Lemma max_date_perm (l k : list Transaction.t) : l ≡ₚ k -> max_date l = max_date k.
Proof.
  intros Hp. destruct l as [|t l].
  - apply Permutation_nil_l in Hp. subst k. reflexivity.
  - assert (Hl : t :: l <> []) by discriminate.
    assert (Hk : k <> []) by (intros ->; apply Permutation_nil_r in Hp; discriminate).
    destruct (max_date_attained _ Hl) as (a & Ha & Ea).
    destruct (max_date_attained _ Hk) as (b & Hb & Eb).
    rewrite Hp in Ha. rewrite <- Hp in Hb.
    pose proof (min_max_date_bounds _ _ Ha). pose proof (min_max_date_bounds _ _ Hb).
    lia.
Qed.

Lemma total_income_perm (l k : list Transaction.t) :
  l ≡ₚ k -> total_income_of l = total_income_of k.
Proof. intros Hp. apply sum_perm, fmap_Permutation, filter_perm, Hp. Qed.

Lemma total_spend_perm (l k : list Transaction.t) :
  l ≡ₚ k -> total_spend_of l = total_spend_of k.
Proof. intros Hp. apply sum_perm, fmap_Permutation, filter_perm, Hp. Qed.

Lemma nsf_count_perm (l k : list Transaction.t) :
  l ≡ₚ k -> nsf_count_of l = nsf_count_of k.
Proof. intros Hp. apply sum_perm, fmap_Permutation, filter_perm, Hp. Qed.

Lemma unique_dates_perm (l k : list Transaction.t) :
  l ≡ₚ k -> unique_dates_of l = unique_dates_of k.
Proof.
  intros Hp. unfold unique_dates_of. apply set_eq. intros d.
  rewrite !elem_of_list_to_set, Hp. reflexivity.
Qed.

Lemma len_perm {A} (l k : list A) : l ≡ₚ k -> Py.len l = Py.len k.
Proof. intros Hp. unfold Py.len. rewrite (Permutation_length Hp). reflexivity. Qed.

(** With one transaction per date at most, the transactions of a date
    do not depend on the order of the input. *)
Lemma filter_on_date_NoDup (d : Date) (l : list Transaction.t) :
  NoDup (Transaction.date <$> l) -> (length (List.filter (on_date d) l) <= 1)%nat.
Proof.
  induction l as [|t l IH]; intros Hnd; [simpl; lia|].
  rewrite fmap_cons in Hnd. apply NoDup_cons in Hnd. destruct Hnd as [Hnotin Hnd].
  simpl. destruct (on_date d t) eqn:Ht; [|apply IH, Hnd].
  assert (E : List.filter (on_date d) l = []).
  { destruct (List.filter (on_date d) l) as [|u k] eqn:Hf; [reflexivity|exfalso].
    assert (Hin : In u (List.filter (on_date d) l)) by (rewrite Hf; left; reflexivity).
    apply filter_In in Hin. destruct Hin as [Hin Hu].
    apply Hnotin. apply list_elem_of_fmap. exists u.
    split; [|apply list_elem_of_In, Hin].
    unfold on_date in Ht, Hu. lia. }
  rewrite E. simpl. lia.
Qed.

Lemma perm_short {A} (l k : list A) : l ≡ₚ k -> (length l <= 1)%nat -> l = k.
Proof.
  intros Hp Hl. destruct l as [|x [|y l]]; simpl in Hl; [| |lia].
  - apply Permutation_nil_l in Hp. congruence.
  - apply Permutation_singleton_l in Hp. congruence.
Qed.

Lemma day_balance_perm (l k : list Transaction.t) (d : Date) :
  l ≡ₚ k -> NoDup (Transaction.date <$> l) -> day_balance l d = day_balance k d.
Proof.
  intros Hp Hnd. unfold day_balance. rewrite (min_date_perm _ _ Hp).
  apply carried_balance_ext. intros x. unfold known_balance.
  rewrite !sorted_by_date_stable.
  rewrite (perm_short _ _ (filter_perm (on_date x) _ _ Hp) (filter_on_date_NoDup x l Hnd)).
  reflexivity.
Qed.

(** X5.  The analyzer does not depend on the order of its input when no two
    transactions share a date; in general only the average daily balance
    depends on it (through the order of the transactions of one day). *)
Theorem analyze_transactions_permutation (txns txns' : list Transaction.t) :
  txns ≡ₚ txns' ->
  (NoDup (Transaction.date <$> txns) ->
   analyze_transactions txns' = analyze_transactions txns) /\
  (forall rf, analyze_transactions txns = Ok rf ->
     exists avg, analyze_transactions txns'
                 = Ok (RiskFactors.mk avg
                         (RiskFactors.total_income_cents rf)
                         (RiskFactors.total_spend_cents rf)
                         (RiskFactors.income_spend_ratio rf)
                         (RiskFactors.nsf_count rf)
                         (RiskFactors.transaction_count rf)
                         (RiskFactors.days_with_transactions rf))) /\
  (forall e, analyze_transactions txns = Raise e ->
             analyze_transactions txns' = Raise e).
Proof.
  intros Hp.
  assert (Hempty : txns = [] -> analyze_transactions txns' = analyze_transactions txns).
  { intros ->. apply Permutation_nil_l in Hp. subst. reflexivity. }
  assert (Hne' : txns <> [] -> txns' <> []).
  { intros Hne ->. apply Permutation_nil_r in Hp. contradiction. }
  split; [|split].
  - intros Hnd. destruct (decide (txns = [])) as [E|Hne]; [apply Hempty, E|].
    rewrite (analyze_transactions_unfold txns Hne),
      (analyze_transactions_unfold txns' (Hne' Hne)).
    rewrite <- (min_date_perm _ _ Hp), <- (max_date_perm _ _ Hp),
      <- (total_income_perm _ _ Hp), <- (total_spend_perm _ _ Hp),
      <- (nsf_count_perm _ _ Hp), <- (len_perm _ _ Hp), <- (unique_dates_perm _ _ Hp).
    assert (E : day_balance txns' <$> generate_date_range (min_date txns) (max_date txns)
                = day_balance txns <$> generate_date_range (min_date txns) (max_date txns)).
    { apply list_fmap_ext. intros i d _. symmetry. apply day_balance_perm; assumption. }
    rewrite E. reflexivity.
  - intros rf H.
    destruct (analyze_transactions_fields _ _ H)
      as (Hne & _ & -> & -> & Hr & -> & -> & ->).
    rewrite (analyze_transactions_unfold txns' (Hne' Hne)).
    rewrite <- (total_income_perm _ _ Hp), <- (total_spend_perm _ _ Hp),
      <- (nsf_count_perm _ _ Hp), <- (len_perm _ _ Hp), <- (unique_dates_perm _ _ Hp).
    rewrite Hr, bind_ok. eexists. reflexivity.
  - intros e H. destruct (decide (txns = [])) as [E|Hne].
    + rewrite (Hempty E). exact H.
    + rewrite (analyze_transactions_unfold txns Hne) in H.
      rewrite (analyze_transactions_unfold txns' (Hne' Hne)).
      rewrite <- (total_income_perm _ _ Hp), <- (total_spend_perm _ _ Hp).
      destruct (income_spend_ratio_of _ _) as [r|e']; [discriminate|].
      rewrite bind_raise in H |- *. exact H.
Qed.

Lemma analyze_transactions_permutation_witness :
  analyze_transactions
    [sample_txn 5 100 "debit" 80000; sample_txn 0 100 "debit" 100000]
  = analyze_transactions
      [sample_txn 0 100 "debit" 100000; sample_txn 5 100 "debit" 80000].
Proof.
  apply (analyze_transactions_permutation
           [sample_txn 0 100 "debit" 100000; sample_txn 5 100 "debit" 80000]
           [sample_txn 5 100 "debit" 80000; sample_txn 0 100 "debit" 100000]).
  - apply perm_swap.
  - simpl. apply NoDup_cons. split.
    + intros H. apply elem_of_cons in H. destruct H as [H|H]; [discriminate|inversion H].
    + apply NoDup_cons. split; [intros H; inversion H|apply NoDup_nil_2].
Defined.

(** ** Monotonicity of the limit policy *)

Lemma ltb_threshold (s a b : float) :
  (a <=? b)%float = true -> (s <? a)%float = true -> (s <? b)%float = true.
Proof.
  intros Hab Hs. apply ltb_key in Hs. apply leb_key in Hab. apply ltb_key.
  destruct Hs as (Ns & _ & K1), Hab as (_ & Nb & K2).
  split; [exact Ns|]. split; [exact Nb|]. unfold key_lt, key_le in *. lia.
Qed.

(** The four branches, with the outcome of the three comparisons. *)
Lemma determine_credit_limit_cases (score : float) :
  ((score <? 0.2)%float = true /\ (score <? 0.4)%float = true /\
   (score <? 0.7)%float = true /\
   determine_credit_limit score = (false, 0, "high_risk"%string)) \/
  ((score <? 0.2)%float = false /\ (score <? 0.4)%float = true /\
   (score <? 0.7)%float = true /\
   determine_credit_limit score = (true, 10000, "moderate_risk"%string)) \/
  ((score <? 0.2)%float = false /\ (score <? 0.4)%float = false /\
   (score <? 0.7)%float = true /\
   determine_credit_limit score = (true, 40000, "acceptable_risk"%string)) \/
  ((score <? 0.2)%float = false /\ (score <? 0.4)%float = false /\
   (score <? 0.7)%float = false /\
   determine_credit_limit score = (true, 100000, "low_risk"%string)).
Proof.
  pose proof (ltb_threshold score 0.2 0.4 ltac:(reflexivity)) as H24.
  pose proof (ltb_threshold score 0.4 0.7 ltac:(reflexivity)) as H47.
  unfold determine_credit_limit.
  destruct (score <? 0.2)%float eqn:H2.
  { left. rewrite (H47 (H24 eq_refl)), (H24 eq_refl). repeat split; reflexivity. }
  destruct (score <? 0.4)%float eqn:H4.
  { right; left. rewrite (H47 eq_refl). repeat split; reflexivity. }
  destruct (score <? 0.7)%float eqn:H7.
  { right; right; left. repeat split; reflexivity. }
  right; right; right. repeat split; reflexivity.
Qed.

Lemma credit_limit_mono (s1 s2 : float) :
  (s1 <=? s2)%float = true ->
  (determine_credit_limit s1).1.2 <= (determine_credit_limit s2).1.2 /\
  ((determine_credit_limit s1).1.1 = true -> (determine_credit_limit s2).1.1 = true).
Proof.
  intros Hle.
  assert (Hlt : forall c, (s2 <? c)%float = true -> (s1 <? c)%float = true)
    by (intros c; apply leb_ltb_trans, Hle).
  destruct (determine_credit_limit_cases s1)
    as [(A & B & C & ->)|[(A & B & C & ->)|[(A & B & C & ->)|(A & B & C & ->)]]],
    (determine_credit_limit_cases s2)
    as [(D & E & F & ->)|[(D & E & F & ->)|[(D & E & F & ->)|(D & E & F & ->)]]];
    repeat match goal with
      | H : (s2 <? _)%float = true |- _ => apply Hlt in H
      end;
    simpl; first [congruence | split; [lia|congruence]].
Qed.

(** X6.  The limit policy is monotone: a score at least as large gets a
    limit at least as large and keeps an approval. For every score, also one
    that is not a number, the decision is an approval exactly when the limit
    is positive, that is when the band is not high_risk, and a refusal
    exactly when the score is below 0.2; a score that is not a number gets
    the top limit. *)
Theorem determine_credit_limit_monotone (s1 s2 : float) :
  ((s1 <=? s2)%float = true ->
   (determine_credit_limit s1).1.2 <= (determine_credit_limit s2).1.2 /\
   ((determine_credit_limit s1).1.1 = true -> (determine_credit_limit s2).1.1 = true)) /\
  ((determine_credit_limit s1).1.1 = true <-> 0 < (determine_credit_limit s1).1.2) /\
  ((determine_credit_limit s1).1.1 = false <->
   (determine_credit_limit s1).2 = "high_risk"%string) /\
  ((determine_credit_limit s1).1.1 = false <-> (s1 <? 0.2)%float = true) /\
  (PrimFloat.is_nan s1 = true ->
   determine_credit_limit s1 = (true, 100000, "low_risk"%string)).
Proof.
  split; [|split; [|split; [|split]]].
  - apply credit_limit_mono.
  - destruct (determine_credit_limit_cases s1)
      as [(A & B & C & ->)|[(A & B & C & ->)|[(A & B & C & ->)|(A & B & C & ->)]]];
      simpl; split; intros Hyp; try reflexivity; try discriminate; lia.
  - destruct (determine_credit_limit_cases s1)
      as [(A & B & C & ->)|[(A & B & C & ->)|[(A & B & C & ->)|(A & B & C & ->)]]];
      simpl; split; intros Hyp; try reflexivity; discriminate.
  - destruct (determine_credit_limit_cases s1)
      as [(A & B & C & ->)|[(A & B & C & ->)|[(A & B & C & ->)|(A & B & C & ->)]]];
      simpl; split; intros Hyp; try reflexivity; try discriminate; congruence.
  - intros Hn. rewrite is_nan_spec in Hn.
    assert (Hf : forall c, (s1 <? c)%float = false).
    { intros c. destruct (s1 <? c)%float eqn:E; [|reflexivity].
      apply ltb_key in E. destruct E as (N & _). congruence. }
    unfold determine_credit_limit. rewrite !Hf. reflexivity.
Qed.

(** X7.  A larger average balance never lowers the credit limit and never
    turns an approval into a refusal. *)
Theorem credit_limit_monotone_in_balance
    (avg1 avg2 income spend : Z) (ratio : float) (nsf cnt days : Z) (s1 s2 : float) :
  avg1 <= avg2 ->
  calculate_risk_score (RiskFactors.mk avg1 income spend ratio nsf cnt days) = Ok s1 ->
  calculate_risk_score (RiskFactors.mk avg2 income spend ratio nsf cnt days) = Ok s2 ->
  (determine_credit_limit s1).1.2 <= (determine_credit_limit s2).1.2 /\
  ((determine_credit_limit s1).1.1 = true -> (determine_credit_limit s2).1.1 = true).
Proof.
  intros Havg H1 H2.
  apply calculate_risk_score_unfold in H1, H2.
  destruct H1 as (q1 & Hq1 & ->), H2 as (q2 & Hq2 & ->).
  pose proof (truediv_mono avg1 avg2 balance_baseline q1 q2
                ltac:(reflexivity) Havg Hq1 Hq2) as Hq.
  destruct (leb_not_nan _ _ Hq) as [Nq1 Nq2].
  assert (N1 : is_nan_SF (Prim2SF 1) = false) by reflexivity.
  destruct (is_nan_SF (Prim2SF ratio)) eqn:Nr.
  - rewrite !weighted_nan_income by exact Nr. split; [lia|tauto].
  - apply credit_limit_mono, weighted_mono_balance.
    + apply min_mono; assumption.
    + apply min_le; assumption.
    + apply min_of_number; assumption.
    + apply min_le; assumption.
    + apply nsf_term_finite.
Qed.

Lemma credit_limit_monotone_in_balance_witness :
  (determine_credit_limit 0.28).1.2 <= (determine_credit_limit 0.6).1.2.
Proof.
  apply (credit_limit_monotone_in_balance 20000 100000 900000 600000 0.5 1 50 30 0.28 0.6);
    [lia|reflexivity|reflexivity].
Defined.

(** ** Outcomes of a credit decision *)

Lemma truediv_raises (a b : Z) (e : exn) :
  0 < b -> Py.truediv a b = Raise e -> e = OverflowError.
Proof.
  intros Hb. unfold Py.truediv. destruct (Z.eqb_spec b 0); [lia|].
  unfold Py.checked. destruct (SFdiv prec emax (Py.Z2SF a) (Py.Z2SF b));
    intros H; try discriminate; congruence.
Qed.

Lemma income_spend_ratio_number (income spend : Z) (r : float) :
  income_spend_ratio_of income spend = Ok r -> is_nan_SF (Prim2SF r) = false.
Proof.
  unfold income_spend_ratio_of. destruct (Z.ltb_spec 0 spend) as [Hs|Hs].
  - intros H. destruct (truediv_spec _ _ _ Hs H) as [_ F]. apply finite_not_nan, F.
  - intros [= <-]. reflexivity.
Qed.

Lemma make_credit_decision_inv (txns : list Transaction.t) (d : CreditDecision.t) :
  make_credit_decision txns = Ok d ->
  analyze_transactions txns = Ok (CreditDecision.risk_factors d) /\
  calculate_risk_score (CreditDecision.risk_factors d) = Ok (CreditDecision.score d) /\
  determine_credit_limit (CreditDecision.score d)
  = (CreditDecision.approved d, CreditDecision.credit_limit_cents d,
     CreditDecision.score_band d).
Proof.
  unfold make_credit_decision.
  destruct (analyze_transactions txns) as [rf|e]; [|discriminate].
  rewrite bind_ok. destruct (calculate_risk_score rf) as [s|e] eqn:Hs; [|discriminate].
  rewrite bind_ok. destruct (determine_credit_limit s) as [[a l] b] eqn:E.
  intros [= <-]. simpl. rewrite E. split; [reflexivity|]. split; [exact Hs|reflexivity].
Qed.

Lemma make_credit_decision_score_number (txns : list Transaction.t)
    (d : CreditDecision.t) :
  make_credit_decision txns = Ok d ->
  is_nan_SF (Prim2SF (RiskFactors.income_spend_ratio (CreditDecision.risk_factors d)))
  = false /\
  is_nan_SF (Prim2SF (CreditDecision.score d)) = false.
Proof.
  intros H. destruct (make_credit_decision_inv _ _ H) as (Ha & Hs & _).
  destruct (analyze_transactions_fields _ _ Ha) as (_ & _ & _ & _ & Hr & _).
  pose proof (income_spend_ratio_number _ _ _ Hr) as Nr.
  split; [exact Nr|].
  destruct (score_components _ _ Hs) as (q & _ & Nb & Hb1 & _ & _ & Es).
  assert (N1 : is_nan_SF (Prim2SF 1) = false) by reflexivity.
  pose proof (weighted_upper _ _ _ Nb Hb1 (min_of_number _ 1 Nr N1) (min_le _ 1 Nr N1)
                (nsf_term_finite
                   (RiskFactors.nsf_count (CreditDecision.risk_factors d)))) as Hup.
  rewrite <- Es in Hup. apply leb_not_nan in Hup. tauto.
Qed.

(** X8.  The outcomes of [make_credit_decision]. It returns a decision for
    every non-empty history whose balances and total income are below
    [2^1023] in absolute value. A decision it returns holds the risk factors
    of the analyzer, their score (which is a number, at most 1.0) and the
    limit, approval and band of that score. When it fails, the history is
    empty and the error is [InsufficientDataError], or the error is
    [OverflowError]. *)
Theorem make_credit_decision_outcomes (txns : list Transaction.t) :
  (txns <> [] ->
   (forall t, t ∈ txns -> Z.abs (Transaction.balance_cents t) < 2 ^ 1023) ->
   Z.abs (total_income_of txns) < 2 ^ 1023 ->
   exists d, make_credit_decision txns = Ok d) /\
  (forall d, make_credit_decision txns = Ok d ->
     analyze_transactions txns = Ok (CreditDecision.risk_factors d) /\
     calculate_risk_score (CreditDecision.risk_factors d) = Ok (CreditDecision.score d) /\
     determine_credit_limit (CreditDecision.score d)
     = (CreditDecision.approved d, CreditDecision.credit_limit_cents d,
        CreditDecision.score_band d) /\
     PrimFloat.is_nan (CreditDecision.score d) = false /\
     (CreditDecision.score d <=? 1)%float = true) /\
  (forall e, make_credit_decision txns = Raise e ->
     (txns = [] /\ e = InsufficientDataError) \/
     (txns <> [] /\ e = OverflowError)).
Proof.
  split; [|split].
  - intros Hne Hb Hi.
    assert (Hr : exists r, income_spend_ratio_of (total_income_of txns)
                             (total_spend_of txns) = Ok r).
    { unfold income_spend_ratio_of. destruct (Z.ltb_spec 0 (total_spend_of txns)).
      - apply truediv_returns; assumption.
      - eexists. reflexivity. }
    destruct Hr as [r Hr].
    unfold make_credit_decision.
    rewrite (analyze_transactions_unfold txns Hne), Hr, !bind_ok.
    unfold calculate_risk_score. simpl.
    destruct (truediv_returns
                (Py.sum (day_balance txns
                           <$> generate_date_range (min_date txns) (max_date txns))
                 / (max_date txns - min_date txns + 1))
                balance_baseline ltac:(reflexivity)) as [q Hq].
    { pose proof (avg_daily_balance_bounds txns (- (2 ^ 1023 - 1)) (2 ^ 1023 - 1) Hne) as HB.
      assert (forall t, t ∈ txns ->
                - (2 ^ 1023 - 1) <= Transaction.balance_cents t <= 2 ^ 1023 - 1).
      { intros t Ht. specialize (Hb t Ht). lia. }
      specialize (HB H). lia. }
    rewrite Hq, !bind_ok.
    destruct (determine_credit_limit _) as [[a l] b]. eexists. reflexivity.
  - intros d H. destruct (make_credit_decision_inv _ _ H) as (Ha & Hs & Hd).
    split; [exact Ha|]. split; [exact Hs|]. split; [exact Hd|].
    destruct (make_credit_decision_score_number _ _ H) as [Nr Ns].
    split; [rewrite is_nan_spec; exact Ns|].
    destruct (score_components _ _ Hs) as (q & _ & Nb & Hb1 & _ & _ & Es).
    assert (N1 : is_nan_SF (Prim2SF 1) = false) by reflexivity.
    pose proof (weighted_upper _ _ _ Nb Hb1 (min_of_number _ 1 Nr N1) (min_le _ 1 Nr N1)
                  (nsf_term_finite
                     (RiskFactors.nsf_count (CreditDecision.risk_factors d)))) as Hup.
    rewrite <- Es in Hup. eapply leb_trans; [exact Hup|].
    unfold nsf_score_of.
    destruct (RiskFactors.nsf_count (CreditDecision.risk_factors d) =? 0); reflexivity.
  - intros e H. destruct (decide (txns = [])) as [->|Hne].
    + left. split; [reflexivity|]. vm_compute in H. congruence.
    + right. split; [exact Hne|]. unfold make_credit_decision in H.
      rewrite (analyze_transactions_unfold txns Hne) in H.
      unfold income_spend_ratio_of in H.
      destruct (Z.ltb_spec 0 (total_spend_of txns)) as [Hs|Hs].
      * destruct (Py.truediv (total_income_of txns) (total_spend_of txns)) as [r|e'] eqn:Hr.
        -- rewrite !bind_ok in H. unfold calculate_risk_score in H. simpl in H.
           destruct (Py.truediv _ balance_baseline) as [q|e''] eqn:Hq.
           ++ rewrite !bind_ok in H. destruct (determine_credit_limit _) as [[a l] b].
              discriminate.
           ++ rewrite !bind_raise in H. injection H as <-.
              apply (truediv_raises _ balance_baseline _ ltac:(reflexivity) Hq).
        -- rewrite !bind_raise in H. injection H as <-.
           apply (truediv_raises _ _ _ Hs Hr).
      * rewrite !bind_ok in H. unfold calculate_risk_score in H. simpl in H.
        destruct (Py.truediv _ balance_baseline) as [q|e''] eqn:Hq.
        -- rewrite !bind_ok in H. destruct (determine_credit_limit _) as [[a l] b].
           discriminate.
        -- rewrite !bind_raise in H. injection H as <-.
           apply (truediv_raises _ balance_baseline _ ltac:(reflexivity) Hq).
Qed.

Lemma make_credit_decision_outcomes_witness :
  exists d, make_credit_decision overdrawn_txns = Ok d.
Proof.
  apply (proj1 (make_credit_decision_outcomes overdrawn_txns)).
  - discriminate.
  - intros t Ht. apply elem_of_cons in Ht. destruct Ht as [->|Ht]; [|inversion Ht].
    vm_compute. reflexivity.
  - vm_compute. reflexivity.
Defined.

(** X9.  A history without spend (no debit, or debits that do not add up to
    a positive amount) has the income/spend ratio 0.0, so its score is at
    most 0.6 and its limit at most 400 dollars, whatever its balance. *)
Theorem make_credit_decision_no_spend (txns : list Transaction.t)
    (d : CreditDecision.t) :
  make_credit_decision txns = Ok d ->
  total_spend_of txns <= 0 ->
  RiskFactors.income_spend_ratio (CreditDecision.risk_factors d) = 0%float /\
  (CreditDecision.score d <=? 0.6)%float = true /\
  CreditDecision.credit_limit_cents d <= 40000 /\
  CreditDecision.score_band d <> "low_risk"%string.
Proof.
  intros H Hspend. destruct (make_credit_decision_inv _ _ H) as (Ha & Hs & Hd).
  destruct (analyze_transactions_fields _ _ Ha) as (_ & _ & _ & _ & Hr & _).
  unfold income_spend_ratio_of in Hr.
  destruct (Z.ltb_spec 0 (total_spend_of txns)) as [Hlt|_]; [lia|].
  injection Hr as Hr. split; [symmetry; exact Hr|].
  destruct (score_components _ _ Hs) as (q & _ & Nb & Hb1 & _ & _ & Es).
  rewrite <- Hr in Es. change (Py.min 0 1) with 0%float in Es.
  assert (Hle : (CreditDecision.score d <=? 0.6)%float = true).
  { rewrite Es.
    eapply leb_trans.
    - apply (weighted_mono_balance _ 1 0); try assumption; try reflexivity.
      apply nsf_term_finite.
    - unfold nsf_score_of.
      destruct (RiskFactors.nsf_count (CreditDecision.risk_factors d) =? 0); reflexivity. }
  split; [exact Hle|].
  assert (H7 : (CreditDecision.score d <? 0.7)%float = true)
    by (apply (leb_ltb_trans _ 0.6); [exact Hle|reflexivity]).
  destruct (determine_credit_limit_cases (CreditDecision.score d))
    as [(A & B & C & E)|[(A & B & C & E)|[(A & B & C & E)|(A & B & C & E)]]];
    rewrite E in Hd; injection Hd as _ Hl Hb; rewrite <- Hl, <- Hb;
    try congruence; (split; [lia|discriminate]).
Qed.

Lemma make_credit_decision_no_spend_witness :
  exists d, make_credit_decision [sample_txn 0 500000 "credit" 200000] = Ok d /\
            CreditDecision.credit_limit_cents d <= 40000.
Proof.
  eexists. split; [reflexivity|].
  apply (make_credit_decision_no_spend [sample_txn 0 500000 "credit" 200000]);
    [reflexivity|vm_compute; discriminate].
Defined.

(** ** Well-formed histories *)

Lemma truediv_zero (b : Z) : 0 < b -> Py.truediv 0 b = Ok 0%float.
Proof.
  intros Hb. unfold Py.truediv. destruct (Z.eqb_spec b 0); [lia|].
  destruct b as [|p|p]; try lia. reflexivity.
Qed.

Lemma sum_nonneg (l : list Z) : Forall (fun x => 0 <= x) l -> 0 <= Py.sum l.
Proof.
  induction 1 as [|x l Hx _ IH]; [rewrite sum_nil; lia|].
  rewrite sum_cons. lia.
Qed.

(** X10.  On a history without negative balances and with a total income
    that is not negative, the score of the decision lies between 0.0 and
    1.0, and it is at least 0.2 when no transaction carries the NSF flag. *)
Theorem make_credit_decision_score_range (txns : list Transaction.t)
    (d : CreditDecision.t) :
  make_credit_decision txns = Ok d ->
  (forall t, t ∈ txns -> 0 <= Transaction.balance_cents t) ->
  0 <= total_income_of txns ->
  (0 <=? CreditDecision.score d)%float = true /\
  (CreditDecision.score d <=? 1)%float = true /\
  ((forall t, t ∈ txns -> Transaction.nsf t = false) ->
   (0.2 <=? CreditDecision.score d)%float = true /\
   CreditDecision.approved d = true).
Proof.
  intros H Hbal Hinc. destruct (make_credit_decision_inv _ _ H) as (Ha & Hs & Hd).
  destruct (analyze_transactions_fields _ _ Ha) as (Hne & Havg & _ & _ & Hr & Hnsf & _).
  assert (Havg0 : 0 <= RiskFactors.avg_daily_balance_cents (CreditDecision.risk_factors d)).
  { rewrite Havg.
    destruct (Z.le_gt_cases (max_date txns - min_date txns + 1) 0) as [Hn|Hn].
    - pose proof (min_le_max_date txns Hne). lia.
    - apply Z.div_pos; [|lia].
      assert (HF : Forall (fun x => 0 <= x)
                 (day_balance txns <$> generate_date_range (min_date txns) (max_date txns))).
      { apply Forall_fmap, Forall_forall. intros day Hday.
        rewrite generate_date_range_seqZ in Hday. apply elem_of_seqZ in Hday.
        destruct (day_balance_elem txns day Hne ltac:(lia)) as (t & Hin & _ & Hb).
        unfold compose. rewrite <- Hb. apply Hbal, Hin. }
      apply sum_nonneg, HF. }
  assert (Hratio : (0 <=? RiskFactors.income_spend_ratio (CreditDecision.risk_factors d))%float
                   = true).
  { unfold income_spend_ratio_of in Hr.
    destruct (Z.ltb_spec 0 (total_spend_of txns)) as [Hsp|Hsp].
    - apply (truediv_mono 0 (total_income_of txns) (total_spend_of txns) 0 _ Hsp Hinc);
        [apply truediv_zero, Hsp|exact Hr].
    - injection Hr as <-. reflexivity. }
  destruct (leb_not_nan _ _ Hratio) as [_ Nr].
  destruct (score_components _ _ Hs) as (q & _ & Nb & Hb1 & Hb0 & _ & Es).
  assert (N1 : is_nan_SF (Prim2SF 1) = false) by reflexivity.
  pose proof (min_of_number _ 1 Nr N1) as Ni.
  pose proof (min_le _ 1 Nr N1) as Hi1.
  pose proof (nsf_term_finite (RiskFactors.nsf_count (CreditDecision.risk_factors d))) as Fn.
  assert (Hi0 : (0 <=? Py.min (RiskFactors.income_spend_ratio
                                 (CreditDecision.risk_factors d)) 1)%float = true).
  { change 0%float with (Py.min 0 1) at 1. apply min_mono; assumption. }
  pose proof (weighted_upper _ _ _ Nb Hb1 Ni Hi1 Fn) as Hup.
  pose proof (weighted_lower _ _ _ (Hb0 Havg0) Hb1 Hi0 Hi1 Fn) as Hlo.
  rewrite <- Es in Hup, Hlo.
  split; [|split].
  - eapply leb_trans; [|exact Hlo]. unfold nsf_score_of.
    destruct (RiskFactors.nsf_count (CreditDecision.risk_factors d) =? 0); reflexivity.
  - eapply leb_trans; [exact Hup|]. unfold nsf_score_of.
    destruct (RiskFactors.nsf_count (CreditDecision.risk_factors d) =? 0); reflexivity.
  - intros Hflag.
    assert (Hzero : RiskFactors.nsf_count (CreditDecision.risk_factors d) = 0).
    { rewrite Hnsf. apply nsf_count_zero. intros t Ht. unfold is_nsf.
      rewrite (Hflag t Ht). specialize (Hbal t Ht). simpl. lia. }
    assert (H02 : (0.2 <=? CreditDecision.score d)%float = true).
    { eapply leb_trans; [|exact Hlo]. unfold nsf_score_of. rewrite Hzero. reflexivity. }
    split; [exact H02|].
    destruct (determine_credit_limit_cases (CreditDecision.score d))
      as [(A & _ & _ & E)|[(_ & _ & _ & E)|[(_ & _ & _ & E)|(_ & _ & _ & E)]]];
      rewrite E in Hd; injection Hd as <- _ _; try reflexivity.
    apply ltb_leb_false in A. congruence.
Qed.

Lemma make_credit_decision_score_range_witness :
  exists d, make_credit_decision [sample_txn 0 500000 "credit" 200000] = Ok d /\
            (0 <=? CreditDecision.score d)%float = true.
Proof.
  eexists. split; [reflexivity|].
  apply (make_credit_decision_score_range [sample_txn 0 500000 "credit" 200000]).
  - reflexivity.
  - intros t Ht. apply elem_of_cons in Ht. destruct Ht as [->|Ht]; [|inversion Ht].
    simpl. lia.
  - vm_compute. discriminate.
Defined.

(** X11.  When all transactions carry the same date, the average daily
    balance is the balance of the last transaction of the input. *)
Theorem analyze_transactions_single_day (txns : list Transaction.t)
    (rf : RiskFactors.t) (day : Date) (last_txn : Transaction.t) :
  analyze_transactions txns = Ok rf ->
  (forall t, t ∈ txns -> Transaction.date t = day) ->
  last txns = Some last_txn ->
  RiskFactors.avg_daily_balance_cents rf = Transaction.balance_cents last_txn /\
  RiskFactors.days_with_transactions rf = 1.
Proof.
  intros H Hday Hlast.
  destruct (analyze_transactions_fields _ _ H) as (Hne & -> & _ & _ & _ & _ & _ & ->).
  destruct (min_date_attained txns Hne) as (a & Ha & Ea).
  destruct (max_date_attained txns Hne) as (b & Hb & Eb).
  rewrite (Hday a Ha) in Ea. rewrite (Hday b Hb) in Eb.
  rewrite <- Ea, <- Eb.
  assert (Hfilter : List.filter (on_date day) txns = txns).
  { clear -Hday. induction txns as [|t l IH]; [reflexivity|].
    simpl. unfold on_date at 1. rewrite (Hday t) by left. rewrite Z.eqb_refl.
    f_equal. apply IH. intros u Hu. apply Hday. right. exact Hu. }
  split.
  - rewrite generate_date_range_seqZ. replace (day - day + 1) with 1 by lia.
    change (seqZ day 1) with [0 + day]. rewrite fmap_cons, fmap_nil, sum_cons, sum_nil.
    rewrite Z.add_0_l.
    unfold day_balance. rewrite <- Ea. replace (day - day) with 0 by lia.
    simpl carried_balance. unfold known_balance.
    rewrite sorted_by_date_stable, Hfilter, Hlast. simpl.
    rewrite Z.add_0_r. apply Z.div_1_r.
  - unfold unique_dates_of.
    assert (E : list_to_set (C := gset Date) (Transaction.date <$> txns) = {[day]}).
    { apply set_eq. intros x. rewrite elem_of_list_to_set, list_elem_of_fmap, elem_of_singleton.
      split.
      - intros (t & -> & Ht). apply Hday, Ht.
      - intros ->. exists a. split; [symmetry; apply Hday, Ha|exact Ha]. }
    rewrite E, size_singleton. reflexivity.
Qed.

Lemma analyze_transactions_single_day_witness :
  exists rf,
    analyze_transactions
      [sample_txn 3 100 "debit" 900; sample_txn 3 200 "credit" 1100;
       sample_txn 3 50 "debit" 1050] = Ok rf /\
    RiskFactors.avg_daily_balance_cents rf = 1050 /\
    RiskFactors.days_with_transactions rf = 1.
Proof.
  eexists. split; [reflexivity|].
  apply (analyze_transactions_single_day
           [sample_txn 3 100 "debit" 900; sample_txn 3 200 "credit" 1100;
            sample_txn 3 50 "debit" 1050] _ 3 (sample_txn 3 50 "debit" 1050)).
  - reflexivity.
  - intros t Ht.
    repeat (apply elem_of_cons in Ht; destruct Ht as [->|Ht]; [reflexivity|]).
    inversion Ht.
  - reflexivity.
Defined.

(** ** The best history *)

Lemma truediv_ge_one (a b : Z) (q : float) :
  0 < b -> b <= a -> Py.truediv a b = Ok q -> (1 <=? q)%float = true.
Proof.
  intros Hb Hab Hq. destruct (truediv_spec _ _ _ Hb Hq) as [E _].
  rewrite leb_spec, E.
  apply (SFrounds_mono 1 (inject_Z a / inject_Z b)).
  - assert (HB : (0 < inject_Z b)%Q)
      by (change 0%Q with (inject_Z 0); rewrite <- Zlt_Qlt; lia).
    apply Qle_shift_div_l; [exact HB|]. rewrite Qmult_1_l, <- Zle_Qle. exact Hab.
  - apply (SFrounds_ext (SF2Q (Prim2SF 1))); [vm_compute; reflexivity|].
    apply valid_rounds_self; reflexivity.
  - apply SFdiv_Z_rounds, Hb.
Qed.

Lemma balances_bounded (txns : list Transaction.t) :
  exists hi, forall t, t ∈ txns -> Transaction.balance_cents t <= hi.
Proof.
  induction txns as [|u l [hi IH]].
  - exists 0. intros t Ht. inversion Ht.
  - exists (Z.max (Transaction.balance_cents u) hi). intros t Ht.
    apply elem_of_cons in Ht. destruct Ht as [->|Ht]; [lia|].
    specialize (IH t Ht). lia.
Qed.

(** X12.  The best history: when every transaction leaves a balance of at
    least 1000 dollars and none carries the NSF flag, and the total spend is
    positive and not larger than the total income, the decision has the
    score 1.0 and is an approval with the limit of 1000 dollars in the band
    low_risk. *)
Theorem make_credit_decision_best (txns : list Transaction.t)
    (d : CreditDecision.t) :
  make_credit_decision txns = Ok d ->
  (forall t, t ∈ txns ->
     100000 <= Transaction.balance_cents t /\ Transaction.nsf t = false) ->
  0 < total_spend_of txns <= total_income_of txns ->
  CreditDecision.score d = 1%float /\
  CreditDecision.approved d = true /\
  CreditDecision.credit_limit_cents d = 100000 /\
  CreditDecision.score_band d = "low_risk"%string.
Proof.
  intros H Hall Hspend. destruct (make_credit_decision_inv _ _ H) as (Ha & Hs & Hd).
  destruct (analyze_transactions_fields _ _ Ha) as (Hne & Havg & _ & _ & Hr & Hnsf & _).
  assert (Havg1 : 100000 <= RiskFactors.avg_daily_balance_cents (CreditDecision.risk_factors d)).
  { rewrite Havg. destruct (balances_bounded txns) as [hi Hhi].
    apply (avg_daily_balance_bounds txns 100000 hi Hne).
    intros t Ht. split; [apply Hall, Ht|apply Hhi, Ht]. }
  assert (Hratio : (1 <=? RiskFactors.income_spend_ratio (CreditDecision.risk_factors d))%float
                   = true).
  { unfold income_spend_ratio_of in Hr.
    destruct (Z.ltb_spec 0 (total_spend_of txns)) as [Hsp|Hsp]; [|lia].
    apply (truediv_ge_one (total_income_of txns) (total_spend_of txns) _ Hsp);
      [lia|exact Hr]. }
  assert (Hzero : RiskFactors.nsf_count (CreditDecision.risk_factors d) = 0).
  { rewrite Hnsf. apply nsf_count_zero. intros t Ht. unfold is_nsf.
    destruct (Hall t Ht) as [Hb ->]. simpl. lia. }
  destruct (score_components _ _ Hs) as (q & _ & _ & _ & _ & Hcap & Es).
  rewrite (Hcap Havg1), (min_capped _ Hratio), Hzero in Es.
  change (Py.round3 (0.4 * 1 + 0.4 * 1 + 0.2 * nsf_score_of 0)) with 1%float in Es.
  rewrite Es in Hd. change (determine_credit_limit 1) with (true, 100000, "low_risk"%string) in Hd.
  injection Hd as <- <- <-. rewrite Es. repeat split; reflexivity.
Qed.

Lemma make_credit_decision_best_witness :
  exists d,
    make_credit_decision
      [sample_txn 0 300000 "credit" 200000; sample_txn 3 50000 "debit" 150000] = Ok d /\
    CreditDecision.score d = 1%float.
Proof.
  eexists. split; [reflexivity|].
  apply (make_credit_decision_best
           [sample_txn 0 300000 "credit" 200000; sample_txn 3 50000 "debit" 150000]).
  - reflexivity.
  - intros t Ht.
    repeat (apply elem_of_cons in Ht; destruct Ht as [->|Ht]; [simpl; split; [lia|reflexivity]|]).
    inversion Ht.
  - vm_compute. split; [reflexivity|discriminate].
Defined.

(** ** Scores are thousandths *)

Lemma unit_range_finite (s : float) :
  (0 <=? s)%float = true -> (s <=? 1)%float = true ->
  is_finite_SF (Prim2SF s) = true.
Proof.
  intros H0 H1. apply leb_key in H0. apply leb_key in H1.
  destruct H0 as (_ & Ns & K0), H1 as (_ & _ & K1).
  change (SFkey (Prim2SF 0)) with (0, 0, 0) in K0.
  change (SFkey (Prim2SF 1)) with (1, -52, 4503599627370496) in K1.
  destruct (Prim2SF s) as [sg|sg| |sg m e]; try reflexivity; exfalso.
  - destruct sg; unfold key_le in *; simpl in *; lia.
  - discriminate.
Qed.

Lemma eqb_self (s : float) : is_nan_SF (Prim2SF s) = false -> (s =? s)%float = true.
Proof.
  intros N. rewrite FloatAxioms.eqb_spec. unfold SFeqb.
  rewrite SFcompare_key by assumption.
  assert (E : lex3 (SFkey (Prim2SF s)) (SFkey (Prim2SF s)) = Eq).
  { unfold lex3. rewrite !Z.compare_refl. reflexivity. }
  rewrite E. reflexivity.
Qed.

(** A float in [0, 1] that [round(x, 3)] returns is [n / 1000] for an
    integer [n] from 0 to 1000. *)
Lemma round3_thousandth (x : float) :
  (0 <=? Py.round3 x)%float = true -> (Py.round3 x <=? 1)%float = true ->
  exists n q, 0 <= n <= 1000 /\ Py.truediv n 1000 = Ok q /\
              (Py.round3 x =? q)%float = true.
Proof.
  intros H0 H1.
  pose proof (unit_range_finite _ H0 H1) as Fs.
  pose proof (finite_not_nan _ Fs) as Ns.
  pose proof (round3_spec x) as E. unfold SFround3 in E.
  assert (Hzero : forall sg, Prim2SF (Py.round3 x) = S754_zero sg ->
            exists n q, 0 <= n <= 1000 /\ Py.truediv n 1000 = Ok q /\
                        (Py.round3 x =? q)%float = true).
  { intros sg Ez. exists 0, 0%float. split; [lia|]. split; [reflexivity|].
    rewrite FloatAxioms.eqb_spec, Ez. destruct sg; reflexivity. }
  assert (Hdiv : forall n, Prim2SF (Py.round3 x)
                           = SFdiv prec emax (Py.Z2SF n) (Py.Z2SF 1000) ->
            Py.truediv n 1000 = Ok (Py.round3 x)).
  { intros n En. unfold Py.truediv. simpl Z.eqb. cbv iota. rewrite <- En.
    unfold Py.checked. destruct (Prim2SF (Py.round3 x)) eqn:Er; try discriminate;
      rewrite <- Er, SF2Prim_Prim2SF; reflexivity. }
  destruct (Prim2SF x) as [sg|sg| |sg m e] eqn:Ex.
  - apply (Hzero sg). exact E.
  - rewrite E in Fs. discriminate.
  - rewrite E in Ns. discriminate.
  - destruct (Py.scaled_thousandths m e) as [|n|n]; try (apply (Hzero sg); exact E).
    destruct sg.
    + exfalso. pose proof (Hdiv (Zneg n) E) as Hq.
      assert (Hneg : Py.truediv (-1) 1000 = Ok (-0.001)%float) by reflexivity.
      pose proof (truediv_mono (Zneg n) (-1) 1000 _ _ ltac:(reflexivity) ltac:(lia) Hq Hneg)
        as Hle.
      pose proof (leb_trans _ _ _ H0 Hle) as Habs. vm_compute in Habs. discriminate.
    + pose proof (Hdiv (Zpos n) E) as Hq.
      exists (Zpos n), (Py.round3 x). split; [|split; [exact Hq|apply eqb_self, Ns]].
      split; [lia|]. destruct (Z.le_gt_cases (Zpos n) 1000) as [Hle|Hgt]; [exact Hle|exfalso].
      assert (Hbig : Py.truediv 1001 1000 = Ok 1.001%float) by reflexivity.
      pose proof (truediv_mono 1001 (Zpos n) 1000 _ _ ltac:(reflexivity) ltac:(lia) Hbig Hq)
        as Hge.
      pose proof (leb_trans _ _ _ Hge H1) as Habs. vm_compute in Habs. discriminate.
Qed.

(** X13.  The score is a number of thousandths: when the average balance and
    the income/spend ratio are not negative, the score equals [n / 1000] for
    an integer [n] from 0 to 1000 (there are 1001 possible scores). *)
Theorem calculate_risk_score_thousandths (rf : RiskFactors.t) (s : float) :
  calculate_risk_score rf = Ok s ->
  0 <= RiskFactors.avg_daily_balance_cents rf ->
  (0 <=? RiskFactors.income_spend_ratio rf)%float = true ->
  exists n q, 0 <= n <= 1000 /\ Py.truediv n 1000 = Ok q /\ (s =? q)%float = true.
Proof.
  intros Hs Havg Hratio.
  destruct (leb_not_nan _ _ Hratio) as [_ Nr].
  destruct (score_components rf s Hs) as (q & _ & Nb & Hb1 & Hb0 & _ & Es).
  assert (N1 : is_nan_SF (Prim2SF 1) = false) by reflexivity.
  pose proof (min_of_number _ 1 Nr N1) as Ni.
  pose proof (min_le _ 1 Nr N1) as Hi1.
  pose proof (nsf_term_finite (RiskFactors.nsf_count rf)) as Fn.
  assert (Hi0 : (0 <=? Py.min (RiskFactors.income_spend_ratio rf) 1)%float = true).
  { change 0%float with (Py.min 0 1) at 1. apply min_mono; assumption. }
  pose proof (weighted_upper _ _ _ Nb Hb1 Ni Hi1 Fn) as Hup.
  pose proof (weighted_lower _ _ _ (Hb0 Havg) Hb1 Hi0 Hi1 Fn) as Hlo.
  rewrite Es. apply round3_thousandth.
  - eapply leb_trans; [|exact Hlo]. unfold nsf_score_of.
    destruct (RiskFactors.nsf_count rf =? 0); reflexivity.
  - eapply leb_trans; [exact Hup|]. unfold nsf_score_of.
    destruct (RiskFactors.nsf_count rf =? 0); reflexivity.
Qed.

Lemma calculate_risk_score_thousandths_witness :
  exists n q, 0 <= n <= 1000 /\ Py.truediv n 1000 = Ok q /\ (0.48 =? q)%float = true.
Proof.
  apply (calculate_risk_score_thousandths
           (RiskFactors.mk 20000 900000 600000 0.5 0 50 30) 0.48);
    [reflexivity|simpl; lia|reflexivity].
Defined.

(** ** The fields the decision reads *)

Lemma financials_inv (t u : Transaction.t) :
  financials t = financials u ->
  Transaction.date t = Transaction.date u /\
  Transaction.amount_cents t = Transaction.amount_cents u /\
  Transaction.type t = Transaction.type u /\
  Transaction.balance_cents t = Transaction.balance_cents u /\
  Transaction.nsf t = Transaction.nsf u.
Proof. unfold financials. intros E. injection E as E1 E2 E3 E4 E5. tauto. Qed.

(** Two lists with the same financial fields, transaction by transaction. *)
Lemma financials_cons_inv (t : Transaction.t) (l k : list Transaction.t) :
  financials <$> (t :: l) = financials <$> k ->
  exists u k', k = u :: k' /\ financials t = financials u /\
               financials <$> l = financials <$> k'.
Proof.
  destruct k as [|u k']; [discriminate|]. rewrite !fmap_cons. intros E.
  exists u, k'. split; [reflexivity|]. split.
  - apply (f_equal (fun x => default (financials t) (head x))) in E. exact E.
  - apply (f_equal tail) in E. exact E.
Qed.

Lemma filter_sum_financials (p : Transaction.t -> bool) (l k : list Transaction.t) :
  (forall t u, financials t = financials u -> p t = p u) ->
  financials <$> l = financials <$> k ->
  financials <$> List.filter p l = financials <$> List.filter p k.
Proof.
  intros Hp. revert k. induction l as [|t l IH]; intros k E.
  - destruct k; [reflexivity|discriminate].
  - destruct (financials_cons_inv _ _ _ E) as (u & k' & -> & Et & El).
    simpl. rewrite (Hp t u Et). destruct (p u).
    + rewrite !fmap_cons, Et, (IH k' El). reflexivity.
    + apply IH, El.
Qed.

Lemma amounts_financials (l k : list Transaction.t) :
  financials <$> l = financials <$> k ->
  Transaction.amount_cents <$> l = Transaction.amount_cents <$> k.
Proof.
  intros E.
  assert (H : forall l : list Transaction.t, Transaction.amount_cents <$> l
                        = (fun f : Z * Z * string * Z * bool => f.1.1.1.2) <$> (financials <$> l)).
  { intros l0. rewrite <- list_fmap_compose. reflexivity. }
  rewrite !H, E. reflexivity.
Qed.

Lemma dates_financials (l k : list Transaction.t) :
  financials <$> l = financials <$> k ->
  Transaction.date <$> l = Transaction.date <$> k.
Proof.
  intros E.
  assert (H : forall l : list Transaction.t, Transaction.date <$> l
                        = (fun f : Z * Z * string * Z * bool => f.1.1.1.1) <$> (financials <$> l)).
  { intros l0. rewrite <- list_fmap_compose. reflexivity. }
  rewrite !H, E. reflexivity.
Qed.

Lemma last_balance_financials (l k : list Transaction.t) :
  financials <$> l = financials <$> k ->
  Transaction.balance_cents <$> last l = Transaction.balance_cents <$> last k.
Proof.
  intros E.
  assert (H : forall l : list Transaction.t, Transaction.balance_cents <$> last l
                        = (fun f : Z * Z * string * Z * bool => f.1.2) <$> last (financials <$> l)).
  { intros l0. rewrite fmap_last, <- option_fmap_compose. reflexivity. }
  rewrite !H, E. reflexivity.
Qed.

(** X14.  The decision reads only the date, the amount, the type, the
    balance and the NSF flag of a transaction: two histories that agree on
    these fields, transaction by transaction, get the same risk factors and
    the same decision, whatever their identifiers, descriptions, categories
    and merchants are. *)
Theorem make_credit_decision_financials (txns txns' : list Transaction.t) :
  financials <$> txns = financials <$> txns' ->
  analyze_transactions txns = analyze_transactions txns' /\
  make_credit_decision txns = make_credit_decision txns'.
Proof.
  intros E.
  assert (Ha : analyze_transactions txns = analyze_transactions txns');
    [|split; [exact Ha|unfold make_credit_decision; rewrite Ha; reflexivity]].
  destruct txns as [|t l].
  { destruct txns'; [reflexivity|discriminate]. }
  assert (Hne : t :: l <> []) by discriminate.
  assert (Hne' : txns' <> []) by (intros ->; discriminate).
  rewrite (analyze_transactions_unfold _ Hne), (analyze_transactions_unfold _ Hne').
  set (txns := t :: l) in *.
  pose proof (dates_financials _ _ E) as Ed.
  assert (Emin : min_date txns = min_date txns') by (unfold min_date; rewrite Ed; reflexivity).
  assert (Emax : max_date txns = max_date txns') by (unfold max_date; rewrite Ed; reflexivity).
  assert (Efilter : forall p, (forall t u, financials t = financials u -> p t = p u) ->
            Py.sum (Transaction.amount_cents <$> List.filter p txns)
            = Py.sum (Transaction.amount_cents <$> List.filter p txns')).
  { intros p Hp. f_equal. apply amounts_financials, filter_sum_financials; assumption. }
  assert (Einc : total_income_of txns = total_income_of txns').
  { apply Efilter. intros a b Hab. unfold is_credit.
    destruct (financials_inv _ _ Hab) as (_ & _ & -> & _). reflexivity. }
  assert (Esp : total_spend_of txns = total_spend_of txns').
  { apply Efilter. intros a b Hab. unfold is_debit.
    destruct (financials_inv _ _ Hab) as (_ & _ & -> & _). reflexivity. }
  assert (Ensf : nsf_count_of txns = nsf_count_of txns').
  { unfold nsf_count_of. rewrite !sum_ones. unfold Py.len. f_equal.
    rewrite <- (length_fmap financials (List.filter is_nsf txns)),
      <- (length_fmap financials (List.filter is_nsf txns')).
    f_equal. apply filter_sum_financials; [|exact E].
    intros a b Hab. unfold is_nsf.
    destruct (financials_inv _ _ Hab) as (_ & _ & _ & -> & ->). reflexivity. }
  assert (Elen : Py.len txns = Py.len txns').
  { unfold Py.len. rewrite <- (length_fmap financials txns), E, length_fmap. reflexivity. }
  assert (Euniq : unique_dates_of txns = unique_dates_of txns')
    by (unfold unique_dates_of; rewrite Ed; reflexivity).
  assert (Eday : forall d, day_balance txns d = day_balance txns' d).
  { intros d. unfold day_balance. rewrite Emin. apply carried_balance_ext.
    intros x. unfold known_balance. rewrite !sorted_by_date_stable.
    apply last_balance_financials, filter_sum_financials; [|exact E].
    intros a b Hab. unfold on_date.
    destruct (financials_inv _ _ Hab) as (-> & _). reflexivity. }
  rewrite Emin, Emax, Einc, Esp, Ensf, Elen, Euniq.
  rewrite (list_fmap_ext (day_balance txns) (day_balance txns')
             (generate_date_range (min_date txns') (max_date txns')))
    by (intros i d _; apply Eday).
  reflexivity.
Qed.

Lemma make_credit_decision_financials_witness :
  make_credit_decision
    [Transaction.mk "a" 0 100 "debit" "rent" "housing" "landlord" (-500) false]
  = make_credit_decision overdrawn_txns.
Proof.
  apply (make_credit_decision_financials
           [Transaction.mk "a" 0 100 "debit" "rent" "housing" "landlord" (-500) false]
           overdrawn_txns).
  reflexivity.
Defined.

(** ** Installment amounts and the date range *)

Lemma plan_elem (today amount count interval : Z) (start : option Date)
    (plan : list Installment.t) (inst : Installment.t) :
  0 < amount -> count <> 0 ->
  generate_installment_plan today amount count interval start = Ok plan ->
  inst ∈ plan ->
  exists i, 0 <= i < count /\
    inst = Installment.mk (default (today + interval) start + i * interval)
             (installment_amount (amount / count) (amount mod count) count i).
Proof.
  intros Ha Hc Hp Hin.
  destruct (plan_inv _ _ _ _ _ _ Ha Hc Hp) as (first & Hf & ->).
  apply first_due_date_inv in Hf. destruct Hf as [-> _].
  apply list_elem_of_fmap in Hin.
  destruct Hin as (i & -> & Hi). unfold Py.range in Hi. apply elem_of_seqZ in Hi.
  exists i. split; [lia|reflexivity].
Qed.

Lemma range_last (count : Z) : 1 <= count -> last (Py.range count) = Some (count - 1).
Proof.
  intros Hc.
  assert (E : count = Z.of_nat (S (Z.to_nat (count - 1)))) by lia.
  rewrite E at 1. rewrite range_S, last_snoc. f_equal. lia.
Qed.

(** X15.  No installment is negative or larger than the total; the amounts
    differ by less than the number of installments, the last one being the
    largest. When the count divides the amount all installments are equal;
    when the amount is smaller than the count every installment but the last
    is zero. *)
Theorem installment_plan_amounts (today amount count interval : Z)
    (start : option Date) (plan : list Installment.t) :
  0 < amount -> 1 <= count ->
  generate_installment_plan today amount count interval start = Ok plan ->
  (forall inst, inst ∈ plan ->
     0 <= Installment.amount_cents inst <= amount /\
     amount / count <= Installment.amount_cents inst <= amount / count + (count - 1)) /\
  (forall inst last_inst, inst ∈ plan -> last plan = Some last_inst ->
     Installment.amount_cents inst <= Installment.amount_cents last_inst) /\
  (amount mod count = 0 ->
   forall inst, inst ∈ plan -> Installment.amount_cents inst = amount / count) /\
  (amount < count ->
   last (Installment.amount_cents <$> plan) = Some amount /\
   forall i inst, 0 <= i < count - 1 -> plan !! Z.to_nat i = Some inst ->
     Installment.amount_cents inst = 0).
Proof.
  intros Ha Hc Hp.
  assert (Hc0 : count <> 0) by lia.
  pose proof (Z.div_mod amount count ltac:(lia)) as Hdm.
  pose proof (Z.mod_pos_bound amount count ltac:(lia)) as Hm.
  pose proof (Z.div_pos amount count ltac:(lia) ltac:(lia)) as Hd.
  assert (Hamt : forall i, 0 <= i < count ->
            0 <= installment_amount (amount / count) (amount mod count) count i <= amount /\
            amount / count <= installment_amount (amount / count) (amount mod count) count i
              <= amount / count + (count - 1)).
  { intros i Hi. unfold installment_amount. destruct (i =? count - 1); nia. }
  assert (Hlast : forall z, last plan = Some z ->
            Installment.amount_cents z = amount / count + amount mod count).
  { intros z Hz. destruct (plan_inv _ _ _ _ _ _ Ha Hc0 Hp) as (first & _ & ->).
    rewrite fmap_last, range_last in Hz by lia. simpl in Hz. injection Hz as <-.
    unfold installment_amount. simpl. rewrite Z.eqb_refl. reflexivity. }
  split; [|split; [|split]].
  - intros inst Hin.
    destruct (plan_elem _ _ _ _ _ _ _ Ha Hc0 Hp Hin) as (i & Hi & ->).
    simpl. apply Hamt, Hi.
  - intros inst z Hin Hz. rewrite (Hlast z Hz).
    destruct (plan_elem _ _ _ _ _ _ _ Ha Hc0 Hp Hin) as (i & Hi & ->).
    simpl. unfold installment_amount. destruct (i =? count - 1); lia.
  - intros Hdiv inst Hin.
    destruct (plan_elem _ _ _ _ _ _ _ Ha Hc0 Hp Hin) as (i & Hi & ->).
    simpl. unfold installment_amount. destruct (i =? count - 1); lia.
  - intros Hsmall.
    assert (Hd0 : amount / count = 0) by (apply Z.div_small; lia).
    assert (Hm0 : amount mod count = amount) by (apply Z.mod_small; lia).
    split.
    + rewrite fmap_last. destruct (last plan) as [z|] eqn:Hz.
      * simpl. rewrite (Hlast z eq_refl). f_equal. lia.
      * apply last_None in Hz.
        destruct (plan_inv _ _ _ _ _ _ Ha Hc0 Hp) as (first & _ & Hp').
        rewrite Hz in Hp'. symmetry in Hp'. apply fmap_nil_inv in Hp'.
        clear Hp. rename Hp' into Hp. apply (f_equal length) in Hp. unfold Py.range in Hp.
        rewrite length_seqZ in Hp. simpl in Hp. lia.
    + intros i inst Hi Hl.
      assert (Hin : inst ∈ plan) by (eapply list_elem_of_lookup_2; exact Hl).
      destruct (plan_inv _ _ _ _ _ _ Ha Hc0 Hp) as (first & _ & ->).
      rewrite list_lookup_fmap in Hl. unfold Py.range in Hl.
      rewrite lookup_seqZ_lt in Hl by lia. simpl in Hl. injection Hl as <-.
      simpl. unfold installment_amount.
      destruct (Z.eqb_spec (0 + Z.of_nat (Z.to_nat i)) (count - 1)); lia.
Qed.

Lemma installment_plan_amounts_witness :
  0 <= 10003 <= 40003 /\ 10000 <= 10003 <= 10000 + (4 - 1).
Proof.
  apply (proj1 (installment_plan_amounts 738886 40003 4 14 None
                  [Installment.mk 738900 10000; Installment.mk 738914 10000;
                   Installment.mk 738928 10000; Installment.mk 738942 10003]
                  ltac:(lia) ltac:(lia) ltac:(reflexivity))
           (Installment.mk 738942 10003)).
  apply list_elem_of_In. simpl. tauto.
Defined.

(** X16.  A negative number of installments is not refused. With a positive
    amount the call returns the empty plan, so that nothing of the amount is
    scheduled, whenever the first due date can be computed: a start date is
    given, or [interval_days] after today is a date of the calendar. When it
    is not, the call raises [OverflowError], as the default start date is
    computed first. *)
Theorem installment_plan_negative_count (today amount count interval : Z)
    (start : option Date) :
  0 < amount -> count < 0 ->
  (forall first, first_due_date today interval start = Ok first ->
     generate_installment_plan today amount count interval start = Ok []) /\
  (forall e, first_due_date today interval start = Raise e ->
     start = None /\
     generate_installment_plan today amount count interval start = Raise OverflowError) /\
  (forall d, start = Some d ->
     generate_installment_plan today amount count interval start = Ok []) /\
  (start = None -> Datetime.valid today = true ->
     (Datetime.valid (today + interval) = true ->
      generate_installment_plan today amount count interval start = Ok []) /\
     (Datetime.valid (today + interval) = false ->
      generate_installment_plan today amount count interval start = Raise OverflowError)) /\
  Py.sum (Installment.amount_cents <$> []) <> amount.
Proof.
  intros Ha Hc.
  assert (Hok : forall first, first_due_date today interval start = Ok first ->
            generate_installment_plan today amount count interval start = Ok []).
  { intros first Hf. rewrite plan_steps, Hf, bind_ok by exact Ha.
    unfold Py.floordiv, Py.mod_. destruct (Z.eqb_spec count 0); [lia|].
    rewrite !bind_ok. unfold Py.range. destruct count; try lia. reflexivity. }
  assert (Hraise : forall e, first_due_date today interval start = Raise e ->
            start = None /\
            generate_installment_plan today amount count interval start
            = Raise OverflowError).
  { intros e He. split; [apply (first_due_date_raises _ _ _ _ He)|].
    apply (plan_first_raises _ _ _ _ _ e); assumption. }
  split; [exact Hok|split; [exact Hraise|split; [|split]]].
  - intros d ->. apply (Hok d). reflexivity.
  - intros -> Hv. unfold first_due_date in Hok, Hraise.
    rewrite (due_date_cases today interval Hv) in Hok, Hraise. split.
    + intros Hd. rewrite Hd in Hok. apply (Hok _ eq_refl).
    + intros Hd. rewrite Hd in Hraise. apply (Hraise _ eq_refl).
  - rewrite fmap_nil, sum_nil. lia.
Qed.

Lemma installment_plan_negative_count_witness :
  generate_installment_plan 738886 40003 (-4) 14 None = Ok [] /\
  generate_installment_plan 738886 40003 (-4) 3000000 None = Raise OverflowError.
Proof.
  destruct (installment_plan_negative_count 738886 40003 (-4) 14 None
              ltac:(lia) ltac:(lia)) as (H & _).
  destruct (installment_plan_negative_count 738886 40003 (-4) 3000000 None
              ltac:(lia) ltac:(lia)) as (_ & _ & _ & H' & _).
  split.
  - apply (H 738900). reflexivity.
  - apply (H' eq_refl); reflexivity.
Defined.

(** X17.  [generate_date_range] lists exactly the days from [start] to
    [end], each once, in increasing order; it is empty when [end] is before
    [start]. *)
Theorem generate_date_range_spec (start end_ : Date) :
  (forall d, d ∈ generate_date_range start end_ <-> start <= d <= end_) /\
  NoDup (generate_date_range start end_) /\
  Py.len (generate_date_range start end_) = Z.max 0 (end_ - start + 1) /\
  (forall i, 0 <= i <= end_ - start ->
     generate_date_range start end_ !! Z.to_nat i = Some (start + i)) /\
  (end_ < start -> generate_date_range start end_ = []) /\
  (start <= end_ ->
   head (generate_date_range start end_) = Some start /\
   last (generate_date_range start end_) = Some end_).
Proof.
  rewrite generate_date_range_seqZ.
  split; [|split; [|split; [|split; [|split]]]].
  - intros d. rewrite elem_of_seqZ. lia.
  - apply NoDup_seqZ.
  - unfold Py.len. rewrite length_seqZ. lia.
  - intros i Hi. rewrite lookup_seqZ_lt by lia. f_equal. lia.
  - intros Hlt. destruct (end_ - start + 1) eqn:E; try lia; reflexivity.
  - intros Hle. split.
    + rewrite head_lookup. change 0%nat with (Z.to_nat 0).
      rewrite lookup_seqZ_lt by lia. f_equal. lia.
    + replace (end_ - start + 1) with (Z.of_nat (S (Z.to_nat (end_ - start)))) by lia.
      rewrite seqZ_S, last_snoc. f_equal. lia.
Qed.

(** ** Accounting of a delivery *)

Section DeliveryAccounting.
Import Ledger.
Variable max_retries : Z.
Variable backoff_base : float.
Variable endpoint : nat -> post_result.

Local Abbreviation retry_loop := (retry_loop max_retries backoff_base endpoint).

Lemma try_post_caught (r : post_result) (e : exn) :
  try_post r = Raise e -> caught e = true.
Proof.
  destruct r as [c| |]; simpl.
  - destruct (is_success c); [discriminate|]. intros [= <-]. reflexivity.
  - intros [= <-]. reflexivity.
  - intros [= <-]. reflexivity.
Qed.

Lemma backoff_raises (attempt : Z) (e : exn) :
  backoff backoff_base attempt = Raise e -> e = OverflowError.
Proof.
  unfold backoff, Py.mul_float_int, Py.float_of_int, Py.checked.
  destruct (binary_normalize prec emax (2 ^ (attempt - 1)) 0 false);
    rewrite ?bind_ok, ?bind_raise; intros H; try discriminate; congruence.
Qed.

Local Abbreviation accounted := (accounted max_retries backoff_base endpoint).

Lemma attempts_nil : attempts [] = 0.
Proof. reflexivity. Qed.

Lemma failure_incs_cons (ev : event) (trace : list event) :
  failure_incs (ev :: trace)
  = (if is_failure_inc ev then 1 else 0) + failure_incs trace.
Proof.
  unfold failure_incs, Py.len. simpl. destruct (is_failure_inc ev); simpl length; lia.
Qed.

Lemma retry_loop_accounted (fuel : nat) (a : Z) :
  0 <= a -> (Z.to_nat (max_retries - a) <= fuel)%nat ->
  accounted a (retry_loop fuel a).
Proof.
  revert a. induction fuel as [|fuel IH]; intros a Ha Hfuel.
  - rewrite retry_loop_done by lia. unfold accounted.
    rewrite attempts_nil. simpl.
    repeat split; try discriminate; try reflexivity; try lia.
    unfold failure_incs, Py.len. simpl. intros i Hi. lia.
  - destruct (Z.lt_ge_cases a max_retries) as [Hlt|Hge].
    2:{ rewrite retry_loop_done by lia. unfold accounted.
        rewrite attempts_nil. simpl.
        repeat split; try discriminate; try reflexivity; try lia.
        unfold failure_incs, Py.len. simpl. intros i Hi. lia. }
    destruct (try_post (endpoint (Z.to_nat a))) as [[]|e] eqn:Hpost.
    + rewrite (retry_loop_success _ _ _ fuel a Hlt Hpost). unfold accounted.
      rewrite attempts_cons_post, attempts_nil. simpl.
      split; [discriminate|]. split; [reflexivity|]. split; [lia|]. split; [lia|].
      split; [reflexivity|]. split; [reflexivity|]. split; [|split].
      * unfold failure_incs, Py.len. simpl. intros i Hi. lia.
      * intros _ _. replace (a + (1 + 0) - 1) with a by lia. exact Hpost.
      * intros e' [=].
    + pose proof (try_post_caught _ _ Hpost) as Hc.
      assert (Hfail : fails (endpoint (Z.to_nat a))) by (unfold fails; congruence).
      destruct (Z.lt_ge_cases (a + 1) max_retries) as [Hnext|Hlast].
      2:{ rewrite (retry_loop_last_failure _ _ _ fuel a e Hlt ltac:(lia) Hpost Hc).
          unfold accounted.
          rewrite attempts_cons_post, attempts_cons_other, attempts_nil by reflexivity.
          rewrite !failure_incs_cons. simpl.
          split; [discriminate|]. split; [reflexivity|]. split; [lia|]. split; [lia|].
          split; [reflexivity|]. split; [reflexivity|]. split; [|split].
          - unfold failure_incs, Py.len. simpl. intros i Hi.
            replace i with a by lia. exact Hfail.
          - intros [=].
          - intros e' [= <-]. left. split; [lia|].
            replace (a + (1 + 0) - 1) with a by lia. exact Hpost. }
      destruct (backoff backoff_base (a + 1)) as [seconds|e'] eqn:Hb.
      * rewrite (retry_loop_failure _ _ _ fuel a e seconds Hnext Hpost Hc Hb).
        specialize (IH (a + 1) ltac:(lia) ltac:(lia)).
        destruct (retry_loop fuel (a + 1)) as [trace o]. unfold accounted in IH |- *.
        simpl fst. simpl snd.
        destruct IH as (I1 & I2 & I3 & I9 & I4 & I5 & I6 & I7 & I8).
        specialize (I9 Hnext).
        rewrite attempts_cons_post, !attempts_cons_other by reflexivity.
        rewrite !failure_incs_cons. simpl is_failure_inc. simpl posts. simpl sleeps.
        set (k := attempts trace) in *.
        split; [exact I1|].
        split; [|split; [lia|split; [lia|split; [|split; [|split; [|split]]]]]].
        -- rewrite I2. replace (1 + k) with (Z.succ k) by lia.
           rewrite (seqZ_cons a (Z.succ k)) by lia. f_equal. f_equal; lia.
        -- rewrite I4. destruct o; try lia.
           destruct (Z.eqb_spec k 0) as [Hk|Hk], (Z.eqb_spec (1 + k) 0); lia.
        -- unfold Py.len in *. simpl length. lia.
        -- intros i Hi. destruct (Z.eq_dec i a) as [->|Hne]; [exact Hfail|].
           apply I6. lia.
        -- intros Ho _. subst o.
           destruct (Z.eqb_spec k 0) as [Hk|Hk].
           ++ exfalso. lia.
           ++ replace (a + (1 + k) - 1) with (a + 1 + k - 1) by lia.
              apply I7; [reflexivity|lia].
        -- intros e' Ho. replace (a + (1 + k)) with (a + 1 + k) by lia.
           apply I8, Ho.
      * pose proof (backoff_raises _ _ Hb) as ->.
        cbn [Ledger.retry_loop].
        rewrite (proj2 (Z.ltb_lt a max_retries) Hlt), Hpost, Hc. simpl negb. cbv iota.
        destruct (Z.geb_spec (a + 1) max_retries) as [Hx|_]; [lia|].
        rewrite Hb. unfold accounted.
        rewrite attempts_cons_post, attempts_cons_other, attempts_nil by reflexivity.
        rewrite !failure_incs_cons. simpl.
        split; [discriminate|]. split; [reflexivity|]. split; [lia|]. split; [lia|].
        split; [reflexivity|]. split; [reflexivity|]. split; [|split].
        -- unfold failure_incs, Py.len. simpl. intros i Hi.
           replace i with a by lia. exact Hfail.
        -- intros [=].
        -- intros e' [= <-]. right. split; [lia|]. split; [reflexivity|].
           replace (a + (1 + 0)) with (a + 1) by lia. exact Hb.
Qed.

End DeliveryAccounting.




(** ** Decision metrics *)

Lemma value_inc (l l' : string) (c : Metrics.counter) :
  Metrics.value l (Metrics.inc l' c)
  = Metrics.value l c + (if String.eqb l' l then 1 else 0).
Proof.
  unfold Metrics.value, Metrics.inc.
  destruct (String.eqb_spec l' l) as [->|Hne].
  - rewrite lookup_insert_eq. simpl. reflexivity.
  - rewrite lookup_insert_ne by exact Hne. lia.
Qed.

Lemma lookup_inc_None (l l' : string) (c : Metrics.counter) :
  Metrics.inc l' c !! l = None <-> l <> l' /\ c !! l = None.
Proof.
  unfold Metrics.inc. destruct (decide (l' = l)) as [->|Hne].
  - rewrite lookup_insert_eq. split; [discriminate|]. intros [H _]. congruence.
  - rewrite lookup_insert_ne by exact Hne. split; [intros H; split; congruence|tauto].
Qed.

(** The number of decisions of a list with a given label. *)
Lemma record_decisions_values (decisions : list CreditDecision.t) (m : Metrics.t) (l : string) :
  Metrics.value l (Metrics.decision_counter (Metrics.record_decisions decisions m))
  = Metrics.value l (Metrics.decision_counter m)
    + Py.len (List.filter
                (fun d => String.eqb (Metrics.outcome_of (CreditDecision.approved d)) l)
                decisions) /\
  Metrics.value l (Metrics.credit_limit_bucket_counter (Metrics.record_decisions decisions m))
  = Metrics.value l (Metrics.credit_limit_bucket_counter m)
    + Py.len (List.filter
                (fun d => String.eqb (Metrics.bucket_of (CreditDecision.credit_limit_cents d)) l)
                decisions).
Proof.
  revert m. induction decisions as [|d ds IH]; intros m.
  - unfold Py.len. simpl. split; lia.
  - unfold Metrics.record_decisions in *. simpl foldl.
    destruct (IH (Metrics.record_decision (CreditDecision.approved d)
                    (CreditDecision.credit_limit_cents d) m)) as [IH1 IH2].
    rewrite IH1, IH2. unfold Metrics.record_decision. simpl.
    rewrite !value_inc. unfold Py.len.
    destruct (String.eqb (Metrics.outcome_of (CreditDecision.approved d)) l),
      (String.eqb (Metrics.bucket_of (CreditDecision.credit_limit_cents d)) l);
      simpl length; split; lia.
Qed.

Lemma record_decisions_labels (decisions : list CreditDecision.t) (m : Metrics.t) (l : string) :
  (Metrics.decision_counter m !! l = None ->
   l <> "approved"%string -> l <> "declined"%string ->
   Metrics.decision_counter (Metrics.record_decisions decisions m) !! l = None) /\
  (Metrics.credit_limit_bucket_counter m !! l = None ->
   l <> "$0"%string -> l <> "$0-$100"%string -> l <> "$100-$400"%string ->
   l <> "$400+"%string ->
   Metrics.credit_limit_bucket_counter (Metrics.record_decisions decisions m) !! l = None).
Proof.
  revert m. induction decisions as [|d ds IH]; intros m.
  - simpl. tauto.
  - unfold Metrics.record_decisions in *. simpl foldl.
    destruct (IH (Metrics.record_decision (CreditDecision.approved d)
                    (CreditDecision.credit_limit_cents d) m)) as [IH1 IH2].
    split.
    + intros Hm Ha Hd. apply IH1; try assumption.
      unfold Metrics.record_decision. simpl. apply lookup_inc_None.
      split; [|exact Hm]. unfold Metrics.outcome_of.
      destruct (CreditDecision.approved d); assumption.
    + intros Hm H0 H1 H2 H3. apply IH2; try assumption.
      unfold Metrics.record_decision. simpl. apply lookup_inc_None.
      split; [|exact Hm]. unfold Metrics.bucket_of.
      destruct (_ =? 0); [assumption|].
      destruct (_ <=? 10000); [assumption|].
      destruct (_ <=? 40000); assumption.
Qed.

Lemma len_filter_partition {A} (f g : A -> bool) (l : list A) :
  (forall x, f x = negb (g x)) ->
  Py.len (List.filter f l) + Py.len (List.filter g l) = Py.len l.
Proof.
  intros Hfg. unfold Py.len. induction l as [|x l IH]; [reflexivity|].
  simpl. rewrite (Hfg x). destruct (g x); simpl length; lia.
Qed.

Lemma len_filter_ext {A} (f g : A -> bool) (l : list A) :
  (forall x, x ∈ l -> f x = g x) ->
  Py.len (List.filter f l) = Py.len (List.filter g l).
Proof.
  intros Hfg. unfold Py.len. f_equal. f_equal.
  induction l as [|x l IH]; [reflexivity|].
  simpl. rewrite (Hfg x) by left. rewrite IH; [reflexivity|].
  intros y Hy. apply Hfg. right. exact Hy.
Qed.

Lemma bucket_of_cases (credit_limit_cents : Z) :
  Metrics.bucket_of credit_limit_cents = "$0"%string \/
  Metrics.bucket_of credit_limit_cents = "$0-$100"%string \/
  Metrics.bucket_of credit_limit_cents = "$100-$400"%string \/
  Metrics.bucket_of credit_limit_cents = "$400+"%string.
Proof.
  unfold Metrics.bucket_of.
  destruct (_ =? 0); [tauto|]. destruct (_ <=? 10000); [tauto|].
  destruct (_ <=? 40000); tauto.
Qed.

Lemma bucket_partition (decisions : list CreditDecision.t) :
  let count (l : string) :=
    Py.len (List.filter
              (fun d => String.eqb
                          (Metrics.bucket_of (CreditDecision.credit_limit_cents d)) l)
              decisions) in
  count "$0"%string + count "$0-$100"%string + count "$100-$400"%string
  + count "$400+"%string = Py.len decisions.
Proof.
  cbv beta zeta. unfold Py.len. induction decisions as [|d ds IH]; [reflexivity|].
  cbn [List.filter].
  destruct (bucket_of_cases (CreditDecision.credit_limit_cents d)) as [E|[E|[E|E]]];
    rewrite E; cbn [String.eqb Ascii.eqb Bool.eqb andb]; simpl length; lia.
Qed.

(** X20.  The decision metrics of a process that has recorded a list of
    decisions. The two outcome counters add up to the number of decisions,
    and so do the four bucket counters; no other label is ever used. When
    the decisions come from the limit policy, the declined counter and the
    [$0] bucket count the same decisions, and the buckets [$0-$100],
    [$100-$400] and [$400+] count the decisions of the bands moderate_risk
    (limit 100 dollars), acceptable_risk (400 dollars) and low_risk (1000
    dollars). *)
Theorem record_decision_counters (decisions : list CreditDecision.t) :
  let m := Metrics.record_decisions decisions Metrics.initial in
  let decided := Metrics.decision_counter m in
  let buckets := Metrics.credit_limit_bucket_counter m in
  let band (name : string) :=
    Py.len (List.filter (fun d => String.eqb (CreditDecision.score_band d) name)
              decisions) in
  Metrics.value "approved" decided + Metrics.value "declined" decided
  = Py.len decisions /\
  Metrics.value "$0" buckets + Metrics.value "$0-$100" buckets
  + Metrics.value "$100-$400" buckets + Metrics.value "$400+" buckets
  = Py.len decisions /\
  (forall l, l <> "approved"%string -> l <> "declined"%string -> decided !! l = None) /\
  (forall l, l <> "$0"%string -> l <> "$0-$100"%string -> l <> "$100-$400"%string ->
             l <> "$400+"%string -> buckets !! l = None) /\
  ((forall d, d ∈ decisions ->
      determine_credit_limit (CreditDecision.score d)
      = (CreditDecision.approved d, CreditDecision.credit_limit_cents d,
         CreditDecision.score_band d)) ->
   Metrics.value "declined" decided = band "high_risk"%string /\
   Metrics.value "$0" buckets = band "high_risk"%string /\
   Metrics.value "$0-$100" buckets = band "moderate_risk"%string /\
   Metrics.value "$100-$400" buckets = band "acceptable_risk"%string /\
   Metrics.value "$400+" buckets = band "low_risk"%string).
Proof.
  intros m decided buckets band. subst m decided buckets.
  pose proof (fun l => proj1 (record_decisions_values decisions Metrics.initial l)) as HD.
  pose proof (fun l => proj2 (record_decisions_values decisions Metrics.initial l)) as HB.
  change (Metrics.value _ (Metrics.decision_counter Metrics.initial)) with 0 in HD.
  change (Metrics.value _ (Metrics.credit_limit_bucket_counter Metrics.initial)) with 0 in HB.
  split; [|split; [|split; [|split]]].
  - rewrite !HD.
    rewrite <- (len_filter_partition
                  (fun d => String.eqb (Metrics.outcome_of (CreditDecision.approved d))
                              "approved")
                  (fun d => String.eqb (Metrics.outcome_of (CreditDecision.approved d))
                              "declined") decisions).
    + lia.
    + intros d. destruct (CreditDecision.approved d); reflexivity.
  - rewrite !HB. pose proof (bucket_partition decisions) as HP. cbv beta zeta in HP. lia.
  - intros l Ha Hd.
    apply (proj1 (record_decisions_labels decisions Metrics.initial l)); auto.
  - intros l H0 H1 H2 H3.
    apply (proj2 (record_decisions_labels decisions Metrics.initial l)); auto.
  - intros Hpol. rewrite HD, !HB. subst band. cbv beta.
    repeat split; rewrite Z.add_0_l; apply len_filter_ext; intros d Hd;
      specialize (Hpol d Hd);
      destruct (determine_credit_limit_cases (CreditDecision.score d))
        as [(_ & _ & _ & E)|[(_ & _ & _ & E)|[(_ & _ & _ & E)|(_ & _ & _ & E)]]];
      rewrite E in Hpol; injection Hpol as Ea El Eb;
      rewrite <- ?Ea, <- ?El, <- ?Eb; reflexivity.
Qed.

Lemma record_decision_counters_witness :
  Metrics.value "declined"
    (Metrics.decision_counter
       (Metrics.record_decisions
          [CreditDecision.mk false 0 (-0.002)%float "high_risk" overdrawn_factors]
          Metrics.initial)) = 1.
Proof.
  destruct (record_decision_counters
              [CreditDecision.mk false 0 (-0.002)%float "high_risk" overdrawn_factors])
    as (_ & _ & _ & _ & H).
  destruct H as (H & _).
  - intros d Hd. apply elem_of_cons in Hd. destruct Hd as [->|Hd]; [|inversion Hd].
    reflexivity.
  - exact H.
Defined.

(** ** The decision endpoint *)

Lemma approved_limit (txns : list Transaction.t) (d : CreditDecision.t) :
  make_credit_decision txns = Ok d ->
  (CreditDecision.approved d = true -> 10000 <= CreditDecision.credit_limit_cents d) /\
  (CreditDecision.approved d = false -> CreditDecision.credit_limit_cents d = 0) /\
  0 <= CreditDecision.credit_limit_cents d <= 100000.
Proof.
  intros H. destruct (make_credit_decision_inv _ _ H) as (_ & _ & Hd).
  destruct (determine_credit_limit_cases (CreditDecision.score d))
    as [(_ & _ & _ & E)|[(_ & _ & _ & E)|[(_ & _ & _ & E)|(_ & _ & _ & E)]]];
    rewrite E in Hd; injection Hd as <- <- _;
    (split; [|split]); try discriminate; try lia; intros _; lia.
Qed.

Lemma default_first_due_date (today : Date) :
  Datetime.valid today = true ->
  first_due_date today default_interval_days None
  = if Datetime.valid (today + 14) then Ok (today + 14) else Raise OverflowError.
Proof. intros Hv. unfold first_due_date. apply (due_date_cases today 14 Hv). Qed.

Lemma default_plan (today amount : Z) :
  0 < amount ->
  Datetime.valid today = true ->
  generate_installment_plan today amount default_num_installments
    default_interval_days None
  = if Datetime.valid (today + 56)
    then Ok [Installment.mk (today + 14) (amount / 4);
             Installment.mk (today + 28) (amount / 4);
             Installment.mk (today + 42) (amount / 4);
             Installment.mk (today + 56) (amount / 4 + amount mod 4)]
    else Raise OverflowError.
Proof.
  intros Ha Hv. pose proof (default_first_due_date today Hv) as Hf.
  pose proof (proj1 (valid_bounds today) Hv) as Hb.
  destruct (Datetime.valid (today + 14)) eqn:H14.
  - assert (Hc : default_num_installments <> 0) by discriminate.
    rewrite (plan_unfold _ _ _ _ _ (today + 14) Ha Hc Hf H14). clear Hc.
    pose proof (schedulable_last (today + 14) default_num_installments
                  default_interval_days H14 ltac:(unfold default_num_installments; lia))
      as Hs.
    unfold default_num_installments, default_interval_days in *.
    replace (today + 14 + (4 - 1) * 14) with (today + 56) in Hs by lia.
    destruct (Datetime.valid (today + 56)) eqn:H56.
    + rewrite (proj2 Hs eq_refl).
      unfold installment_amount, Py.range.
      change (seqZ 0 4) with [0; 1; 2; 3]. rewrite !fmap_cons, fmap_nil.
      change (0 =? 4 - 1) with false. change (1 =? 4 - 1) with false.
      change (2 =? 4 - 1) with false. change (3 =? 4 - 1) with true.
      f_equal.
      repeat match goal with
        | |- _ :: _ = _ :: _ => f_equal; [f_equal; lia|]
        end.
      f_equal. f_equal. lia.
    + destruct (schedulable (today + 14) 4 14); [|reflexivity].
      destruct Hs as [Hs _]. specialize (Hs eq_refl). discriminate.
  - rewrite (plan_first_raises _ _ _ _ _ OverflowError Ha Hf).
    destruct (Datetime.valid (today + 56)) eqn:H56; [|reflexivity].
    apply valid_bounds in H56.
    assert (Datetime.valid (today + 14) = true) by (apply valid_bounds; lia).
    congruence.
Qed.

(** The plan raises nothing but the two errors of arithmetic. *)
Lemma plan_raises (today amount count interval : Z) (start : option Date) (e : exn) :
  generate_installment_plan today amount count interval start = Raise e ->
  e = OverflowError \/ e = ZeroDivisionError.
Proof.
  unfold generate_installment_plan. destruct (amount <=? 0); [discriminate|].
  destruct (match start with Some d => Ok d | None => _ end) as [first|e'] eqn:Hf.
  2:{ rewrite bind_raise. intros [= ->].
      change (first_due_date today interval start = Raise e) in Hf.
      apply first_due_date_raises in Hf. left. apply Hf. }
  rewrite bind_ok. unfold Py.floordiv, Py.mod_.
  destruct (Z.eqb_spec count 0) as [->|Hc].
  { rewrite bind_raise. intros [= <-]. right. reflexivity. }
  rewrite !bind_ok. intros H. apply collect_raise_inv in H.
  destruct H as (i & _ & Hi). left.
  unfold Datetime.timedelta, Datetime.add in Hi.
  destruct (Z.abs (i * interval) <=? Datetime.max_delta_days);
    rewrite ?bind_ok, ?bind_raise in Hi; [|congruence].
  destruct (Datetime.valid (first + i * interval));
    rewrite ?bind_ok, ?bind_raise in Hi; [discriminate|congruence].
Qed.

Lemma cleanup_returns (outcome : Api.effect -> option foreign_exception)
    (calls : list Api.effect) (r : Api.http_result) :
  (forall c, c ∈ calls -> outcome c = None) ->
  Api.cleanup outcome calls r = (calls, r).
Proof.
  induction calls as [|c calls IH]; intros H; [reflexivity|].
  simpl. rewrite (H c) by left. rewrite IH; [reflexivity|].
  intros c' Hc'. apply H. right. exact Hc'.
Qed.

Lemma decision_raises (txns : list Transaction.t) (e : exn) :
  make_credit_decision txns = Raise e ->
  (txns = [] /\ e = InsufficientDataError) \/ (txns <> [] /\ e = OverflowError).
Proof.
  intros H. destruct (decide (txns = [])) as [->|Hne].
  - left. split; [reflexivity|]. vm_compute in H. congruence.
  - right. split; [exact Hne|]. unfold make_credit_decision in H.
    rewrite (analyze_transactions_unfold txns Hne) in H.
    unfold income_spend_ratio_of in H.
    destruct (Z.ltb_spec 0 (total_spend_of txns)) as [Hs|Hs].
    + destruct (Py.truediv (total_income_of txns) (total_spend_of txns)) as [r|e'] eqn:Hr.
      * rewrite !bind_ok in H. unfold calculate_risk_score in H. simpl in H.
        destruct (Py.truediv _ balance_baseline) as [q|e''] eqn:Hq.
        -- rewrite !bind_ok in H. destruct (determine_credit_limit _) as [[a l] b].
           discriminate.
        -- rewrite !bind_raise in H. injection H as <-.
           apply (truediv_raises _ balance_baseline _ ltac:(reflexivity) Hq).
      * rewrite !bind_raise in H. injection H as <-.
        apply (truediv_raises _ _ _ Hs Hr).
    + rewrite !bind_ok in H. unfold calculate_risk_score in H. simpl in H.
      destruct (Py.truediv _ balance_baseline) as [q|e''] eqn:Hq.
      * rewrite !bind_ok in H. destruct (determine_credit_limit _) as [[a l] b].
        discriminate.
      * rewrite !bind_raise in H. injection H as <-.
        apply (truediv_raises _ balance_baseline _ ltac:(reflexivity) Hq).
Qed.

(** Running the handler: reduce the sequencing, then split on what the
    next call does. *)
Ltac handler_steps :=
  cbn [mbind mret Api.run_bind Api.run_ret Api.of_bank Api.of_domain Api.call
       Api.handle Api.cleanup Bank.get_transactions app fst snd].

Ltac handler_cases outcome :=
  repeat (handler_steps;
          match goal with
          | |- context [outcome ?c] => destruct (outcome c) as [[|]|] eqn:?
          end);
  handler_steps.

Ltac in_calls H :=
  repeat (apply elem_of_cons in H; destruct H as [->|H]; [assumption|]);
  inversion H.

Ltac http_cases :=
  let H := fresh "H" in
  intros H; try discriminate H; injection H as <- <-;
  (split; [tauto|]); (split; [reflexivity|]); (split; [reflexivity|]);
  intros ?; try (split; reflexivity); congruence.

Ltac propagated :=
  let H := fresh "H" in
  intros H; try discriminate H; injection H as <-;
  first [ left; reflexivity
        | right; eexists; split; [|eassumption];
          repeat first [apply list_elem_of_here | apply list_elem_of_further] ].

Ltac responded :=
  let H := fresh "H" in
  let Hc := fresh "Hc" in
  intros H; try discriminate H; injection H as <-;
  eexists _, _; (split; [reflexivity|]); (split; [eassumption|]);
  cbn [Api.approved Api.credit_limit_cents Api.amount_granted_cents Api.plan_id];
  repeat match goal with H : CreditDecision.approved _ = _ |- _ => rewrite H end;
  (split; [reflexivity|]); (split; [reflexivity|]); (split; [reflexivity|]);
  (split; [intros ? Hc; in_calls Hc|]);
  (split; [reflexivity|]); (split; [reflexivity|]).

(** X21.  The failures of the endpoint, [outcome] telling what each call on
    a collaborator does. When the bank client raises [BankAPIError] (a
    timeout, a refused status, a malformed document) the handler counts a
    bank fetch failure, rolls back, logs and answers 503. On an empty
    history it rolls back and answers 422 with the message of the analyzer.
    On any other instance of [Exception] it rolls back and answers 500: an
    exception the bank client does not catch, an overflow of the scoring, a
    due date beyond the calendar, a repository that fails, and also metrics
    that fail after the commit. An exception outside [Exception] leaves the
    handler untouched, and so does the exception of a call made in an
    [except] clause. Whenever the handler answers with an [HTTPException],
    the status is 503, 422 or 500 and the rollback was called once and
    returned; with 503 and 422 no decision, plan or ledger task was created
    and no commit was called. *)
Theorem create_decision_failures
    (outcome : Api.effect -> option foreign_exception) (today : Date)
    (request_id decision_id new_plan_id : string)
    (request_body : Api.DecisionRequest) (bank : Bank.get_result) :
  let run := Api.create_decision outcome today request_id decision_id new_plan_id
               request_body bank in
  let internal calls :=
    (calls ++ [Api.DbRollback; Api.LogError],
     Api.HTTPException 500 "Internal server error") in
  (forall e, bank = Bank.Raised e -> (forall f, e <> Bank.Other f) ->
     Bank.get_transactions bank = inl Bank.BankAPIError) /\
  (Bank.get_transactions bank = inl Bank.BankAPIError ->
   outcome Api.BankFetchFailureInc = None -> outcome Api.DbRollback = None ->
   outcome Api.LogError = None ->
   run = ([Api.BankFetchFailureInc; Api.DbRollback; Api.LogError],
          Api.HTTPException 503 "Bank service unavailable")) /\
  (bank = Bank.Raised (Bank.Other ForeignError) ->
   outcome Api.DbRollback = None -> outcome Api.LogError = None ->
   run = internal []) /\
  (bank = Bank.Raised (Bank.Other ForeignInterrupt) ->
   run = ([], Api.Propagates ForeignInterrupt)) /\
  (bank = Bank.Parsed [] ->
   outcome Api.DbRollback = None -> outcome Api.LogWarning = None ->
   run = ([Api.DbRollback; Api.LogWarning],
          Api.HTTPException 422 "No transaction history available")) /\
  (forall txns, bank = Bank.Parsed txns ->
     make_credit_decision txns = Raise OverflowError ->
     outcome Api.DbRollback = None -> outcome Api.LogError = None ->
     run = internal []) /\
  (forall txns d, bank = Bank.Parsed txns -> make_credit_decision txns = Ok d ->
     outcome Api.DbRollback = None -> outcome Api.LogError = None ->
     let granted :=
       if CreditDecision.approved d
       then Z.min (Api.amount_cents_requested request_body)
                  (CreditDecision.credit_limit_cents d)
       else 0 in
     let created :=
       Api.CreateDecision (Api.user_id request_body)
         (Api.amount_cents_requested request_body) d granted in
     let recorded :=
       Api.RecordDecision (CreditDecision.approved d)
         (CreditDecision.credit_limit_cents d) in
     (outcome created = Some ForeignError -> run = internal [created]) /\
     (CreditDecision.approved d = true ->
      0 < Api.amount_cents_requested request_body ->
      Datetime.valid today = true -> Datetime.valid (today + 56) = false ->
      outcome created = None -> run = internal [created]) /\
     (CreditDecision.approved d = false ->
      outcome created = None -> outcome Api.DbCommit = None ->
      outcome recorded = Some ForeignError ->
      run = internal [created; Api.DbCommit; recorded])) /\
  (forall status detail, run.2 = Api.HTTPException status detail ->
     (status = 503 /\ detail = "Bank service unavailable"%string /\
      Bank.get_transactions bank = inl Bank.BankAPIError
      \/ status = 422 /\ detail = "No transaction history available"%string /\
         bank = Bank.Parsed []
      \/ status = 500 /\ detail = "Internal server error"%string) /\
     outcome Api.DbRollback = None /\
     List.filter Api.is_rollback run.1 = [Api.DbRollback] /\
     (status <> 500 ->
      List.filter Api.is_write run.1 = [] /\ List.filter Api.is_commit run.1 = [])) /\
  (forall e, run.2 = Api.Propagates e ->
     bank = Bank.Raised (Bank.Other e) \/
     exists c, c ∈ run.1 /\ outcome c = Some e).
Proof.
  intros run internal. subst run internal. cbv beta.
  split; [|split; [|split; [|split; [|split; [|split; [|split; [|split]]]]]]].
  - intros e -> He. destruct e as [| | | | |f]; try reflexivity.
    destruct (He f). reflexivity.
  - intros Hb Hi Hr Hl. unfold Api.create_decision, Api.try_block. rewrite Hb.
    handler_steps. rewrite Hi, Hr, Hl. reflexivity.
  - intros -> Hr Hl. unfold Api.create_decision, Api.try_block.
    handler_steps. rewrite Hr, Hl. reflexivity.
  - intros ->. reflexivity.
  - intros -> Hr Hl. unfold Api.create_decision, Api.try_block.
    handler_steps. change (make_credit_decision []) with (@Raise CreditDecision.t InsufficientDataError).
    handler_steps. rewrite Hr, Hl. reflexivity.
  - intros txns -> Hd Hr Hl. unfold Api.create_decision, Api.try_block.
    handler_steps. rewrite Hd. handler_steps. rewrite Hr, Hl. reflexivity.
  - intros txns d -> Hd Hr Hl granted created recorded.
    destruct (approved_limit _ _ Hd) as (Hyes & Hno & Hrange).
    unfold Api.create_decision, Api.try_block.
    handler_steps. rewrite Hd. handler_steps. fold granted. fold created.
    split; [|split].
    + intros Hc. rewrite Hc. handler_steps. rewrite Hr, Hl. reflexivity.
    + intros Ha Hreq Hv H56 Hc. rewrite Hc. specialize (Hyes Ha).
      assert (Hg : 0 < granted) by (subst granted; rewrite Ha; lia).
      rewrite Ha, (proj2 (Z.ltb_lt 0 granted) Hg). cbn [andb].
      rewrite (default_plan today granted Hg Hv), H56.
      handler_steps. rewrite Hr, Hl. reflexivity.
    + intros Ha Hc Hcommit Hrec. rewrite Hc. subst recorded. rewrite Ha in *.
      cbn [andb]. handler_steps. rewrite Hcommit. handler_steps.
      rewrite Hrec. handler_steps. rewrite Hr, Hl. reflexivity.
  - intros status detail. unfold Api.create_decision, Api.try_block.
    destruct bank as [txns|be].
    2:{ destruct be as [| | | | |[|]]; handler_cases outcome; http_cases. }
    handler_steps.
    destruct (make_credit_decision txns) as [d|e] eqn:Hd.
    2:{ destruct (decision_raises _ _ Hd) as [[-> ->]|[Hne ->]];
        handler_cases outcome; http_cases. }
    handler_steps. destruct (CreditDecision.approved d) eqn:Ha; cbn [andb].
    + match goal with |- context [0 <? ?g] => destruct (0 <? g) eqn:Hpos end.
      * match goal with |- context [generate_installment_plan ?a ?b ?c ?d ?e] =>
          destruct (generate_installment_plan a b c d e) as [plan|e'] eqn:Hp end.
        -- handler_cases outcome; http_cases.
        -- destruct (plan_raises _ _ _ _ _ _ Hp) as [-> | ->];
             handler_cases outcome; http_cases.
      * handler_cases outcome; http_cases.
    + handler_cases outcome; http_cases.
  - intros e. unfold Api.create_decision, Api.try_block.
    destruct bank as [txns|be].
    2:{ destruct be as [| | | | |[|]]; handler_cases outcome; propagated. }
    handler_steps.
    destruct (make_credit_decision txns) as [d|e0] eqn:Hd.
    2:{ destruct (decision_raises _ _ Hd) as [[-> ->]|[Hne ->]];
        handler_cases outcome; propagated. }
    handler_steps. destruct (CreditDecision.approved d) eqn:Ha; cbn [andb].
    + match goal with |- context [0 <? ?g] => destruct (0 <? g) eqn:Hpos end.
      * match goal with |- context [generate_installment_plan ?a ?b ?c ?d ?e] =>
          destruct (generate_installment_plan a b c d e) as [plan|e'] eqn:Hp end.
        -- handler_cases outcome; propagated.
        -- destruct (plan_raises _ _ _ _ _ _ Hp) as [-> | ->];
             handler_cases outcome; propagated.
      * handler_cases outcome; propagated.
    + handler_cases outcome; propagated.
Qed.

Lemma create_decision_failures_witness :
  Api.create_decision Api.all_return 738886 "r" "d" "p" (Api.mkRequest "u" 40003)
    (Bank.Raised Bank.TimeoutException)
  = ([Api.BankFetchFailureInc; Api.DbRollback; Api.LogError],
     Api.HTTPException 503 "Bank service unavailable") /\
  (Api.create_decision Api.all_return 3652050 "r" "d" "p" (Api.mkRequest "u" 40003)
     (Bank.Parsed [sample_txn 0 300000 "credit" 200000;
                   sample_txn 3 50000 "debit" 150000])).2
  = Api.HTTPException 500 "Internal server error".
Proof.
  split.
  - destruct (create_decision_failures Api.all_return 738886 "r" "d" "p"
                (Api.mkRequest "u" 40003) (Bank.Raised Bank.TimeoutException))
      as (_ & H & _).
    apply H; reflexivity.
  - destruct (create_decision_failures Api.all_return 3652050 "r" "d" "p"
                (Api.mkRequest "u" 40003)
                (Bank.Parsed [sample_txn 0 300000 "credit" 200000;
                              sample_txn 3 50000 "debit" 150000]))
      as (_ & _ & _ & _ & _ & _ & H & _).
    edestruct (H _ _ eq_refl ltac:(reflexivity) eq_refl eq_refl) as (_ & Hdate & _).
    rewrite (Hdate eq_refl ltac:(simpl; lia) eq_refl eq_refl eq_refl). reflexivity.
Defined.

(** X22.  The successes of the endpoint, [outcome] telling what each call on
    a collaborator does. The handler returns a response only when the bank
    client returned a history that the scoring accepts and every call it
    made returned: the response carries the approval and the limit of the
    decision and the amount granted, which is 0 on a refusal and the smaller
    of the requested amount and the limit on an approval; the decision was
    stored first, the session was committed once and not rolled back, and
    the metrics and the log come last; a plan identifier is returned exactly
    when a plan was stored and a ledger task scheduled for it. Conversely,
    for a validated request (a positive requested amount), a history the
    scoring accepts and collaborators that all return: a refusal grants 0,
    creates no plan and no ledger task, and is still stored and committed;
    an approval, on a day that is at least 56 days before the end of the
    calendar, grants a positive amount and stores the decision and then a
    plan of four installments, due 14, 28, 42 and 56 days after today, whose
    amounts add up to the granted amount; the ledger task carries the same
    amount and the identifier of the plan that the response returns; the
    commit comes after all three. *)
Theorem create_decision_successes
    (outcome : Api.effect -> option foreign_exception) (today : Date)
    (request_id decision_id new_plan_id : string)
    (request_body : Api.DecisionRequest) (bank : Bank.get_result) :
  let run := Api.create_decision outcome today request_id decision_id new_plan_id
               request_body bank in
  let user := Api.user_id request_body in
  let requested := Api.amount_cents_requested request_body in
  let reported (d : CreditDecision.t) :=
    [Api.DbCommit;
     Api.RecordDecision (CreditDecision.approved d) (CreditDecision.credit_limit_cents d);
     Api.LogDecision request_id user (CreditDecision.approved d)
       (CreditDecision.credit_limit_cents d)] in
  (forall r, run.2 = Api.Respond r ->
     exists txns d,
       bank = Bank.Parsed txns /\ make_credit_decision txns = Ok d /\
       Api.approved r = CreditDecision.approved d /\
       Api.credit_limit_cents r = CreditDecision.credit_limit_cents d /\
       Api.amount_granted_cents r
       = (if CreditDecision.approved d
          then Z.min requested (CreditDecision.credit_limit_cents d) else 0) /\
       (forall c, c ∈ run.1 -> outcome c = None) /\
       List.filter Api.is_commit run.1 = [Api.DbCommit] /\
       List.filter Api.is_rollback run.1 = [] /\
       let created :=
         Api.CreateDecision user requested d (Api.amount_granted_cents r) in
       (Api.plan_id r = None /\ run.1 = created :: reported d
        \/ Api.plan_id r = Some new_plan_id /\
           0 < Api.amount_granted_cents r /\
           exists installments,
             generate_installment_plan today (Api.amount_granted_cents r)
               default_num_installments default_interval_days None
             = Ok installments /\
             run.1 = created
                     :: Api.CreatePlan decision_id user (Api.amount_granted_cents r)
                          installments
                     :: Api.AddTask (Api.mkEvent decision_id new_plan_id user
                                       (Api.amount_granted_cents r))
                     :: reported d)) /\
  (forall txns d,
     bank = Bank.Parsed txns -> make_credit_decision txns = Ok d ->
     0 < requested -> (forall c, outcome c = None) ->
     let limit := CreditDecision.credit_limit_cents d in
     (CreditDecision.approved d = false ->
      run = (Api.CreateDecision user requested d 0 :: reported d,
             Api.Respond (Api.mkResponse false 0 0 None))) /\
     (CreditDecision.approved d = true ->
      Datetime.valid today = true -> Datetime.valid (today + 56) = true ->
      let granted := Z.min requested limit in
      0 < granted /\ granted <= requested /\ granted <= limit /\
      exists installments,
        run = (Api.CreateDecision user requested d granted
                 :: Api.CreatePlan decision_id user granted installments
                 :: Api.AddTask (Api.mkEvent decision_id new_plan_id user granted)
                 :: reported d,
               Api.Respond (Api.mkResponse true limit granted (Some new_plan_id))) /\
        Py.len installments = 4 /\
        Py.sum (Installment.amount_cents <$> installments) = granted /\
        Installment.due_date <$> installments
        = [today + 14; today + 28; today + 42; today + 56] /\
        (forall inst, inst ∈ installments -> 0 <= Installment.amount_cents inst))).
Proof.
  intros run user requested reported. subst run user requested reported. cbv beta.
  split.
  - intros r. unfold Api.create_decision, Api.try_block.
    destruct bank as [txns|be].
    2:{ destruct be as [| | | | |[|]]; handler_cases outcome; intros H; discriminate H. }
    handler_steps.
    destruct (make_credit_decision txns) as [d|e0] eqn:Hd.
    2:{ destruct (decision_raises _ _ Hd) as [[-> ->]|[Hne ->]];
        handler_cases outcome; intros H; discriminate H. }
    handler_steps. destruct (CreditDecision.approved d) eqn:Ha; cbn [andb].
    + match goal with |- context [0 <? ?g] => destruct (0 <? g) eqn:Hpos end.
      * match goal with |- context [generate_installment_plan ?a ?b ?c ?d ?e] =>
          destruct (generate_installment_plan a b c d e) as [plan|e'] eqn:Hp end.
        -- handler_cases outcome; responded.
           right. split; [reflexivity|]. split; [apply Z.ltb_lt, Hpos|].
           exists plan. split; [exact Hp|reflexivity].
        -- destruct (plan_raises _ _ _ _ _ _ Hp) as [-> | ->];
             handler_cases outcome; intros H; discriminate H.
      * handler_cases outcome; responded. left. split; reflexivity.
    + handler_cases outcome; responded. left. split; reflexivity.
  - intros txns d -> Hd Hreq Hall limit. subst limit.
    destruct (approved_limit _ _ Hd) as (Hyes & Hno & Hrange).
    unfold Api.create_decision, Api.try_block.
    handler_steps. rewrite Hd. handler_steps. split.
    + intros Ha. rewrite Ha, (Hno Ha). cbn [andb]. handler_steps.
      rewrite !Hall. handler_steps. reflexivity.
    + intros Ha Hv H56. specialize (Hyes Ha). rewrite Ha. cbv zeta.
      set (granted := Z.min (Api.amount_cents_requested request_body)
                            (CreditDecision.credit_limit_cents d)).
      assert (Hg : 0 < granted) by (subst granted; lia).
      split; [exact Hg|]. split; [subst granted; lia|]. split; [subst granted; lia|].
      rewrite (proj2 (Z.ltb_lt 0 granted) Hg). cbn [andb].
      rewrite (default_plan today granted Hg Hv), H56. handler_steps.
      rewrite !Hall. handler_steps.
      eexists. split; [reflexivity|].
      pose proof (Z.div_mod granted 4 ltac:(lia)) as Hdm.
      pose proof (Z.mod_pos_bound granted 4 ltac:(lia)) as Hm.
      pose proof (Z.div_pos granted 4 ltac:(lia) ltac:(lia)) as Hq.
      split; [reflexivity|]. split; [|split; [reflexivity|]].
      * rewrite !fmap_cons, fmap_nil, !sum_cons, sum_nil.
        simpl Installment.amount_cents. lia.
      * intros inst Hin.
        repeat (apply elem_of_cons in Hin; destruct Hin as [->|Hin]; [simpl; lia|]).
        inversion Hin.
Qed.

Lemma create_decision_successes_witness :
  exists d installments,
    Api.create_decision Api.all_return 738886 "r" "d" "p"
      (Api.mkRequest "u" 40003)
      (Bank.Parsed [sample_txn 0 300000 "credit" 200000;
                    sample_txn 3 50000 "debit" 150000])
    = ([Api.CreateDecision "u" 40003 d 40003;
        Api.CreatePlan "d" "u" 40003 installments;
        Api.AddTask (Api.mkEvent "d" "p" "u" 40003);
        Api.DbCommit; Api.RecordDecision true 100000;
        Api.LogDecision "r" "u" true 100000],
       Api.Respond (Api.mkResponse true 100000 40003 (Some "p"))) /\
    Installment.amount_cents <$> installments = [10000; 10000; 10000; 10003] /\
    Installment.due_date <$> installments = [738900; 738914; 738928; 738942].
Proof.
  destruct (create_decision_successes Api.all_return 738886 "r" "d" "p"
              (Api.mkRequest "u" 40003)
              (Bank.Parsed [sample_txn 0 300000 "credit" 200000;
                            sample_txn 3 50000 "debit" 150000])) as [_ H].
  edestruct (H _ _ eq_refl ltac:(reflexivity) ltac:(simpl; lia) ltac:(reflexivity))
    as [_ Happroved].
  destruct (Happroved eq_refl eq_refl eq_refl)
    as (_ & _ & _ & installments & Hrun & Hlen & Hsum & Hdue & _).
  eexists _, installments. split; [exact Hrun|]. split; [|exact Hdue].
  vm_compute in Hrun. injection Hrun as <-. reflexivity.
Defined.
